(** * minqlx core: info strings, decorators and the plugin loader

    A shallow embedding of [python/minqlx/_core.py].  Python strings are
    [string]s whose characters are read as the code points 0..255; Python
    dictionaries are [gmap]s (an [OrderedDict] is an association list kept
    in insertion order); code with effects is written in a small state and
    exception monad over the interpreter state it touches. *)

From Stdlib Require Import Ascii.
From stdpp Require Import gmap strings list fin_maps pretty.

Local Open Scope string_scope.
Local Open Scope nat_scope.
Set Warnings "-clear-no-such-hyp,-register-all".

(** ** Exceptions *)

(** The exception classes the module raises or lets through.  [HostError]
    stands for whatever a collaborator outside this file raises (an import
    that fails, a plugin constructor, an event listener); it is none of the
    module's own two classes. *)
Inductive exn : Type :=
  | PluginLoadError (msg : string)
  | PluginUnloadError (msg : string)
  | ValueError (msg : string)
  | TypeError (msg : string)
  | AttributeError (msg : string)
  | KeyError (msg : string)
  | RecursionError
  | HostError (tag : string).

Inductive result (A : Type) : Type :=
  | Ok (a : A)
  | Raise (e : exn).
Arguments Ok {A} a.
Arguments Raise {A} e.

Definition is_PluginLoadError (e : exn) : bool :=
  match e with PluginLoadError _ => true | _ => false end.

Definition is_PluginUnloadError (e : exn) : bool :=
  match e with PluginUnloadError _ => true | _ => false end.

(** ** Python string methods used by the module *)

Definition backslash : ascii := Ascii.ascii_of_nat 92.
Definition comma : ascii := Ascii.ascii_of_nat 44.

(** [str.isspace] on one character, for the code points below 256. *)
Definition isspace (c : ascii) : bool :=
  let n := Ascii.nat_of_ascii c in
  ((9 <=? n) && (n <=? 13)) || ((28 <=? n) && (n <=? 32))
  || (n =? 133) || (n =? 160).

(** [s.lstrip(chars)] and [s.rstrip(chars)] for a predicate on characters. *)
Fixpoint lstrip_by (p : ascii → bool) (s : string) : string :=
  match s with
  | EmptyString => EmptyString
  | String c s' => if p c then lstrip_by p s' else s
  end.

Fixpoint rstrip_by (p : ascii → bool) (s : string) : string :=
  match s with
  | EmptyString => EmptyString
  | String c s' =>
      match rstrip_by p s' with
      | EmptyString => if p c then EmptyString else String c EmptyString
      | t => String c t
      end
  end.

(** [s.strip()] *)
Definition strip (s : string) : string := lstrip_by isspace (rstrip_by isspace s).

(** [s.lstrip(c)] for a one-character argument. *)
Definition lstrip (c : ascii) (s : string) : string := lstrip_by (Ascii.eqb c) s.

(** [s.split(sep)] for a one-character separator: one token more than there
    are separators, empty tokens included. *)
Fixpoint split (sep : ascii) (s : string) : list string :=
  match s with
  | EmptyString => [EmptyString]
  | String c s' =>
      if Ascii.eqb c sep then EmptyString :: split sep s'
      else match split sep s' with
           | t :: ts => String c t :: ts
           | [] => [String c EmptyString]
           end
  end.

(** [s.endswith(suffix)] *)
Fixpoint endswith (s suffix : string) : bool :=
  if String.eqb s suffix then true
  else match s with
       | EmptyString => false
       | String _ s' => endswith s' suffix
       end.

(** [bool(s)] of a string: non-empty. *)
Definition truthy (s : string) : bool :=
  match s with EmptyString => false | _ => true end.

(** [range(start, stop, step)] for a positive step. *)
Definition range (start stop step : nat) : list nat :=
  (λ k, start + k * step) <$> seq 0 ((stop - start + (step - 1)) / step).

(** ** HELPERS: parse_variables *)

(** The two dictionary types [parse_variables] can return. *)
Inductive PyDict : Type :=
  | Dict (d : gmap string string)
  | OrderedDict (items : list (string * string)).

(** [od[k] = v] on an [OrderedDict]: a known key keeps its place and gets
    the new value, a new key goes to the end. *)
Fixpoint od_setitem (k v : string) (items : list (string * string))
  : list (string * string) :=
  match items with
  | [] => [(k, v)]
  | (k', v') :: rest =>
      if String.eqb k' k then (k', v) :: rest
      else (k', v') :: od_setitem k v rest
  end.

Definition setitem (k v : string) (res : PyDict) : PyDict :=
  match res with
  | Dict d => Dict (<[k := v]> d)
  | OrderedDict items => OrderedDict (od_setitem k v items)
  end.

Definition empty_dict (ordered : bool) : PyDict :=
  if ordered then OrderedDict [] else Dict ∅.

(** The body of the [for] loop under [try]: [None] when an index is out of
    range (the [IndexError] the bare [except] catches). *)
Fixpoint fill_pairs (vars : list string) (idx : list nat) (res : PyDict)
  : option PyDict :=
  match idx with
  | [] => Some res
  | i :: idx' =>
      match vars !! i, vars !! (i + 1) with
      | Some k, Some v => fill_pairs vars idx' (setitem k v res)
      | _, _ => None
      end
  end.

Definition parse_variables (varstr : string) (ordered : bool) : result PyDict :=
  let res := empty_dict ordered in
  if negb (truthy (strip varstr)) then Ok res
  else
    let vars := split backslash (lstrip backslash varstr) in
    match fill_pairs vars (range 0 (length vars) 2) res with
    | Some res' => Ok res'
    | None => Raise (ValueError ("Uneven number of keys and values: " ++ varstr))
    end.

(** What the specification says of the decoder, in its own words: nothing
    for a blank input, otherwise the tokens taken two by two (a later value
    for a key replaces the earlier one), the order-preserving variant with
    its keys in the order they are first met; an odd token count fails and
    echoes the input. *)
Fixpoint pairs (tokens : list string) : list (string * string) :=
  match tokens with
  | k :: v :: rest => (k, v) :: pairs rest
  | _ => []
  end.

Definition mapping_of (kvs : list (string * string)) : gmap string string :=
  fold_left (λ m kv, <[kv.1 := kv.2]> m) kvs ∅.

Fixpoint encounter_order (seen : gset string) (ks : list string) : list string :=
  match ks with
  | [] => []
  | k :: ks' =>
      if bool_decide (k ∈ seen) then encounter_order seen ks'
      else k :: encounter_order ({[k]} ∪ seen) ks'
  end.

Definition bind_keys (m : gmap string string) (ks : list string)
  : list (string * string) :=
  (λ k, (k, default "" (m !! k))) <$> ks.

Definition decoded (ordered : bool) (kvs : list (string * string)) : PyDict :=
  if ordered
  then OrderedDict (bind_keys (mapping_of kvs) (encounter_order ∅ kvs.*1))
  else Dict (mapping_of kvs).

Definition all_space (s : string) : bool :=
  forallb isspace (String.list_ascii_of_string s).

Definition tokens_of (varstr : string) : list string :=
  split backslash (lstrip backslash varstr).

Definition decode_spec (varstr : string) (ordered : bool) : result PyDict :=
  if all_space varstr then Ok (empty_dict ordered)
  else if Nat.even (length (tokens_of varstr))
       then Ok (decoded ordered (pairs (tokens_of varstr)))
       else Raise (ValueError ("Uneven number of keys and values: " ++ varstr)).


Definition getitem (res : PyDict) (k : string) : option string :=
  match res with
  | Dict d => d !! k
  | OrderedDict items => (list_to_map items : gmap string string) !! k
  end.

(** ** DECORATORS: next_frame and delay *)

(** Positional and keyword arguments captured by a decorated call. *)
Definition Args : Type := list string.
Definition Kwargs : Type := list (string * string).

(** A use of one of the two decorators inside a callback's body. *)
Inductive Deferral (C : Type) : Type :=
  | NextFrame (func : C) (args : Args) (kwargs : Kwargs)
  | Delay (time : nat) (func : C) (args : Args) (kwargs : Kwargs).
Arguments NextFrame {C} func args kwargs.
Arguments Delay {C} time func args kwargs.

(** A callback as the scheduler sees it: a label to recognise it by, and
    the decorated calls its body makes, in order. *)
Inductive Callback : Type :=
  | Action (label : string) (body : list (Deferral Callback)).

Definition label (c : Callback) : string := match c with Action l _ => l end.
Definition body (c : Callback) : list (Deferral Callback) :=
  match c with Action _ b => b end.

Record ScheduledTask : Type := mkTask {
  fire_time : nat;
  priority : nat;
  sequence : nat;
  action : Callback;
  argument : Args;
  kwargs : Kwargs
}.

(** Modelled from the spec: the frame scheduler [minqlx.frame_tasks] and the
    pump the host calls once per tick are created outside [_core.py].  The
    queue is kept in (fire-time, priority, sequence) order; [now] is the
    host clock, [pumps] counts the pump calls (the tick number) and [fired]
    records which task ran during which pump. *)
Record FrameScheduler : Type := mkSched {
  now : nat;
  next_sequence : nat;
  queue : list ScheduledTask;
  pumps : nat;
  fired : list (nat * ScheduledTask)
}.

Definition task_before (a b : ScheduledTask) : bool :=
  (fire_time a <? fire_time b)
  || ((fire_time a =? fire_time b)
      && ((priority a <? priority b)
          || ((priority a =? priority b) && (sequence a <? sequence b)))).

Fixpoint enqueue (t : ScheduledTask) (q : list ScheduledTask) : list ScheduledTask :=
  match q with
  | [] => [t]
  | u :: q' => if task_before t u then t :: u :: q' else u :: enqueue t q'
  end.

(** Modelled from the spec: [enter(delay, priority, callback, args)] queues
    a task that fires no earlier than [delay] after the call. *)
Definition enter (delay priority : nat) (func : Callback) (args : Args)
    (kw : Kwargs) (s : FrameScheduler) : FrameScheduler :=
  let t := mkTask (now s + delay) priority (next_sequence s) func args kw in
  mkSched (now s) (S (next_sequence s)) (enqueue t (queue s)) (pumps s) (fired s).

(** [next_frame(func)(args, kwargs)] *)
Definition next_frame (func : Callback) (args : Args) (kw : Kwargs)
  : FrameScheduler → FrameScheduler :=
  enter 0 0 func args kw.

(** [delay(time)(func)(args, kwargs)] *)
Definition delay (time : nat) (func : Callback) (args : Args) (kw : Kwargs)
  : FrameScheduler → FrameScheduler :=
  enter time 0 func args kw.

(** Running a callback's body: each decorated call goes through its
    decorator. *)
Definition defer (d : Deferral Callback) : FrameScheduler → FrameScheduler :=
  match d with
  | NextFrame func args kw => next_frame func args kw
  | Delay time func args kw => delay time func args kw
  end.

Definition run_task (t : ScheduledTask) (s : FrameScheduler) : FrameScheduler :=
  let s1 := mkSched (now s) (next_sequence s) (queue s) (pumps s)
                    (fired s ++ [(pumps s, t)]) in
  fold_left (λ s d, defer d s) (body (action t)) s1.

Definition is_due (clock : nat) (t : ScheduledTask) : bool := fire_time t <=? clock.

(** Modelled from the spec: [pump()] pops every task whose fire-time has
    elapsed and executes them in queue order; what they schedule meanwhile
    stays queued for a later pump. *)
Definition pump (s : FrameScheduler) : FrameScheduler :=
  let due := filter (λ t, is_due (now s) t = true) (queue s) in
  let rest := filter (λ t, is_due (now s) t = false) (queue s) in
  let s1 := mkSched (now s) (next_sequence s) rest (pumps s) (fired s) in
  let s2 := fold_left (λ s t, run_task t s) due s1 in
  mkSched (now s2) (next_sequence s2) (queue s2) (S (pumps s2)) (fired s2).

(** One host tick: the clock moves on by [dt], then the host pumps. *)
Definition tick (dt : nat) (s : FrameScheduler) : FrameScheduler :=
  pump (mkSched (now s + dt) (next_sequence s) (queue s) (pumps s) (fired s)).

(** ** DECORATORS: thread *)

Definition _thread_name : string := "minqlxthread".

(** [thread(func, force)] *)
Inductive Wrapped (C : Type) : Type :=
  | Thread (func : C) (force : bool).
Arguments Thread {C} func force.

(** A callable as far as threads go: its [__name__] and the calls its body
    makes to thread-decorated callables, in order. *)
Inductive Callable : Type :=
  | Func (__name__ : string) (calls : list (Wrapped Callable)).

Definition func_name (c : Callable) : string := match c with Func n _ => n end.
Definition func_calls (c : Callable) : list (Wrapped Callable) :=
  match c with Func _ b => b end.

(** A [threading.Thread] object. *)
Record ThreadObj : Type := mkThread {
  thread_name : string;
  target : Callable;
  daemon : bool
}.

(** The thread state the decorator touches: the module counter, the units
    started so far, and which callable ran on which unit (by name). *)
Record Threads : Type := mkThreads {
  _thread_count : nat;
  started : list ThreadObj;
  ran : list (string * string)
}.

Section thread.
(** [run cur func]: the body of [func] executing on the unit named [cur]. *)
Variable run : string → Callable → Threads → Threads.

(** The closure [f] returned by [thread(func, force)], called on the unit
    named [cur].  Execution is laid out sequentially: the target of a
    started unit runs at [t.start()]. *)
Definition f (cur : string) (w : Wrapped Callable) (st : Threads)
  : Threads * option ThreadObj :=
  match w with
  | Thread func force =>
      if negb force && endswith cur _thread_name then
        (run cur func st, None)
      else
        let name := func_name func ++ "-" ++ pretty (_thread_count st)
                    ++ "-" ++ _thread_name in
        let t := mkThread name func true in
        let st1 := run name func
                     (mkThreads (_thread_count st) (started st ++ [t]) (ran st)) in
        (mkThreads (_thread_count st1 + 1) (started st1) (ran st1), Some t)
  end.
End thread.

Fixpoint run (cur : string) (func : Callable) (st : Threads) : Threads :=
  match func with
  | Func name calls =>
      (fix each (ws : list (Wrapped Callable)) (st : Threads) : Threads :=
         match ws with
         | [] => st
         | w :: ws' => each ws' (f run cur w st).1
         end) calls
        (mkThreads (_thread_count st) (started st) (ran st ++ [(cur, name)]))
  end.

(** Calling a [thread]-decorated callable from the unit named [cur]. *)
Definition call (cur : string) (w : Wrapped Callable) (st : Threads)
  : Threads * option ThreadObj :=
  f run cur w st.

(** Forced calls reachable from a callable's body: each one is a unit of
    its own once the body runs inside a unit of this decorator. *)
Fixpoint forced_calls (func : Callable) : nat :=
  match func with
  | Func _ calls =>
      (fix each (ws : list (Wrapped Callable)) : nat :=
         match ws with
         | [] => 0
         | Thread g force :: ws' =>
             (if force then 1 else 0) + forced_calls g + each ws'
         end) calls
  end.

(** Sequence numbers are handed out once: whatever is queued or has fired
    carries a number below the next one. *)
Definition sequence_fresh (s : FrameScheduler) : Prop :=
  (∀ t, t ∈ queue s → sequence t < next_sequence s)
  ∧ (∀ n t, (n, t) ∈ fired s → sequence t < next_sequence s).


(** ** CONFIG AND PLUGIN LOADING *)

(** *** Plugins, as the loader sees them *)

(** A hook is the tuple [(event, handler, priority)]; handlers are known by
    name. *)
Record Hook : Type := mkHook {
  hook_event : string;
  hook_handler : string;
  hook_priority : nat
}.

Record Command : Type := mkCommand {
  cmd_name : string;
  cmd_handler : string;
  cmd_meta : string
}.

Global Instance Hook_eq_dec : EqDecision Hook.
Proof. solve_decision. Defined.
Global Instance Command_eq_dec : EqDecision Command.
Proof. solve_decision. Defined.

(** A plugin instance: its name and its records of hooks and commands. *)
Record Plugin : Type := mkPlugin {
  plugin_name : string;
  _hooks : list Hook;
  _commands : list Command
}.

(** What a plugin constructor does, step by step: it registers hooks and
    commands, and it may raise. *)
Inductive InitStep : Type :=
  | AddHook (h : Hook)
  | AddCommand (c : Command)
  | InitRaise (tag : string).

(** A module attribute: some value that is no class, or a class, which may
    or may not derive from [minqlx.Plugin]. *)
Inductive Member : Type :=
  | NotAClass
  | Class (class_name : string) (is_plugin : bool) (init : list InitStep).

Record Module : Type := mkModule {
  mod_name : string;
  mod_members : gmap string Member
}.

(** Executing the source of a module either raises or yields its
    top-level names. *)
Inductive Source : Type :=
  | SrcRaises (tag : string)
  | SrcDefines (members : gmap string Member).

(** *** The interpreter state the loader works on *)

Inductive Event : Type :=
  | EvDispatch (event plugin : string) (seen : option Plugin)
  | EvRemoveHook (obj : nat) (h : Hook)
  | EvRemoveCommand (obj : nat) (name handler : string).

Inductive LogRecord : Type :=
  | LogInfo (logger msg : string)
  | LogException (logger : string) (e : exn).

(** What the loader reads and never writes: the cvars, the file system,
    what the plugin sources on disk define, and which plugins have an
    [unload] listener that raises. *)
Record World : Type := mkWorld {
  cvars : gmap string string;
  dirs : gset string;
  files : gset string;
  sources : gmap string Source;
  vetoes : gmap string string
}.

(** Module and plugin objects live in heaps and are known by reference:
    [sys.modules] and [_modules] may hold the same module object. *)
Record Runtime : Type := mkRuntime {
  world : World;
  sys_modules : gmap string nat;
  module_heap : gmap nat Module;
  _modules : gmap string nat;
  _loaded_plugins : gmap string nat;
  plugin_heap : gmap nat Plugin;
  hook_table : list (string * Hook);
  command_table : list (string * Command);
  events : list Event;
  log : list LogRecord
}.

Definition with_sys_modules (f : gmap string nat → gmap string nat) (s : Runtime) :=
  mkRuntime (world s) (f (sys_modules s)) (module_heap s) (_modules s)
    (_loaded_plugins s) (plugin_heap s) (hook_table s) (command_table s)
    (events s) (log s).
Definition with_module_heap (f : gmap nat Module → gmap nat Module) (s : Runtime) :=
  mkRuntime (world s) (sys_modules s) (f (module_heap s)) (_modules s)
    (_loaded_plugins s) (plugin_heap s) (hook_table s) (command_table s)
    (events s) (log s).
Definition with_modules (f : gmap string nat → gmap string nat) (s : Runtime) :=
  mkRuntime (world s) (sys_modules s) (module_heap s) (f (_modules s))
    (_loaded_plugins s) (plugin_heap s) (hook_table s) (command_table s)
    (events s) (log s).
Definition with_loaded_plugins (f : gmap string nat → gmap string nat) (s : Runtime) :=
  mkRuntime (world s) (sys_modules s) (module_heap s) (_modules s)
    (f (_loaded_plugins s)) (plugin_heap s) (hook_table s) (command_table s)
    (events s) (log s).
Definition with_plugin_heap (f : gmap nat Plugin → gmap nat Plugin) (s : Runtime) :=
  mkRuntime (world s) (sys_modules s) (module_heap s) (_modules s)
    (_loaded_plugins s) (f (plugin_heap s)) (hook_table s) (command_table s)
    (events s) (log s).
Definition with_hook_table (f : list (string * Hook) → list (string * Hook)) (s : Runtime) :=
  mkRuntime (world s) (sys_modules s) (module_heap s) (_modules s)
    (_loaded_plugins s) (plugin_heap s) (f (hook_table s)) (command_table s)
    (events s) (log s).
Definition with_command_table
    (f : list (string * Command) → list (string * Command)) (s : Runtime) :=
  mkRuntime (world s) (sys_modules s) (module_heap s) (_modules s)
    (_loaded_plugins s) (plugin_heap s) (hook_table s) (f (command_table s))
    (events s) (log s).
Definition with_events (f : list Event → list Event) (s : Runtime) :=
  mkRuntime (world s) (sys_modules s) (module_heap s) (_modules s)
    (_loaded_plugins s) (plugin_heap s) (hook_table s) (command_table s)
    (f (events s)) (log s).
Definition with_log (f : list LogRecord → list LogRecord) (s : Runtime) :=
  mkRuntime (world s) (sys_modules s) (module_heap s) (_modules s)
    (_loaded_plugins s) (plugin_heap s) (hook_table s) (command_table s)
    (events s) (f (log s)).

(** *** State and exceptions *)

Definition M (A : Type) : Type := Runtime → Runtime * result A.

Definition ret {A} (a : A) : M A := λ s, (s, Ok a).
Definition raise {A} (e : exn) : M A := λ s, (s, Raise e).
Definition bind {A B} (m : M A) (k : A → M B) : M B :=
  λ s, match m s with
       | (s', Ok a) => k a s'
       | (s', Raise e) => (s', Raise e)
       end.
Definition gets {A} (proj : Runtime → A) : M A := λ s, (s, Ok (proj s)).
Definition modify (f : Runtime → Runtime) : M unit := λ s, (f s, Ok tt).

(** [try: m  except: handler] *)
Definition try_except {A} (m : M A) (handler : exn → M A) : M A :=
  λ s, match m s with
       | (s', Raise e) => handler e s'
       | r => r
       end.

Global Instance M_ret : MRet M := @ret.
Global Instance M_bind : MBind M := λ A B k m, bind m k.

(** [for x in xs: body(x)] *)
Fixpoint for_each {A} (xs : list A) (body : A → M unit) : M unit :=
  match xs with
  | [] => ret tt
  | x :: xs' => body x;; for_each xs' body
  end.

(** *** Collaborators: logging, cvars, paths, imports, the event dispatcher *)

(** [l.append(x)] *)
Definition append {A} (x : A) (l : list A) : list A := (l ++ [x])%list.

(** [get_logger(plugin)]: the logger's name. *)
Definition get_logger (plugin : option string) : string :=
  match plugin with
  | Some p => if truthy p then "minqlx." ++ p else "minqlx"
  | None => "minqlx"
  end.

Definition logger_info (logger msg : string) : M unit :=
  modify (with_log (append (LogInfo logger msg))).

(** [log_exception(plugin)] inside an [except] block that caught [e]. *)
Definition log_exception (plugin : string) (e : exn) : M unit :=
  modify (with_log (append (LogException (get_logger (Some plugin)) e))).

(** [try: m  except: log_exception(plugin); raise] *)
Definition logged (plugin : string) (m : M unit) : M unit :=
  try_except m (λ e, log_exception plugin e;; raise e).

(** [minqlx.get_cvar(name)]: [None] for a cvar that is not set. *)
Definition get_cvar (name : string) : M (option string) :=
  gets (λ s, cvars (world s) !! name).

(** The pure functions of [os.path] the loader calls. *)
Class OsPath : Type := {
  abspath : string → string;
  basename : string → string;
  join : string → string → string
}.

Definition isdir (path : string) : M bool :=
  gets (λ s, bool_decide (path ∈ dirs (world s))).
Definition isfile (path : string) : M bool :=
  gets (λ s, bool_decide (path ∈ files (world s))).

Definition deref_module (m : nat) : M Module :=
  heap ← gets module_heap;
  match heap !! m with
  | Some module => ret module
  | None => raise (HostError "ReferenceError")
  end.

Definition execute_source (name : string) : M (gmap string Member) :=
  src ← gets (λ s, sources (world s) !! name);
  match src with
  | None => raise (HostError "ModuleNotFoundError")
  | Some (SrcRaises tag) => raise (HostError tag)
  | Some (SrcDefines members) => ret members
  end.

(** [importlib.import_module(name)]: the module in [sys.modules] if there
    is one, else a new module object from the source. *)
Definition import_module (name : string) : M nat :=
  loaded ← gets sys_modules;
  match loaded !! name with
  | Some m => ret m
  | None =>
      members ← execute_source name;
      heap ← gets module_heap;
      let m := fresh (dom heap) in
      modify (with_module_heap <[m := mkModule name members]>);;
      modify (with_sys_modules <[name := m]>);;
      ret m
  end.

(** [importlib.reload(module)]: the source runs again in the same module
    object; names it no longer defines stay. *)
Definition importlib_reload (m : nat) : M unit :=
  module ← deref_module m;
  loaded ← gets sys_modules;
  if bool_decide (loaded !! mod_name module = Some m) then
    members ← execute_source (mod_name module);
    modify (with_module_heap
              <[m := mkModule (mod_name module) (members ∪ mod_members module)]>)
  else raise (HostError "ImportError").

(** [hasattr(module, name)] and [getattr(module, name)] *)
Definition hasattr (m : nat) (name : string) : M bool :=
  module ← deref_module m;
  ret (bool_decide (is_Some (mod_members module !! name))).

Definition getattr (m : nat) (name : string) : M Member :=
  module ← deref_module m;
  match mod_members module !! name with
  | Some member => ret member
  | None => raise (AttributeError name)
  end.

(** [issubclass(cls, minqlx.Plugin)] *)
Definition issubclass_Plugin (cls : Member) : M bool :=
  match cls with
  | NotAClass => raise (TypeError "issubclass() arg 1 must be a class")
  | Class _ is_plugin _ => ret is_plugin
  end.

(** [minqlx.EVENT_DISPATCHERS[event].dispatch(plugin)]: the listeners see
    the plugin as it is registered at that moment; one of them may raise. *)
Definition dispatch (event plugin : string) : M unit :=
  seen ← gets (λ s, _loaded_plugins s !! plugin ≫= (λ obj, plugin_heap s !! obj));
  modify (with_events (append (EvDispatch event plugin seen)));;
  veto ← gets (λ s, vetoes (world s) !! plugin);
  match veto with
  | Some tag => raise (HostError tag)
  | None => ret tt
  end.

(** *** The plugin capability set *)

Fixpoint remove_first {A} (p : A → bool) (l : list A) : option (list A) :=
  match l with
  | [] => None
  | x :: l' => if p x then Some l' else (x ::.) <$> remove_first p l'
  end.

Definition drop_first {A} (p : A → bool) (l : list A) : list A :=
  default l (remove_first p l).

Definition deref_plugin (obj : nat) : M Plugin :=
  heap ← gets plugin_heap;
  match heap !! obj with
  | Some self => ret self
  | None => raise (HostError "ReferenceError")
  end.

Definition same_command (name handler : string) (c : Command) : bool :=
  bool_decide (cmd_name c = name) && bool_decide (cmd_handler c = handler).

(** Modelled from the spec: the Plugin capability set (class
    [minqlx.Plugin] is outside [_core.py]).  [hooks] and [commands] give the
    plugin's records as they stand when read; registering appends to the
    plugin's record and to the host's table, and the removal operations
    undo one prior registration exactly. *)
Definition hooks (obj : nat) : M (list Hook) :=
  self ← deref_plugin obj; ret (_hooks self).

Definition commands (obj : nat) : M (list Command) :=
  self ← deref_plugin obj; ret (_commands self).

Definition add_hook (obj : nat) (h : Hook) : M unit :=
  self ← deref_plugin obj;
  modify (with_plugin_heap
            <[obj := mkPlugin (plugin_name self) (append h (_hooks self)) (_commands self)]>);;
  modify (with_hook_table (append (plugin_name self, h))).

Definition add_command (obj : nat) (c : Command) : M unit :=
  self ← deref_plugin obj;
  modify (with_plugin_heap
            <[obj := mkPlugin (plugin_name self) (_hooks self) (append c (_commands self))]>);;
  modify (with_command_table (append (plugin_name self, c))).

Definition remove_hook (obj : nat) (h : Hook) : M unit :=
  self ← deref_plugin obj;
  match remove_first (λ x, bool_decide (x = h)) (_hooks self) with
  | None => raise (ValueError "list.remove(x): x not in list")
  | Some rest =>
      modify (with_hook_table
                (drop_first (λ x, bool_decide (x = (plugin_name self, h)))));;
      modify (with_plugin_heap
                <[obj := mkPlugin (plugin_name self) rest (_commands self)]>);;
      modify (with_events (append (EvRemoveHook obj h)))
  end.

Definition remove_command (obj : nat) (name handler : string) : M unit :=
  self ← deref_plugin obj;
  match remove_first (same_command name handler) (_commands self) with
  | None => raise (ValueError "list.remove(x): x not in list")
  | Some rest =>
      modify (with_command_table
                (drop_first (λ x, bool_decide (x.1 = plugin_name self)
                                  && same_command name handler x.2)));;
      modify (with_plugin_heap
                <[obj := mkPlugin (plugin_name self) (_hooks self) rest]>);;
      modify (with_events (append (EvRemoveCommand obj name handler)))
  end.

Definition init_step (obj : nat) (step : InitStep) : M unit :=
  match step with
  | AddHook h => add_hook obj h
  | AddCommand c => add_command obj c
  | InitRaise tag => raise (HostError tag)
  end.

(** [plugin_class()]: a new object, then the constructor's steps. *)
Definition instantiate (cls : Member) : M nat :=
  match cls with
  | NotAClass => raise (TypeError "object is not callable")
  | Class name _ init =>
      heap ← gets plugin_heap;
      let obj := fresh (dom heap) in
      modify (with_plugin_heap <[obj := mkPlugin name [] []]>);;
      for_each init (init_step obj);;
      ret obj
  end.

(** [plugins[plugin]] on [minqlx.Plugin._loaded_plugins] *)
Definition loaded_plugin (plugin : string) : M nat :=
  plugins ← gets _loaded_plugins;
  match plugins !! plugin with
  | Some obj => ret obj
  | None => raise (KeyError plugin)
  end.

(** [del plugins[plugin]] *)
Definition del_loaded_plugin (plugin : string) : M unit :=
  loaded_plugin plugin;;
  modify (with_loaded_plugins (delete plugin)).

(** *** load_plugin, unload_plugin, reload_plugin, load_preset_plugins *)

Definition unload_plugin (plugin : string) : M unit :=
  logger_info (get_logger None) ("Unloading plugin '" ++ plugin ++ "'...");;
  plugins ← gets _loaded_plugins;
  if bool_decide (is_Some (plugins !! plugin)) then
    logged plugin (
      dispatch "unload" plugin;;
      (* Unhook its hooks. *)
      hs ← (obj ← loaded_plugin plugin; hooks obj);
      for_each hs (λ hook, obj ← loaded_plugin plugin; remove_hook obj hook);;
      (* Unregister commands. *)
      cs ← (obj ← loaded_plugin plugin; commands obj);
      for_each cs (λ cmd, obj ← loaded_plugin plugin;
                          remove_command obj (cmd_name cmd) (cmd_handler cmd));;
      del_loaded_plugin plugin)
  else
    raise (PluginUnloadError "Attempted to unload a plugin that is not loaded.").

Section loader.
Context `{OsPath}.

(** [os.path.abspath(minqlx.get_cvar("qlx_pluginsPath"))] *)
Definition get_plugins_path : M string :=
  cvar ← get_cvar "qlx_pluginsPath";
  match cvar with
  | Some p => ret (abspath p)
  | None => raise (TypeError "expected str, bytes or os.PathLike object, not NoneType")
  end.

(** The body of the [try] statement in [load_plugin]. *)
Definition load_plugin_try (plugins_dir plugin : string) : M unit :=
  module ← import_module (plugins_dir ++ "." ++ plugin);
  (* We add the module regardless of whether it fails or not,
     otherwise we can't reload later. *)
  modify (with_modules <[plugin := module]>);;
  has ← hasattr module plugin;
  if negb has then
    raise (PluginLoadError
      "The plugin needs to have a class with the exact name as the file, minus the .py.")
  else
    plugin_class ← getattr module plugin;
    sub ← issubclass_Plugin plugin_class;
    if (sub : bool) then
      obj ← instantiate plugin_class;
      modify (with_loaded_plugins <[plugin := obj]>)
    else
      raise (PluginLoadError
        "Attempted to load a plugin that is not a subclass of 'minqlx.Plugin'.").

(** The body of [load_plugin], with the [reload_plugin] it calls. *)
Definition load_plugin_body (reload_plugin : string → M unit) (plugin : string)
  : M unit :=
  logger_info (get_logger None) ("Loading plugin '" ++ plugin ++ "'...");;
  plugins ← gets _loaded_plugins;
  plugins_path ← get_plugins_path;
  let plugins_dir := basename plugins_path in
  is_file ← isfile (join plugins_path (plugin ++ ".py"));
  if negb is_file then
    raise (PluginLoadError "No such plugin exists.")
  else if bool_decide (is_Some (plugins !! plugin)) then
    reload_plugin plugin
  else
    logged plugin (load_plugin_try plugins_dir plugin).

(** The body of [reload_plugin], with the [load_plugin] it calls. *)
Definition reload_plugin_body (load_plugin : string → M unit) (plugin : string)
  : M unit :=
  try_except (unload_plugin plugin)
    (λ e, if is_PluginUnloadError e then ret tt else raise e);;
  logged plugin (
    modules ← gets _modules;
    match modules !! plugin with (* Unloaded previously? *)
    | Some module => importlib_reload module
    | None => ret tt
    end;;
    load_plugin plugin).

(** The two functions call each other; [depth] bounds the nesting of
    calls, as the interpreter's recursion limit does. *)
Fixpoint load_plugin_at (depth : nat) (plugin : string) : M unit :=
  match depth with
  | 0 => raise RecursionError
  | S d => load_plugin_body (reload_plugin_body (load_plugin_at d)) plugin
  end.

Definition reload_plugin_at (depth : nat) : string → M unit :=
  reload_plugin_body (load_plugin_at depth).

(** A nesting of two calls to [load_plugin] is all a call ever needs
    ([load_plugin_at_enough], [reload_plugin_at_enough]). *)
Definition load_plugin : string → M unit := load_plugin_at 2.
Definition reload_plugin : string → M unit := reload_plugin_at 1.

Definition load_preset_plugins : M unit :=
  plugins_cvar ← get_cvar "qlx_plugins";
  plugins_path ← get_plugins_path;
  let plugins_dir := basename plugins_path in
  is_dir ← isdir plugins_path;
  if (is_dir : bool) then
    (* Filter out already loaded plugins. *)
    names ← match plugins_cvar with
            | Some c => ret (split comma c)
            | None => raise (AttributeError "'NoneType' object has no attribute 'split'")
            end;
    modules ← gets sys_modules;
    let plugins :=
      strip <$> filter (λ p, (modules !! (plugins_dir ++ "." ++ p)) = None) names in
    for_each plugins (λ plugin, load_plugin (strip plugin))
  else
    raise (PluginLoadError
      ("Cannot find the plugins directory '" ++ abspath plugins_path ++ "'.")).
End loader.

(** *** States the theorems name *)

(** The host's tables once a plugin's registrations are undone. *)
Definition torn_hooks (name : string) (hs : list Hook) (table : list (string * Hook)) :=
  fold_left (λ t h, drop_first (λ x, bool_decide (x = (name, h))) t) hs table.

Definition torn_commands (name : string) (cs : list Command)
    (table : list (string * Command)) :=
  fold_left (λ t c, drop_first (λ x, bool_decide (x.1 = name)
                                    && same_command (cmd_name c) (cmd_handler c) x.2) t)
    cs table.

Definition unload_events (plugin : string) (obj : nat) (self : Plugin) : list Event :=
  (EvDispatch "unload" plugin (Some self)
   :: (EvRemoveHook obj <$> _hooks self)
   ++ ((λ c, EvRemoveCommand obj (cmd_name c) (cmd_handler c)) <$> _commands self))%list.

Definition unloading (plugin : string) : LogRecord :=
  LogInfo "minqlx" ("Unloading plugin '" ++ plugin ++ "'...").

Definition loading (plugin : string) : LogRecord :=
  LogInfo "minqlx" ("Loading plugin '" ++ plugin ++ "'...").

(** The state a successful [unload_plugin] leaves. *)
Definition unloaded (plugin : string) (obj : nat) (self : Plugin) (s : Runtime)
  : Runtime :=
  mkRuntime (world s) (sys_modules s) (module_heap s) (_modules s)
    (delete plugin (_loaded_plugins s))
    (<[obj := mkPlugin (plugin_name self) [] []]> (plugin_heap s))
    (torn_hooks (plugin_name self) (_hooks self) (hook_table s))
    (torn_commands (plugin_name self) (_commands self) (command_table s))
    (events s ++ unload_events plugin obj self)
    (append (unloading plugin) (log s)).

Definition not_loaded_error : exn :=
  PluginUnloadError "Attempted to unload a plugin that is not loaded.".

Definition no_plugin_error : exn := PluginLoadError "No such plugin exists.".

(** A state without its log: two states that agree on it differ in what
    was logged and in nothing else. *)
Definition erase_log (s : Runtime) : Runtime := with_log (λ _, []) s.

(** What a constructor's steps come to: the hooks and commands registered
    before the first step that raises, and the tag raised, if any. *)
Fixpoint init_effect (steps : list InitStep)
  : list Hook * list Command * option string :=
  match steps with
  | [] => ([], [], None)
  | AddHook h :: rest =>
      let '(hs, cs, r) := init_effect rest in (h :: hs, cs, r)
  | AddCommand c :: rest =>
      let '(hs, cs, r) := init_effect rest in (hs, c :: cs, r)
  | InitRaise tag :: _ => ([], [], Some tag)
  end.

(** Entries of a dictionary under one key. *)
Definition entries_for {V} (k : string) (d : gmap string V) : list (string * V) :=
  filter (λ kv, kv.1 = k) (map_to_list d).

(** What a call of [load_plugin] or [reload_plugin] for [plugin] can do to
    the registry: on success it holds a live object under [plugin] and is
    otherwise as before; on failure nothing was added, at most the entry
    for [plugin] is gone. *)
Definition load_outcome (plugin : string) (s s' : Runtime) (r : result unit) : Prop :=
  world s' = world s
  ∧ match r with
    | Ok _ =>
        ∃ obj, _loaded_plugins s' = <[plugin := obj]> (_loaded_plugins s)
               ∧ is_Some (plugin_heap s' !! obj)
    | Raise _ =>
        _loaded_plugins s' = _loaded_plugins s
        ∨ _loaded_plugins s' = delete plugin (_loaded_plugins s)
    end.

(** The first step of [reload_plugin]: [unload_plugin], with the "not
    loaded" error swallowed. *)
Definition unload_quietly (plugin : string) : M unit :=
  try_except (unload_plugin plugin)
    (λ e, if is_PluginUnloadError e then ret tt else raise e).

(** ** A sample host, for the examples *)

(** [os.path] on absolute, normalised POSIX paths. *)
Definition posix_paths : OsPath := {|
  abspath p := p;
  basename p := List.last (split (Ascii.ascii_of_nat 47) p) "";
  join a b := a ++ "/" ++ b
|}.

Definition sample_hook : Hook := mkHook "chat" "handle_chat" 2.
Definition sample_command : Command := mkCommand "ban" "cmd_ban" "permission=2".

(** A plugins directory with a well-formed plugin [ban], a plugin [motd]
    whose constructor raises after registering a hook, a module [clan]
    whose class has another name than the file, and a module [essentials]
    whose class does not derive from [minqlx.Plugin]. *)
Definition sample_world : World := mkWorld
  {[ "qlx_pluginsPath" := "/ql/minqlx-plugins"; "qlx_plugins" := "ban,motd" ]}
  {[ "/ql/minqlx-plugins" ]}
  {[ "/ql/minqlx-plugins/ban.py"; "/ql/minqlx-plugins/motd.py";
     "/ql/minqlx-plugins/clan.py"; "/ql/minqlx-plugins/essentials.py" ]}
  {[ "minqlx-plugins.ban" :=
       SrcDefines {[ "ban" := Class "ban" true
                                [AddHook sample_hook; AddCommand sample_command] ]};
     "minqlx-plugins.motd" :=
       SrcDefines {[ "motd" := Class "motd" true
                                 [AddHook sample_hook; InitRaise "RuntimeError"] ]};
     "minqlx-plugins.clan" :=
       SrcDefines {[ "Clan" := Class "Clan" true [] ]};
     "minqlx-plugins.essentials" :=
       SrcDefines {[ "essentials" := Class "essentials" false [] ]} ]}
  ∅.

Definition sample_start : Runtime :=
  mkRuntime sample_world ∅ ∅ ∅ ∅ ∅ [] [] [] [].

(** The same host with the plugins directory gone. *)
Definition sample_no_directory : Runtime :=
  mkRuntime (mkWorld (cvars sample_world) ∅ ∅ ∅ ∅) ∅ ∅ ∅ ∅ ∅ [] [] [] [].

(** A computation is blind to the log when what it returns, and what it
    does to everything but the log, does not depend on what was logged
    before. *)
Definition blind {A} (m : M A) : Prop :=
  ∀ s t, erase_log s = erase_log t →
    erase_log (m s).1 = erase_log (m t).1 ∧ (m s).2 = (m t).2.

Section reload_steps.
Context `{OsPath}.

(** The second [try] statement of [reload_plugin]. *)
Definition reload_then_load (plugin : string) : M unit :=
  logged plugin (
    modules ← gets _modules;
    match modules !! plugin with
    | Some module => importlib_reload module
    | None => ret tt
    end;;
    load_plugin_at 1 plugin).
End reload_steps.

Section preset.
Context `{OsPath}.

(** The claim about a missing plugins directory as the specification
    words it: the failure is not a load error. *)
Definition missing_directory_is_no_load_error (s : Runtime) : Prop :=
  ∀ path,
    cvars (world s) !! "qlx_pluginsPath" = Some path →
    abspath path ∉ dirs (world s) →
    ∃ e, (load_preset_plugins s).2 = Raise e ∧ is_PluginLoadError e = false.
End preset.

(** The sample host after [load_plugin("ban")], and the same state with
    the plugin's source file deleted. *)
Definition sample_loaded : Runtime := (@load_plugin posix_paths "ban" sample_start).1.

Definition sample_source_gone : Runtime :=
  mkRuntime
    (mkWorld (cvars sample_world) (dirs sample_world) ∅ (sources sample_world) ∅)
    (sys_modules sample_loaded) (module_heap sample_loaded) (_modules sample_loaded)
    (_loaded_plugins sample_loaded) (plugin_heap sample_loaded)
    (hook_table sample_loaded) (command_table sample_loaded)
    (events sample_loaded) (log sample_loaded).

(** ** Notions the proofs are stated with *)

(** [parse_variables]: storing pairs one after the other. *)
Definition store_all (kvs : list (string * string)) (res : PyDict) : PyDict :=
  fold_left (λ r kv, setitem kv.1 kv.2 r) kvs res.

Definition od_store_all (kvs items : list (string * string)) :=
  fold_left (λ it kv, od_setitem kv.1 kv.2 it) kvs items.

(** [thread]: the calls of a body, one after the other, and the forced
    calls among them. *)
Definition run_calls (cur : string) (ws : list (Wrapped Callable)) (st : Threads)
  : Threads :=
  fold_left (λ st w, (call cur w st).1) ws st.

Definition forced_in (ws : list (Wrapped Callable)) : nat :=
  foldr (λ w n, match w with
                | Thread g force => (if force then 1 else 0) + forced_calls g + n
                end) 0 ws.

(** What a body adds when it runs inside a unit of the decorator: one unit
    per forced call, and the callable is noted as having run there. *)
Definition adds_in_unit (func : Callable) : Prop :=
  ∀ cur st, endswith cur _thread_name = true →
    ∃ more others,
      started (run cur func st) = (started st ++ more)%list
      ∧ length more = forced_calls func
      ∧ ran (run cur func st) = (ran st ++ (cur, func_name func) :: others)%list.

(** What does not change while callbacks run, and what can only grow. *)
Record extends (s s' : FrameScheduler) : Prop := {
  ext_now : now s' = now s;
  ext_pumps : pumps s' = pumps s;
  ext_seq : next_sequence s ≤ next_sequence s';
  ext_queue : ∀ t, t ∈ queue s → t ∈ queue s'
}.

(** ** More about the helpers *)

(** [s.count(c)] for one character. *)
Fixpoint count_char (c : ascii) (s : string) : nat :=
  match s with
  | EmptyString => 0
  | String c' s' => (if Ascii.eqb c' c then 1 else 0) + count_char c s'
  end.

(** The string the docstring of [parse_variables] describes: each key and
    each value behind a backslash. *)
Fixpoint info_string (kvs : list (string * string)) : string :=
  match kvs with
  | [] => EmptyString
  | (k, v) :: rest => String backslash (k ++ String backslash (v ++ info_string rest))
  end.

(** The dictionary a call returned, if it returned. *)
Definition returned {A} (r : result A) : option A :=
  match r with Ok a => Some a | Raise _ => None end.

Definition backslash_free (s : string) : Prop := count_char backslash s = 0.

(** The tokens of a list of pairs: key, value, key, value. *)
Fixpoint flatten_pairs (kvs : list (string * string)) : list string :=
  match kvs with
  | [] => []
  | (k, v) :: rest => k :: v :: flatten_pairs rest
  end.

(** *** log_exception and handle_exception *)

Definition newline : ascii := Ascii.ascii_of_nat 10.

(** [s.rstrip(c)] for a one-character argument. *)
Definition rstrip (c : ascii) (s : string) : string := rstrip_by (Ascii.eqb c) s.

(** [sep.join(parts)] *)
Fixpoint str_join (sep : string) (parts : list string) : string :=
  match parts with
  | [] => EmptyString
  | p :: rest =>
      match rest with
      | [] => p
      | _ => p ++ sep ++ str_join sep rest
      end
  end.

Fixpoint last_char (s : string) : option ascii :=
  match s with
  | EmptyString => None
  | String c s' => match s' with EmptyString => Some c | _ => last_char s' end
  end.

(** The lines both functions hand to [logger.error], one call each, for
    the text the [traceback] module formatted:
    [for line in e.rstrip("\n").split("\n")]. *)
Definition error_lines (formatted : string) : list string :=
  split newline (rstrip newline formatted).

(** [log_exception(plugin)], given [traceback.format_exc()]: the calls of
    [logger.error], as (logger, line). *)
Definition log_exception_calls (plugin : option string) (format_exc : string)
  : list (string * string) :=
  (λ line, (get_logger plugin, line)) <$> error_lines format_exc.

(** [handle_exception(exc_type, exc_value, exc_traceback)], given the list
    [traceback.format_exception(...)] returns. *)
Definition handle_exception_calls (format_exception : list string)
  : list (string * string) :=
  (λ line, (get_logger None, line)) <$> error_lines (str_join "" format_exception).

(** *** Cvars: set_cvar_once, set_cvar_limit_once, initialize_cvars, owner *)

Definition with_cvars (f : gmap string string → gmap string string) (s : Runtime)
  : Runtime :=
  mkRuntime
    (mkWorld (f (cvars (world s))) (dirs (world s)) (files (world s))
       (sources (world s)) (vetoes (world s)))
    (sys_modules s) (module_heap s) (_modules s) (_loaded_plugins s)
    (plugin_heap s) (hook_table s) (command_table s) (events s) (log s).

(** Modelled from the spec: [minqlx.set_cvar] of the host's configuration
    store stores the value under the name; what the engine does with the
    flags is not recorded. *)
Definition set_cvar (name value : string) (flags : nat) : M unit :=
  modify (with_cvars <[name := value]>).

Definition set_cvar_once (name value : string) (flags : nat) : M bool :=
  current ← get_cvar name;
  match current with
  | None => set_cvar name value flags;; mret true
  | Some _ => mret false
  end.

Section cvar_limit.
(** [minqlx.set_cvar_limit], whatever the engine makes of the limits. *)
Variable set_cvar_limit : string → string → string → string → nat → M unit.

Definition set_cvar_limit_once (name value minimum maximum : string) (flags : nat)
  : M bool :=
  current ← get_cvar name;
  match current with
  | None => set_cvar_limit name value minimum maximum flags;; mret true
  | Some _ => mret false
  end.
End cvar_limit.

Definition initialize_cvars : M unit :=
  (* Core *)
  set_cvar_once "qlx_owner" "-1" 0;;
  set_cvar_once "qlx_plugins" "plugin_manager, essentials, motd, permission, ban, clan" 0;;
  set_cvar_once "qlx_pluginsPath" "minqlx-plugins" 0;;
  set_cvar_once "qlx_database" "Redis" 0;;
  set_cvar_once "qlx_commandPrefix" "!" 0;;
  (* Redis *)
  set_cvar_once "qlx_redisAddress" "127.0.0.1" 0;;
  set_cvar_once "qlx_redisDatabase" "0" 0;;
  set_cvar_once "qlx_redisUnixSocket" "0" 0;;
  set_cvar_once "qlx_redisPassword" "" 0;;
  mret tt.

(** The defaults [initialize_cvars] writes. *)
Definition default_cvars : gmap string string :=
  {[ "qlx_owner" := "-1";
     "qlx_plugins" := "plugin_manager, essentials, motd, permission, ban, clan";
     "qlx_pluginsPath" := "minqlx-plugins";
     "qlx_database" := "Redis";
     "qlx_commandPrefix" := "!";
     "qlx_redisAddress" := "127.0.0.1";
     "qlx_redisDatabase" := "0";
     "qlx_redisUnixSocket" := "0";
     "qlx_redisPassword" := "" ]}.

(** [int(s)] of a string, base 10: blanks around the number are skipped
    (for [int] the characters 28 to 31 are no blanks), a sign may lead,
    and single underscores may stand between digits.  [max_str_digits] is
    the interpreter's limit on the number of digits, 0 for none. *)
Definition int_space (c : ascii) : bool :=
  let n := Ascii.nat_of_ascii c in
  ((9 <=? n) && (n <=? 13)) || (n =? 32) || (n =? 133) || (n =? 160).

Definition digit_of (c : ascii) : option N :=
  let n := Ascii.nat_of_ascii c in
  if (48 <=? n) && (n <=? 57) then Some (N.of_nat (n - 48)) else None.

Definition underscore : ascii := Ascii.ascii_of_nat 95.

(** The digits left to right: the value so far, the digits counted, and
    whether the last character was a digit. *)
Fixpoint int_digits (acc : N) (digits : nat) (after_digit : bool) (s : string)
  : option (N * nat) :=
  match s with
  | EmptyString => if after_digit then Some (acc, digits) else None
  | String c s' =>
      match digit_of c with
      | Some d => int_digits (acc * 10 + d) (S digits) true s'
      | None =>
          if Ascii.eqb c underscore && after_digit
          then int_digits acc digits false s'
          else None
      end
  end.

Definition int_unsigned (max_str_digits : nat) (s : string) : option N :=
  match int_digits 0 0 false s with
  | Some (n, digits) =>
      if (0 <? max_str_digits) && (max_str_digits <? digits) then None else Some n
  | None => None
  end.

Definition py_int (max_str_digits : nat) (s : string) : option Z :=
  match lstrip_by int_space (rstrip_by int_space s) with
  | String c rest =>
      if Ascii.eqb c (Ascii.ascii_of_nat 45) then
        (λ n, - Z.of_N n)%Z <$> int_unsigned max_str_digits rest
      else if Ascii.eqb c (Ascii.ascii_of_nat 43) then
        Z.of_N <$> int_unsigned max_str_digits rest
      else Z.of_N <$> int_unsigned max_str_digits (String c rest)
  | EmptyString => None
  end.

Definition owner_error : string * string :=
  ("minqlx", "Failed to parse the Owner Steam ID. Make sure it's in SteamID64 format.").

Section owner.
Variable max_str_digits : nat.

(** The [try] body of [owner]. *)
Definition owner_try (s : Runtime) : result Z :=
  match cvars (world s) !! "qlx_owner" with
  | None => Raise (TypeError "int() argument must be a string, not 'NoneType'")
  | Some value =>
      match py_int max_str_digits value with
      | None => Raise (ValueError "invalid literal for int() with base 10")
      | Some sid =>
          if (sid =? -1)%Z then Raise (HostError "RuntimeError") else Ok sid
      end
  end.

(** [owner()]: what it returns ([None] after the [except] clause) and
    the calls of [logger.error] it makes. *)
Definition owner (s : Runtime) : option Z * list (string * string) :=
  match owner_try s with
  | Ok sid => (Some sid, [])
  | Raise _ => (None, [owner_error])
  end.
End owner.

Definition digits_only (s : string) : Prop :=
  Forall (λ c, is_Some (digit_of c)) (String.list_ascii_of_string s).

(** *** What the loader leaves alone *)

(** A computation keeps a relation when every run relates the state it
    starts in to the state it leaves, whether it returns or raises. *)
Definition keeps (R : Runtime → Runtime → Prop) {A} (m : M A) : Prop :=
  ∀ s, R s (m s).1.

(** What is only ever added to: the modules imported, the modules kept for
    reloading, the objects made, the events and the log.  The host's world
    is read and not written. *)
Record grows (s s' : Runtime) : Prop := {
  grows_world : world s' = world s;
  grows_sys_modules : sys_modules s ⊆ sys_modules s';
  grows_module_heap : dom (module_heap s) ⊆ dom (module_heap s');
  grows_modules : dom (_modules s) ⊆ dom (_modules s');
  grows_plugin_heap : dom (plugin_heap s) ⊆ dom (plugin_heap s');
  grows_events : events s `prefix_of` events s';
  grows_log : log s `prefix_of` log s'
}.

(** The registry entries of the plugins other than [plugin] are the same. *)
Definition others_kept (plugin : string) (s s' : Runtime) : Prop :=
  ∀ other, other ≠ plugin →
    _loaded_plugins s' !! other = _loaded_plugins s !! other.

(** The top-level names of the module [import_module(name)] gives: those of
    the module [sys.modules] holds under the name, else those the source
    defines when it is run. *)
Definition importable (name : string) (s : Runtime) : option (gmap string Member) :=
  match sys_modules s !! name with
  | Some m => mod_members <$> module_heap s !! m
  | None =>
      match sources (world s) !! name with
      | Some (SrcDefines members) => Some members
      | _ => None
      end
  end.

(** The same state over other module sources: the files of the plugins
    edited, say. *)
Definition with_sources (f : gmap string Source → gmap string Source) (s : Runtime)
  : Runtime :=
  mkRuntime
    (mkWorld (cvars (world s)) (dirs (world s)) (files (world s))
       (f (sources (world s))) (vetoes (world s)))
    (sys_modules s) (module_heap s) (_modules s) (_loaded_plugins s)
    (plugin_heap s) (hook_table s) (command_table s) (events s) (log s).

(** The sample host with [ban] loaded and its source broken since. *)
Definition sample_broken : Runtime :=
  with_sources <["minqlx-plugins.ban" := SrcRaises "SyntaxError"]> sample_loaded.

(** [thread]: between two states every unit started is a daemon named
    with the decorator's marker, and every callable that ran did so on a
    unit named with it. *)
Definition on_units (st st' : Threads) : Prop :=
  ∃ more others,
    started st' = (started st ++ more)%list
    ∧ ran st' = (ran st ++ others)%list
    ∧ Forall (λ t, daemon t = true ∧ endswith (thread_name t) _thread_name = true) more
    ∧ Forall (λ e, endswith e.1 _thread_name = true) others.

(** *** set_plugins_version *)

(** What [set_plugins_version] reads and writes: the environment of the
    process and the attribute [minqlx.__plugins_version__]. *)
Record Host : Type := mkHost {
  environ : gmap string string;
  __plugins_version__ : option string
}.

(** How the child process goes, as far as the function can tell: it exits
    with a return code and an output (no text if the bytes do not decode),
    [Popen] raises [FileNotFoundError], [wait] raises [TimeoutExpired], or
    something else is raised. *)
Inductive GitRun : Type :=
  | Exited (returncode : Z) (stdout : option string)
  | NotFound
  | TimedOut
  | Failed (tag : string).

(** [shlex.split(s)] of a command line without quotes, escapes or
    repeated blanks. *)
Definition shlex_split (s : string) : list string := split (Ascii.ascii_of_nat 32) s.

(** [setattr(minqlx, "__plugins_version__", v)] *)
Definition set_version (v : string) (h : Host) : Host := mkHost (environ h) (Some v).

Section plugins_version.
(** [subprocess.Popen(args, cwd=path, env=env)] and what follows from it. *)
Variable popen : list string → string → gmap string string → GitRun.

Definition set_plugins_version (path : string) (h : Host) : Host * result unit :=
  let args := shlex_split "git describe --long --tags --dirty --always" in
  (* We keep environment variables, but remove LD_PRELOAD to avoid a
     warning the OS might throw. *)
  let env := environ h in
  match env !! "LD_PRELOAD" with
  | None => (h, Raise (KeyError "LD_PRELOAD"))
  | Some _ =>
      let env := delete "LD_PRELOAD" env in
      match popen args path env with
      | Exited returncode stdout =>
          if negb (returncode =? 0)%Z then (set_version "NOT_SET" h, Ok tt)
          else match stdout with
               | Some text => (set_version (strip text) h, Ok tt)
               | None => (h, Raise (HostError "UnicodeDecodeError"))
               end
      | NotFound | TimedOut => (set_version "NOT_SET" h, Ok tt)
      | Failed tag => (h, Raise (HostError tag))
      end
  end.
End plugins_version.

(** [os.path] on POSIX paths for a process whose working directory is
    [cwd]: a relative path is taken from there. *)
Definition posix_paths_in (cwd : string) : OsPath := {|
  abspath p :=
    match p with
    | String c _ => if Ascii.eqb c (Ascii.ascii_of_nat 47) then p else cwd ++ "/" ++ p
    | EmptyString => cwd
    end;
  basename p := List.last (split (Ascii.ascii_of_nat 47) p) "";
  join a b := a ++ "/" ++ b
|}.

(** A host nothing is configured on: no cvar is set, nothing is imported,
    and the plugins directory is in the working directory [/ql]. *)
Definition sample_unconfigured : Runtime :=
  mkRuntime (mkWorld ∅ {[ "/ql/minqlx-plugins" ]} ∅ ∅ ∅) ∅ ∅ ∅ ∅ ∅ [] [] [] [].

(** The sample host with [ban] loaded and its source edited since: the
    class no longer registers the hook. *)
Definition sample_edited : Runtime :=
  with_sources
    <["minqlx-plugins.ban" :=
        SrcDefines {[ "ban" := Class "ban" true [AddCommand sample_command] ]}]>
    sample_loaded.

(** ** The claims about repeated loads and reloads, as the specification words them *)

Section worded.
Context `{OsPath}.

(** Two calls of [load_plugin] in a row, the source file in place and the
    first call returning, leave exactly one registry entry for the
    plugin. *)
Definition load_twice_leaves_one_entry (plugin : string) (s : Runtime) : Prop :=
  ∀ path s1,
    cvars (world s) !! "qlx_pluginsPath" = Some path →
    join (abspath path) (plugin ++ ".py") ∈ files (world s) →
    load_plugin plugin s = (s1, Ok tt) →
    ∃ obj, entries_for plugin (_loaded_plugins (load_plugin plugin s1).1)
           = [(plugin, obj)].

(** [reload_plugin] of a plugin that is not loaded returns or raises what
    [load_plugin] does. *)
Definition reload_of_unloaded_returns_as_load (plugin : string) (s : Runtime)
  : Prop :=
  _loaded_plugins s !! plugin = None →
  (reload_plugin plugin s).2 = (load_plugin plugin s).2.

(** [reload_plugin] of a plugin no load was ever tried for behaves
    identically to [load_plugin]: same outcome, same state. *)
Definition reload_of_never_loaded_is_load (plugin : string) (s : Runtime) : Prop :=
  _loaded_plugins s !! plugin = None →
  _modules s !! plugin = None →
  reload_plugin plugin s = load_plugin plugin s.
End worded.

(** The sample host after [ban] was loaded and unloaded and its source
    broken: the module is still in [sys.modules]. *)
Definition sample_reimport_broken : Runtime :=
  with_sources <["minqlx-plugins.ban" := SrcRaises "SyntaxError"]>
    (unload_plugin "ban" sample_loaded).1.

(** The sample host after a load of [motd] failed in the constructor and
    the source was corrected: the plugin is not registered, its module is
    kept. *)
Definition sample_motd_fixed : Runtime :=
  with_sources
    <["minqlx-plugins.motd" :=
        SrcDefines {[ "motd" := Class "motd" true [AddHook sample_hook] ]}]>
    (@load_plugin posix_paths "motd" sample_start).1.

(** *** unload_plugin over any plugin class *)

(** What [unload_plugin] calls outside [_core.py]: the dispatcher of the
    [unload] event, and [hooks], [remove_hook], [commands] and
    [remove_command] of the plugin object. *)
Class PluginHost : Type := {
  host_dispatch : string → string → M unit;
  host_hooks : nat → M (list Hook);
  host_remove_hook : nat → Hook → M unit;
  host_commands : nat → M (list Command);
  host_remove_command : nat → string → string → M unit
}.

Definition unload_plugin_with `{PluginHost} (plugin : string) : M unit :=
  logger_info (get_logger None) ("Unloading plugin '" ++ plugin ++ "'...");;
  plugins ← gets _loaded_plugins;
  if bool_decide (is_Some (plugins !! plugin)) then
    logged plugin (
      host_dispatch "unload" plugin;;
      (* Unhook its hooks. *)
      hs ← (obj ← loaded_plugin plugin; host_hooks obj);
      for_each hs (λ hook, obj ← loaded_plugin plugin; host_remove_hook obj hook);;
      (* Unregister commands. *)
      cs ← (obj ← loaded_plugin plugin; host_commands obj);
      for_each cs (λ cmd, obj ← loaded_plugin plugin;
                          host_remove_command obj (cmd_name cmd) (cmd_handler cmd));;
      del_loaded_plugin plugin)
  else
    raise (PluginUnloadError "Attempted to unload a plugin that is not loaded.").

(** The collaborators as modelled for [unload_plugin]. *)
Definition modelled_host : PluginHost := {|
  host_dispatch := dispatch;
  host_hooks := hooks;
  host_remove_hook := remove_hook;
  host_commands := commands;
  host_remove_command := remove_command
|}.

(** The same with a [remove_command] that raises. *)
Definition failing_host : PluginHost := {|
  host_dispatch := dispatch;
  host_hooks := hooks;
  host_remove_hook := remove_hook;
  host_commands := commands;
  host_remove_command := λ _ _ _, raise (HostError "KeyError")
|}.

Definition same_registry (s s' : Runtime) : Prop :=
  _loaded_plugins s' = _loaded_plugins s.

(** Collaborators that leave the registry alone. *)
Definition registry_kept (h : PluginHost) : Prop :=
  (∀ event plugin, keeps same_registry (host_dispatch event plugin))
  ∧ (∀ obj, keeps same_registry (host_hooks obj))
  ∧ (∀ obj hook, keeps same_registry (host_remove_hook obj hook))
  ∧ (∀ obj, keeps same_registry (host_commands obj))
  ∧ (∀ obj name handler, keeps same_registry (host_remove_command obj name handler)).

(** A computation that ends by deleting the plugin's registry entry, or
    fails with the registry as it was. *)
Definition deletes_or_keeps (plugin : string) (m : M unit) : Prop :=
  ∀ s, match m s with
       | (s', Ok _) =>
           is_Some (_loaded_plugins s !! plugin)
           ∧ _loaded_plugins s' = delete plugin (_loaded_plugins s)
       | (s', Raise _) => _loaded_plugins s' = _loaded_plugins s
       end.

(** * Theorems *)

(** ** Strings *)

Lemma rstrip_by_empty p s :
  rstrip_by p s = EmptyString → forallb p (String.list_ascii_of_string s) = true.
Proof.
  induction s as [|c s IH]; simpl; [done|].
  destruct (rstrip_by p s) eqn:E.
  - destruct (p c) eqn:Hc; [|done]. intros _. by rewrite IH.
  - done.
Qed.

Lemma forallb_rstrip_by p s :
  forallb p (String.list_ascii_of_string s) = true → rstrip_by p s = EmptyString.
Proof.
  induction s as [|c s IH]; simpl; [done|].
  intros [Hc Hs]%andb_prop. by rewrite IH, Hc.
Qed.

Lemma lstrip_rstrip_empty p s :
  lstrip_by p (rstrip_by p s) = EmptyString →
  forallb p (String.list_ascii_of_string s) = true.
Proof.
  induction s as [|c s IH]; simpl; [done|].
  destruct (rstrip_by p s) eqn:E.
  - destruct (p c) eqn:Hc; simpl.
    + intros _. by rewrite (rstrip_by_empty _ _ E).
    + by rewrite Hc.
  - simpl. destruct (p c) eqn:Hc; [|done].
    intros H. by rewrite (IH H).
Qed.

Lemma strip_blank s : negb (truthy (strip s)) = all_space s.
Proof.
  unfold strip, all_space.
  destruct (forallb isspace (String.list_ascii_of_string s)) eqn:E.
  - by rewrite (forallb_rstrip_by _ _ E).
  - destruct (lstrip_by isspace (rstrip_by isspace s)) eqn:E'; [|done].
    apply lstrip_rstrip_empty in E'. congruence.
Qed.

Lemma split_nonempty sep s : split sep s ≠ [].
Proof. induction s as [|c s IH]; simpl; [done|]. destruct (Ascii.eqb c sep); [done|]. by destruct (split sep s). Qed.

(** ** parse_variables *)

Lemma list_pair_ind {A} (P : list A → Prop) :
  P [] → (∀ x, P [x]) → (∀ x y l, P l → P (x :: y :: l)) → ∀ l, P l.
Proof.
  intros H0 H1 H2.
  assert (∀ l, P l ∧ ∀ x, P (x :: l)) as H; [|intros l; apply H].
  induction l as [|a l [IH1 IH2]]; split; auto.
Qed.

Lemma range_step2 n : range 0 (S (S n)) 2 = 0 :: ((λ i, 2 + i) <$> range 0 n 2).
Proof.
  unfold range.
  assert ((S (S n) - 0 + (2 - 1)) / 2 = S ((n - 0 + (2 - 1)) / 2)) as ->.
  { replace (S (S n) - 0 + (2 - 1)) with (1 * 2 + (n - 0 + (2 - 1))) by lia.
    by rewrite Nat.div_add_l by lia. }
  cbn [seq fmap list_fmap]. f_equal.
  rewrite <- fmap_S_seq, <- !list_fmap_compose.
  apply list_fmap_ext. intros _ k _. simpl. lia.
Qed.

Lemma fill_pairs_shift pre rest idx res :
  fill_pairs (pre ++ rest) ((λ i, length pre + i) <$> idx) res
  = fill_pairs rest idx res.
Proof.
  revert res. induction idx as [|i idx IH]; intros res; simpl; [done|].
  rewrite !lookup_app_r by lia.
  replace (length pre + i - length pre) with i by lia.
  replace (length pre + i + 1 - length pre) with (i + 1) by lia.
  destruct (rest !! i), (rest !! (i + 1)); auto.
Qed.

Lemma fill_pairs_range vars res :
  fill_pairs vars (range 0 (length vars) 2) res
  = if Nat.even (length vars) then Some (store_all (pairs vars) res) else None.
Proof.
  revert res. induction vars as [| x | x y l IH] using list_pair_ind; intros res.
  - done.
  - done.
  - cbn [length]. rewrite range_step2.
    cbn [fill_pairs lookup list_lookup Nat.add].
    change (x :: y :: l) with ([x; y] ++ l)%list.
    change (λ i, 2 + i) with (λ i, length [x; y] + i).
    rewrite fill_pairs_shift, IH. done.
Qed.

Lemma store_all_Dict kvs d :
  store_all kvs (Dict d) = Dict (fold_left (λ m kv, <[kv.1 := kv.2]> m) kvs d).
Proof. revert d. induction kvs as [|kv kvs IH]; intros d; simpl; [done|]. apply IH. Qed.

Lemma store_all_OrderedDict kvs items :
  store_all kvs (OrderedDict items) = OrderedDict (od_store_all kvs items).
Proof. revert items. induction kvs as [|kv kvs IH]; intros items; simpl; [done|]. apply IH. Qed.

Lemma od_setitem_keys k v items :
  (od_setitem k v items).*1
  = if bool_decide (k ∈ items.*1) then items.*1 else (items.*1 ++ [k])%list.
Proof.
  induction items as [|[k' v'] items IH]; [done|].
  cbn [od_setitem]. destruct (String.eqb_spec k' k) as [->|Hne];
    rewrite !fmap_cons; cbn [fst].
  - rewrite bool_decide_eq_true_2 by set_solver. done.
  - rewrite IH. destruct (bool_decide (k ∈ items.*1)) eqn:E.
    + apply bool_decide_eq_true_1 in E. rewrite bool_decide_eq_true_2 by set_solver. done.
    + apply bool_decide_eq_false_1 in E. rewrite bool_decide_eq_false_2 by set_solver. done.
Qed.

Lemma od_setitem_map k v items :
  (list_to_map (od_setitem k v items) : gmap string string)
  = <[k := v]> (list_to_map items).
Proof.
  induction items as [|[k' v'] items IH]; simpl; [done|].
  destruct (String.eqb_spec k' k) as [->|Hne]; simpl.
  - by rewrite insert_insert_eq.
  - rewrite IH. by apply insert_insert_ne.
Qed.

Lemma od_setitem_NoDup k v items :
  NoDup items.*1 → NoDup (od_setitem k v items).*1.
Proof.
  intros Hnd. rewrite od_setitem_keys. case_bool_decide; [done|].
  apply NoDup_app. split_and!; [done| |apply NoDup_singleton].
  intros x Hx ->%list_elem_of_singleton. done.
Qed.

Lemma od_store_all_spec kvs items :
  (od_store_all kvs items).*1
    = (items.*1 ++ encounter_order (list_to_set items.*1) kvs.*1)%list
  ∧ (list_to_map (od_store_all kvs items) : gmap string string)
    = fold_left (λ m kv, <[kv.1 := kv.2]> m) kvs (list_to_map items)
  ∧ (NoDup items.*1 → NoDup (od_store_all kvs items).*1).
Proof.
  revert items. induction kvs as [|[k v] kvs IH]; intros items; simpl.
  - by rewrite app_nil_r.
  - destruct (IH (od_setitem k v items)) as (Hk & Hm & Hn).
    unfold od_store_all in *. split_and!.
    + rewrite Hk, od_setitem_keys.
      destruct (decide (k ∈ items.*1)) as [Hin|Hnin].
      * rewrite bool_decide_eq_true_2 by done.
        rewrite (bool_decide_eq_true_2 (k ∈ _)) by set_solver. done.
      * rewrite bool_decide_eq_false_2 by done.
        rewrite (bool_decide_eq_false_2 (k ∈ _)) by set_solver.
        rewrite <- app_assoc. simpl. do 3 f_equal.
        rewrite list_to_set_app_L. simpl. set_solver.
    + by rewrite Hm, od_setitem_map.
    + intros Hnd. by apply Hn, od_setitem_NoDup.
Qed.

Lemma bind_keys_own items :
  NoDup items.*1 → bind_keys (list_to_map items) items.*1 = items.
Proof.
  induction items as [|[k v] items IH]; simpl; [done|].
  intros [Hk Hnd]%NoDup_cons. unfold bind_keys in *. simpl.
  rewrite lookup_insert_eq. simpl. f_equal.
  rewrite <- (IH Hnd) at 2. apply list_fmap_ext.
  intros _ k' Hk'%list_elem_of_lookup_2. simpl.
  rewrite lookup_insert_ne; [done|]. intros ->. done.
Qed.

Lemma store_all_decoded ordered kvs :
  store_all kvs (empty_dict ordered) = decoded ordered kvs.
Proof.
  destruct ordered; simpl.
  - rewrite store_all_OrderedDict. f_equal.
    destruct (od_store_all_spec kvs []) as (Hk & Hm & Hn).
    rewrite <- (bind_keys_own (od_store_all kvs [])) by (apply Hn; constructor).
    rewrite Hk, Hm. done.
  - by rewrite store_all_Dict.
Qed.

Lemma encounter_order_fresh seen ks :
  NoDup (encounter_order seen ks) ∧
  ∀ k, k ∈ encounter_order seen ks ↔ k ∈ ks ∧ k ∉ seen.
Proof.
  revert seen. induction ks as [|k ks IH]; intros seen; simpl.
  - split; [constructor|]. set_solver.
  - case_bool_decide as Hk.
    + destruct (IH seen) as [Hn Hm]. split; [done|]. intros k'. rewrite Hm. set_solver.
    + destruct (IH ({[k]} ∪ seen)) as [Hn Hm]. split.
      * apply NoDup_cons. split; [|done]. rewrite Hm. set_solver.
      * intros k'. rewrite elem_of_cons, Hm.
        destruct (decide (k' = k)) as [->|]; set_solver.
Qed.

Lemma decoded_getitem ordered kvs k :
  getitem (decoded ordered kvs) k = mapping_of kvs !! k.
Proof.
  rewrite <- store_all_decoded. destruct ordered; simpl.
  - rewrite store_all_OrderedDict. simpl.
    destruct (od_store_all_spec kvs []) as (_ & -> & _). done.
  - by rewrite store_all_Dict.
Qed.



Example parse_variables_sample :
  parse_variables "\a\1\b\2" true = Ok (OrderedDict [("a", "1"); ("b", "2")])
  ∧ parse_variables "\a\1\b\2" false = Ok (Dict {[ "a" := "1"; "b" := "2" ]})
  ∧ parse_variables "\a\1\b" false
    = Raise (ValueError "Uneven number of keys and values: \a\1\b")
  ∧ parse_variables "   " true = Ok (OrderedDict []).
Proof. split_and!; vm_compute; reflexivity. Qed.

(** ** thread *)

Lemma endswith_refl s : endswith s s = true.
Proof. destruct s; simpl; [done|]. by rewrite Ascii.eqb_refl, String.eqb_refl. Qed.

Lemma append_cons c a b : String c a ++ b = String c (a ++ b).
Proof. reflexivity. Qed.

Lemma append_assoc (a b c : string) : (a ++ b) ++ c = a ++ (b ++ c).
Proof.
  induction a as [|x a IH]; [done|]. by rewrite !append_cons, IH.
Qed.

Lemma endswith_app a b : endswith (a ++ b) b = true.
Proof.
  induction a as [|c a IH].
  - apply endswith_refl.
  - rewrite append_cons. cbn [endswith]. rewrite IH. by case_match.
Qed.

Lemma minqlxthread_name name (n : nat) :
  endswith (name ++ "-" ++ pretty n ++ "-" ++ _thread_name) _thread_name = true.
Proof.
  rewrite <- !append_assoc. apply endswith_app.
Qed.

Lemma run_unfold cur name calls st :
  run cur (Func name calls) st
  = run_calls cur calls
      (mkThreads (_thread_count st) (started st) (ran st ++ [(cur, name)])).
Proof.
  simpl. generalize (mkThreads (_thread_count st) (started st) (ran st ++ [(cur, name)])).
  induction calls as [|w ws IH]; intros st'; [done|]. simpl. apply IH.
Qed.

Lemma forced_calls_unfold name calls :
  forced_calls (Func name calls) = forced_in calls.
Proof.
  simpl. induction calls as [|[g force] ws IH]; [done|]. simpl. by rewrite IH.
Qed.

Lemma Callable_nested_ind (P : Callable → Prop) :
  (∀ name calls,
     Forall (λ w, match w with Thread g _ => P g end) calls → P (Func name calls)) →
  ∀ c, P c.
Proof.
  intros step. fix rec 1. intros [name calls]. apply step.
  induction calls as [|[g force] ws IH]; constructor; [apply rec|apply IH].
Qed.

Lemma call_spawn cur func force st :
  negb force && endswith cur _thread_name = false →
  let name := func_name func ++ "-" ++ pretty (_thread_count st) ++ "-" ++ _thread_name in
  let t := mkThread name func true in
  let st1 := run name func (mkThreads (_thread_count st) (started st ++ [t]) (ran st)) in
  call cur (Thread func force) st
  = (mkThreads (_thread_count st1 + 1) (started st1) (ran st1), Some t).
Proof. intros H. unfold call. cbn [f]. by rewrite H. Qed.

Lemma call_inline cur func st :
  endswith cur _thread_name = true →
  call cur (Thread func false) st = (run cur func st, None).
Proof. intros H. unfold call. cbn [f negb andb]. by rewrite H. Qed.

Lemma call_in_unit cur func force st :
  adds_in_unit func → endswith cur _thread_name = true →
  ∃ more others,
    started (call cur (Thread func force) st).1 = (started st ++ more)%list
    ∧ length more = (if force then 1 else 0) + forced_calls func
    ∧ ran (call cur (Thread func force) st).1 = (ran st ++ others)%list.
Proof.
  intros Hg Hcur. destruct force.
  - rewrite call_spawn by done. cbn [fst started ran].
    set (nm := func_name func ++ "-" ++ pretty (_thread_count st) ++ "-" ++ _thread_name).
    destruct (Hg nm (mkThreads (_thread_count st)
                (started st ++ [mkThread nm func true]) (ran st)))
      as (m & o & E & L & R); [apply minqlxthread_name|].
    rewrite E, R. cbn [started ran].
    exists (mkThread nm func true :: m), ((nm, func_name func) :: o).
    split_and!; [by rewrite <- app_assoc|simpl; lia|done].
  - rewrite call_inline by done. cbn [fst].
    destruct (Hg cur st Hcur) as (m & o & E & L & R).
    rewrite E, R. eauto.
Qed.

Lemma run_calls_in_unit cur calls :
  Forall (λ w, match w with Thread g _ => adds_in_unit g end) calls →
  endswith cur _thread_name = true →
  ∀ st, ∃ more others,
    started (run_calls cur calls st) = (started st ++ more)%list
    ∧ length more = forced_in calls
    ∧ ran (run_calls cur calls st) = (ran st ++ others)%list.
Proof.
  intros Hall Hcur. induction Hall as [|[g force] ws Hg _ IH]; intros st.
  - exists [], []. by rewrite !app_nil_r.
  - unfold run_calls in *. cbn [fold_left].
    destruct (call_in_unit cur g force st Hg Hcur) as (m1 & o1 & E1 & L1 & R1).
    destruct (IH (call cur (Thread g force) st).1) as (m2 & o2 & E2 & L2 & R2).
    exists (m1 ++ m2)%list, (o1 ++ o2)%list.
    rewrite E2, R2, E1, R1. split_and!.
    + by rewrite <- app_assoc.
    + rewrite length_app. cbn [forced_in foldr]. fold (forced_in ws). lia.
    + by rewrite <- app_assoc.
Qed.

Lemma run_in_unit func : adds_in_unit func.
Proof.
  induction func as [name calls IH] using Callable_nested_ind.
  intros cur st Hcur. rewrite run_unfold, forced_calls_unfold.
  destruct (run_calls_in_unit cur calls IH Hcur
              (mkThreads (_thread_count st) (started st) (ran st ++ [(cur, name)])))
    as (more & others & E & L & R).
  exists more, others. rewrite E, R. cbn [started ran func_name].
  split_and!; [done..|]. by rewrite <- app_assoc.
Qed.

(** C5.  The closure returned by [thread(func, force)]: called without
    [force] on a unit whose name carries the decorator's marker it runs
    [func] inline on that unit, returns no thread and starts no unit for the
    call; otherwise, and always with [force], it starts exactly one new
    unit for the call, named with the marker, on which [func] runs.  Units
    beyond that one come only from forced calls nested in the body, so a
    decorated callable calling another from a unit outside the decorator
    gives one unit in all without [force] and two with it. *)
Theorem thread_spawns_once (cur : string) (func : Callable) (force : bool)
    (st : Threads) :
  (if negb force && endswith cur _thread_name
   then call cur (Thread func force) st = (run cur func st, None)
        ∧ ∃ more others,
            started (run cur func st) = (started st ++ more)%list
            ∧ length more = forced_calls func
            ∧ ran (run cur func st)
              = (ran st ++ (cur, func_name func) :: others)%list
   else ∃ t more others,
          (call cur (Thread func force) st).2 = Some t
          ∧ target t = func
          ∧ endswith (thread_name t) _thread_name = true
          ∧ started (call cur (Thread func force) st).1
            = (started st ++ t :: more)%list
          ∧ length more = forced_calls func
          ∧ ran (call cur (Thread func force) st).1
            = (ran st ++ (thread_name t, func_name func) :: others)%list)
  ∧ (∀ outer inner nested_force,
       endswith cur _thread_name = false →
       length (started (call cur
                 (Thread (Func outer [Thread (Func inner []) nested_force]) false)
                 st).1)
       = length (started st) + (if nested_force then 2 else 1)).
Proof.
  assert (∀ func force,
    negb force && endswith cur _thread_name = false →
    ∃ t more others,
      (call cur (Thread func force) st).2 = Some t
      ∧ target t = func
      ∧ endswith (thread_name t) _thread_name = true
      ∧ started (call cur (Thread func force) st).1 = (started st ++ t :: more)%list
      ∧ length more = forced_calls func
      ∧ ran (call cur (Thread func force) st).1
        = (ran st ++ (thread_name t, func_name func) :: others)%list) as Hspawn.
  { clear. intros func force H. rewrite call_spawn by done. cbn [fst snd started ran].
    set (nm := func_name func ++ "-" ++ pretty (_thread_count st) ++ "-" ++ _thread_name).
    destruct (run_in_unit func nm (mkThreads (_thread_count st)
                (started st ++ [mkThread nm func true]) (ran st)))
      as (m & o & E & L & R); [apply minqlxthread_name|].
    exists (mkThread nm func true), m, o. rewrite E, R. cbn [started ran target thread_name].
    split_and!; try done; [apply minqlxthread_name|by rewrite <- app_assoc]. }
  split.
  - destruct (negb force && endswith cur _thread_name) eqn:E.
    + apply andb_prop in E as [Hf Hc]. destruct force; [done|].
      split; [by apply call_inline|]. by apply run_in_unit.
    + by apply Hspawn.
  - intros outer inner nested Hcur.
    destruct (Hspawn (Func outer [Thread (Func inner []) nested]) false)
      as (t & more & others & _ & _ & _ & -> & L & _); [by rewrite Hcur|].
    rewrite length_app. cbn [length]. rewrite L. simpl. destruct nested; lia.
Qed.

Lemma thread_spawns_once_witness :
  endswith "MainThread" _thread_name = false
  ∧ length (started (call "MainThread"
              (Thread (Func "outer" [Thread (Func "inner" []) true]) false)
              (mkThreads 0 [] [])).1) = 2
  ∧ length (started (call "MainThread"
              (Thread (Func "outer" [Thread (Func "inner" []) false]) false)
              (mkThreads 0 [] [])).1) = 1.
Proof.
  split; [reflexivity|]. split.
  - apply (proj2 (thread_spawns_once "MainThread" (Func "f" []) false
                    (mkThreads 0 [] [])) "outer" "inner" true). reflexivity.
  - apply (proj2 (thread_spawns_once "MainThread" (Func "f" []) false
                    (mkThreads 0 [] [])) "outer" "inner" false). reflexivity.
Defined.

(** ** next_frame and delay *)

Lemma elem_of_enqueue t u q : u ∈ enqueue t q ↔ u = t ∨ u ∈ q.
Proof.
  induction q as [|x q IH]; simpl.
  - set_solver.
  - destruct (task_before t x); rewrite ?elem_of_cons, ?IH; naive_solver.
Qed.

Lemma extends_refl s : extends s s.
Proof. by split. Qed.

Lemma extends_trans s1 s2 s3 : extends s1 s2 → extends s2 s3 → extends s1 s3.
Proof.
  intros [] []. split; [congruence|congruence|lia|auto].
Qed.

Lemma enter_extends d p g a k s : extends s (enter d p g a k s).
Proof.
  split; simpl; [done|done|lia|]. intros t Ht. apply elem_of_enqueue. by right.
Qed.

Lemma defer_extends d s : extends s (defer d s).
Proof. destruct d; apply enter_extends. Qed.

Lemma defers_extends ds s : extends s (fold_left (λ s d, defer d s) ds s).
Proof.
  revert s. induction ds as [|d ds IH]; intros s; simpl; [apply extends_refl|].
  eapply extends_trans; [apply defer_extends|apply IH].
Qed.

Lemma defers_fired ds s : fired (fold_left (λ s d, defer d s) ds s) = fired s.
Proof.
  revert s. induction ds as [|d ds IH]; intros s; simpl; [done|].
  rewrite IH. by destruct d.
Qed.

Lemma defers_next_frame ds s g a k :
  NextFrame g a k ∈ ds →
  ∃ t, t ∈ queue (fold_left (λ s d, defer d s) ds s)
       ∧ action t = g ∧ argument t = a ∧ kwargs t = k
       ∧ fire_time t = now s ∧ next_sequence s ≤ sequence t.
Proof.
  revert s. induction ds as [|d ds IH]; intros s Hin; [by apply elem_of_nil in Hin|].
  apply elem_of_cons in Hin as [<-|Hin]; simpl.
  - exists (mkTask (now s + 0) 0 (next_sequence s) g a k).
    split_and!; [|simpl; (done || lia)..].
    apply defers_extends. unfold next_frame, enter. simpl.
    apply elem_of_enqueue. by left.
  - destruct (IH (defer d s) Hin) as (t & H1 & H2 & H3 & H4 & H5 & H6).
    destruct (defer_extends d s) as [En _ Es _].
    exists t. split_and!; try done; [congruence|lia].
Qed.

Lemma run_task_extends t s : extends s (run_task t s).
Proof.
  unfold run_task.
  eapply extends_trans; [|apply defers_extends]. by split.
Qed.

Lemma run_task_fired t s : fired (run_task t s) = (fired s ++ [(pumps s, t)])%list.
Proof. unfold run_task. by rewrite defers_fired. Qed.

Lemma run_tasks_extends ts s : extends s (fold_left (λ s t, run_task t s) ts s).
Proof.
  revert s. induction ts as [|t ts IH]; intros s; simpl; [apply extends_refl|].
  eapply extends_trans; [apply run_task_extends|apply IH].
Qed.

Lemma run_tasks_fired ts s :
  fired (fold_left (λ s t, run_task t s) ts s)
  = (fired s ++ ((λ t, (pumps s, t)) <$> ts))%list.
Proof.
  revert s. induction ts as [|t ts IH]; intros s; simpl; [by rewrite app_nil_r|].
  rewrite IH, run_task_fired, <- app_assoc.
  by rewrite (ext_pumps _ _ (run_task_extends t s)).
Qed.

Lemma run_tasks_next_frame ts s t0 g a k :
  t0 ∈ ts → NextFrame g a k ∈ body (action t0) →
  ∃ t, t ∈ queue (fold_left (λ s t, run_task t s) ts s)
       ∧ action t = g ∧ argument t = a ∧ kwargs t = k
       ∧ fire_time t = now s ∧ next_sequence s ≤ sequence t.
Proof.
  revert s. induction ts as [|u ts IH]; intros s Hin Hb; [by apply elem_of_nil in Hin|].
  apply elem_of_cons in Hin as [<-|Hin]; simpl.
  - unfold run_task at 2.
    destruct (defers_next_frame (body (action t0))
                (mkSched (now s) (next_sequence s) (queue s) (pumps s)
                   (fired s ++ [(pumps s, t0)])) g a k Hb)
      as (t & H1 & H2 & H3 & H4 & H5 & H6).
    exists t. split_and!; try done.
    eapply (ext_queue _ _ (run_tasks_extends ts _)), H1.
  - destruct (IH (run_task u s) Hin Hb) as (t & H1 & H2 & H3 & H4 & H5 & H6).
    destruct (run_task_extends u s) as [En _ Es _].
    exists t. split_and!; try done; [congruence|lia].
Qed.

Lemma pump_fired s :
  fired (pump s)
  = (fired s ++ ((λ t, (pumps s, t)) <$> filter (λ t, is_due (now s) t = true) (queue s)))%list.
Proof. unfold pump. cbn [fired]. by rewrite run_tasks_fired. Qed.

(** C8.  [next_frame] and [delay] are [enter] with delay 0, respectively
    the given delay, and priority 0.  On the frame scheduler of the
    specification, a task that a callback running in a pump schedules with
    [next_frame] is still queued when that pump returns, is not among the
    tasks the pump executed, and is executed by the pump of the next tick. *)
Theorem next_frame_fires_next_pump :
  (∀ func args kw s, next_frame func args kw s = enter 0 0 func args kw s)
  ∧ (∀ time func args kw s, delay time func args kw s = enter time 0 func args kw s)
  ∧ (∀ s t0 g args kw dt,
       sequence_fresh s →
       t0 ∈ queue s → is_due (now s) t0 = true →
       NextFrame g args kw ∈ body (action t0) →
       ∃ t, action t = g ∧ argument t = args ∧ kwargs t = kw
            ∧ t ∈ queue (pump s)
            ∧ (∀ n, (n, t) ∉ fired (pump s))
            ∧ (pumps s, t0) ∈ fired (pump s)
            ∧ pumps (pump s) = S (pumps s)
            ∧ (S (pumps s), t) ∈ fired (tick dt (pump s))).
Proof.
  split_and!; [done|done|].
  intros s t0 g args kw dt [Hq Hf] Hin Hdue Hb.
  set (due := filter (λ t, is_due (now s) t = true) (queue s)).
  set (s1 := mkSched (now s) (next_sequence s)
               (filter (λ t, is_due (now s) t = false) (queue s)) (pumps s) (fired s)).
  assert (t0 ∈ due) as Hin0 by (by apply list_elem_of_filter).
  destruct (run_tasks_next_frame due s1 t0 g args kw Hin0 Hb)
    as (t & H1 & H2 & H3 & H4 & H5 & H6).
  pose proof (run_tasks_extends due s1) as [En Ep _ _].
  exists t. split_and!; try done.
  - intros n Hn. rewrite pump_fired in Hn. apply elem_of_app in Hn as [Hn|Hn].
    + apply Hf in Hn. simpl in H6. lia.
    + apply list_elem_of_fmap in Hn as (u & [= -> ->] & Hu).
      apply list_elem_of_filter in Hu as [_ Hu]. apply Hq in Hu. simpl in H6. lia.
  - rewrite pump_fired. apply elem_of_app. right.
    apply list_elem_of_fmap. by exists t0.
  - unfold pump. cbn [pumps]. fold due s1. by rewrite Ep.
  - unfold tick. rewrite pump_fired. cbn [fired pumps queue now].
    apply elem_of_app. right. apply list_elem_of_fmap. exists t.
    split.
    + unfold pump. cbn [pumps]. fold due s1. by rewrite Ep.
    + apply list_elem_of_filter. split; [|done].
      unfold is_due. apply Nat.leb_le. unfold pump. cbn [now]. fold due s1.
      rewrite En. simpl in H5. simpl. lia.
Qed.

Lemma next_frame_fires_next_pump_witness :
  let g := Action "later" [] in
  let t0 := mkTask 0 0 0 (Action "first" [NextFrame g ["x"] []]) [] [] in
  let s := mkSched 5 1 [t0] 3 [] in
  ∃ t, action t = g ∧ argument t = ["x"] ∧ kwargs t = []
       ∧ t ∈ queue (pump s)
       ∧ (∀ n, (n, t) ∉ fired (pump s))
       ∧ (pumps s, t0) ∈ fired (pump s)
       ∧ pumps (pump s) = S (pumps s)
       ∧ (S (pumps s), t) ∈ fired (tick 1 (pump s)).
Proof.
  intros g t0 s.
  apply (proj2 (proj2 next_frame_fires_next_pump) s t0 g ["x"] [] 1).
  - split; simpl.
    + intros t Ht. apply list_elem_of_singleton in Ht. subst t. simpl. lia.
    + intros n t Ht. by apply elem_of_nil in Ht.
  - simpl. apply list_elem_of_singleton. reflexivity.
  - reflexivity.
  - simpl. apply list_elem_of_singleton. reflexivity.
Defined.

(** ** The plugin loader *)

(** *** The monad *)

Lemma bind_Ok {A B} (m : M A) (k : A → M B) s s' a :
  m s = (s', Ok a) → (m ≫= k) s = k a s'.
Proof. intros E. unfold mbind, M_bind, bind. by rewrite E. Qed.

Lemma bind_Raise {A B} (m : M A) (k : A → M B) s s' e :
  m s = (s', Raise e) → (m ≫= k) s = (s', Raise e).
Proof. intros E. unfold mbind, M_bind, bind. by rewrite E. Qed.

Lemma logged_Ok plugin m s s' :
  m s = (s', Ok tt) → logged plugin m s = (s', Ok tt).
Proof. intros E. unfold logged, try_except. by rewrite E. Qed.

Lemma logged_Raise plugin m s s' e :
  m s = (s', Raise e) →
  logged plugin m s
  = (with_log (append (LogException (get_logger (Some plugin)) e)) s', Raise e).
Proof. intros E. unfold logged, try_except. by rewrite E. Qed.

Ltac munfold :=
  unfold mbind, M_bind, bind, mret, M_ret, ret, gets, modify, raise in *.

(** *** Tearing a plugin down *)

Lemma remove_hooks_all plugin obj : ∀ hs s self,
  _loaded_plugins s !! plugin = Some obj →
  plugin_heap s !! obj = Some self →
  _hooks self = hs →
  for_each hs (λ hook, loaded_plugin plugin ≫= λ o, remove_hook o hook) s
  = (mkRuntime (world s) (sys_modules s) (module_heap s) (_modules s)
       (_loaded_plugins s)
       (<[obj := mkPlugin (plugin_name self) [] (_commands self)]> (plugin_heap s))
       (torn_hooks (plugin_name self) hs (hook_table s)) (command_table s)
       (events s ++ (EvRemoveHook obj <$> hs)) (log s), Ok tt).
Proof.
  induction hs as [|h hs IH]; intros s self Hp Ho Hh.
  - simpl. unfold mret, M_ret, ret. f_equal. destruct s, self; simpl in *; subst.
    rewrite insert_id by done. by rewrite app_nil_r.
  - cbn [for_each].
    erewrite bind_Ok; last first.
    { unfold loaded_plugin, remove_hook, deref_plugin. munfold. simpl.
      rewrite Hp. simpl. rewrite Ho. simpl. rewrite Hh. simpl.
      rewrite bool_decide_eq_true_2 by done. reflexivity. }
    erewrite IH; [|done|simpl; apply lookup_insert_eq|done].
    simpl. unfold append. rewrite insert_insert_eq, <- app_assoc. done.
Qed.

Lemma remove_commands_all plugin obj : ∀ cs s self,
  _loaded_plugins s !! plugin = Some obj →
  plugin_heap s !! obj = Some self →
  _commands self = cs →
  for_each cs (λ cmd, loaded_plugin plugin ≫= λ o,
                 remove_command o (cmd_name cmd) (cmd_handler cmd)) s
  = (mkRuntime (world s) (sys_modules s) (module_heap s) (_modules s)
       (_loaded_plugins s)
       (<[obj := mkPlugin (plugin_name self) (_hooks self) []]> (plugin_heap s))
       (hook_table s) (torn_commands (plugin_name self) cs (command_table s))
       (events s
        ++ ((λ c, EvRemoveCommand obj (cmd_name c) (cmd_handler c)) <$> cs)) (log s),
     Ok tt).
Proof.
  induction cs as [|c cs IH]; intros s self Hp Ho Hc.
  - simpl. unfold mret, M_ret, ret. f_equal. destruct s, self; simpl in *; subst.
    rewrite insert_id by done. by rewrite app_nil_r.
  - cbn [for_each].
    erewrite bind_Ok; last first.
    { unfold loaded_plugin, remove_command, deref_plugin. munfold. simpl.
      rewrite Hp. simpl. rewrite Ho. simpl. rewrite Hc. simpl. unfold same_command at 1.
      rewrite !bool_decide_eq_true_2 by done. reflexivity. }
    erewrite IH; [|done|simpl; apply lookup_insert_eq|done].
    simpl. unfold append. rewrite insert_insert_eq, <- app_assoc. done.
Qed.

Lemma dispatch_cases event plugin s :
  dispatch event plugin s
  = (with_events (append (EvDispatch event plugin
                            (_loaded_plugins s !! plugin ≫= λ obj, plugin_heap s !! obj))) s,
     match vetoes (world s) !! plugin with
     | Some tag => Raise (HostError tag)
     | None => Ok tt
     end).
Proof.
  unfold dispatch. munfold. simpl. by destruct (vetoes (world s) !! plugin).
Qed.

Lemma unload_plugin_cases plugin s :
  match _loaded_plugins s !! plugin with
  | None =>
      unload_plugin plugin s
      = (with_log (append (unloading plugin)) s, Raise not_loaded_error)
  | Some obj =>
      match vetoes (world s) !! plugin, plugin_heap s !! obj with
      | Some tag, seen =>
          unload_plugin plugin s
          = (with_log (append (LogException (get_logger (Some plugin)) (HostError tag)))
               (with_events (append (EvDispatch "unload" plugin seen))
                  (with_log (append (unloading plugin)) s)),
             Raise (HostError tag))
      | None, None =>
          unload_plugin plugin s
          = (with_log (append (LogException (get_logger (Some plugin))
                                 (HostError "ReferenceError")))
               (with_events (append (EvDispatch "unload" plugin None))
                  (with_log (append (unloading plugin)) s)),
             Raise (HostError "ReferenceError"))
      | None, Some self =>
          unload_plugin plugin s = (unloaded plugin obj self s, Ok tt)
      end
  end.
Proof.
  unfold unload_plugin.
  erewrite bind_Ok; [|reflexivity]. erewrite bind_Ok; [|reflexivity].
  cbn [_loaded_plugins with_log].
  set (s1 := with_log _ s).
  destruct (_loaded_plugins s !! plugin) as [obj|] eqn:Hp.
  - rewrite bool_decide_eq_true_2 by eauto.
    pose proof (dispatch_cases "unload" plugin s1) as Hd.
    cbn [s1 _loaded_plugins with_log plugin_heap world] in Hd.
    rewrite Hp in Hd. cbn [mbind option_bind] in Hd. fold s1 in Hd.
    destruct (vetoes (world s) !! plugin) as [tag|] eqn:Hv.
    + apply logged_Raise. erewrite bind_Raise; [reflexivity|exact Hd].
    + destruct (plugin_heap s !! obj) as [self|] eqn:Ho.
      * apply logged_Ok. erewrite bind_Ok; [|exact Hd].
        erewrite bind_Ok; last first.
        { unfold loaded_plugin, hooks, deref_plugin. munfold. simpl.
          rewrite Hp. simpl. rewrite Ho. reflexivity. }
        erewrite bind_Ok; last first.
        { eapply (remove_hooks_all plugin obj); done. }
        erewrite bind_Ok; last first.
        { unfold loaded_plugin, commands, deref_plugin. munfold. simpl.
          rewrite Hp. simpl. rewrite lookup_insert_eq. reflexivity. }
        erewrite bind_Ok; last first.
        { eapply (remove_commands_all plugin obj); [done|apply lookup_insert_eq|done]. }
        unfold del_loaded_plugin, loaded_plugin. munfold. simpl. rewrite Hp. simpl.
        unfold with_loaded_plugins, unloaded, unload_events, append. simpl.
        rewrite insert_insert_eq, <- !app_assoc. done.
      * apply logged_Raise. erewrite bind_Ok; [|exact Hd].
        erewrite bind_Raise; [reflexivity|].
        unfold loaded_plugin, hooks, deref_plugin. munfold. simpl.
        rewrite Hp. simpl. rewrite Ho. reflexivity.
  - rewrite bool_decide_eq_false_2; [done|]. by intros [? ?].
Qed.

(** A successful [unload_plugin] found the plugin's object and left the
    state [unloaded] describes. *)
Lemma unload_plugin_Ok_inv plugin obj s s' :
  _loaded_plugins s !! plugin = Some obj →
  unload_plugin plugin s = (s', Ok tt) →
  ∃ self, plugin_heap s !! obj = Some self ∧ s' = unloaded plugin obj self s.
Proof.
  intros Hp Hu. pose proof (unload_plugin_cases plugin s) as Hc.
  rewrite Hp in Hc.
  destruct (vetoes (world s) !! plugin); [congruence|].
  destruct (plugin_heap s !! obj) as [self|]; [|congruence].
  rewrite Hc in Hu. injection Hu as <-. eauto.
Qed.

(** C1.  A successful [unload_plugin] of a loaded plugin dispatches the
    [unload] event once, first, to listeners that see the plugin with all
    its hooks and commands still recorded; then every recorded hook and
    every recorded command is removed through the plugin's own
    [remove_hook] and [remove_command], in order; then the registry entry
    is deleted.  The plugin object is left with empty hook and command
    records. *)
Theorem unload_plugin_tears_down (plugin : string) (obj : nat) (s s' : Runtime) :
  _loaded_plugins s !! plugin = Some obj →
  unload_plugin plugin s = (s', Ok tt) →
  ∃ self,
    plugin_heap s !! obj = Some self
    ∧ s' = unloaded plugin obj self s
    ∧ events s'
      = (events s
         ++ [EvDispatch "unload" plugin (Some self)]
         ++ (EvRemoveHook obj <$> _hooks self)
         ++ ((λ c, EvRemoveCommand obj (cmd_name c) (cmd_handler c))
               <$> _commands self))%list
    ∧ plugin_heap s' !! obj = Some (mkPlugin (plugin_name self) [] [])
    ∧ _loaded_plugins s' = delete plugin (_loaded_plugins s)
    ∧ _loaded_plugins s' !! plugin = None.
Proof.
  intros Hp Hu.
  destruct (unload_plugin_Ok_inv _ _ _ _ Hp Hu) as (self & Ho & ->).
  exists self. split_and!; try done.
  - simpl. apply lookup_insert_eq.
  - simpl. apply lookup_delete_eq.
Qed.

(** A plugin whose object is alive and whose [unload] listeners do not
    raise is unloaded without error. *)
Lemma unload_plugin_succeeds plugin obj self s :
  _loaded_plugins s !! plugin = Some obj →
  plugin_heap s !! obj = Some self →
  vetoes (world s) !! plugin = None →
  unload_plugin plugin s = (unloaded plugin obj self s, Ok tt).
Proof.
  intros Hp Ho Hv. pose proof (unload_plugin_cases plugin s) as Hc.
  by rewrite Hp, Hv, Ho in Hc.
Qed.

(** A failed [unload_plugin] leaves the registry as it was. *)
Lemma unload_plugin_Raise plugin s s' e :
  unload_plugin plugin s = (s', Raise e) →
  _loaded_plugins s' = _loaded_plugins s
  ∧ erase_log s' = erase_log (with_events (λ _, events s') s)
  ∧ (is_PluginUnloadError e = true → _loaded_plugins s !! plugin = None)
  ∧ (_loaded_plugins s !! plugin = None → e = not_loaded_error).
Proof.
  intros Hu. pose proof (unload_plugin_cases plugin s) as Hc.
  destruct (_loaded_plugins s !! plugin) as [obj|].
  - destruct (vetoes (world s) !! plugin).
    + rewrite Hc in Hu. injection Hu as <- <-. done.
    + destruct (plugin_heap s !! obj); rewrite Hc in Hu; [done|].
      injection Hu as <- <-. done.
  - rewrite Hc in Hu. injection Hu as <- <-. done.
Qed.

(** C9.  [unload_plugin] of a name that is not in the registry raises
    [PluginUnloadError]; apart from the line it logs, nothing changes: the
    registry, every plugin's hook and command records and the host's
    tables are as before, and no event is dispatched. *)
Theorem unload_plugin_not_loaded (plugin : string) (s : Runtime) :
  _loaded_plugins s !! plugin = None →
  unload_plugin plugin s
  = (with_log (append (unloading plugin)) s,
     Raise (PluginUnloadError "Attempted to unload a plugin that is not loaded."))
  ∧ _loaded_plugins (unload_plugin plugin s).1 = _loaded_plugins s
  ∧ plugin_heap (unload_plugin plugin s).1 = plugin_heap s
  ∧ hook_table (unload_plugin plugin s).1 = hook_table s
  ∧ command_table (unload_plugin plugin s).1 = command_table s
  ∧ events (unload_plugin plugin s).1 = events s.
Proof.
  intros Hp. pose proof (unload_plugin_cases plugin s) as Hc.
  rewrite Hp in Hc. rewrite Hc. done.
Qed.

(** *** Constructing a plugin *)

Lemma init_steps_effect obj : ∀ init s self,
  plugin_heap s !! obj = Some self →
  for_each init (init_step obj) s
  = (mkRuntime (world s) (sys_modules s) (module_heap s) (_modules s)
       (_loaded_plugins s)
       (<[obj := mkPlugin (plugin_name self)
                   (_hooks self ++ (init_effect init).1.1)
                   (_commands self ++ (init_effect init).1.2)]> (plugin_heap s))
       (hook_table s ++ ((λ h, (plugin_name self, h)) <$> (init_effect init).1.1))
       (command_table s ++ ((λ c, (plugin_name self, c)) <$> (init_effect init).1.2))
       (events s) (log s),
     match (init_effect init).2 with
     | None => Ok tt
     | Some tag => Raise (HostError tag)
     end).
Proof.
  induction init as [|step init IH]; intros s self Ho.
  - simpl. unfold mret, M_ret, ret. f_equal. destruct s, self; simpl in *.
    rewrite !app_nil_r. by rewrite insert_id.
  - cbn [for_each]. destruct step as [h|c|tag].
    + erewrite bind_Ok; last first.
      { unfold init_step, add_hook, deref_plugin. munfold. simpl. rewrite Ho. reflexivity. }
      erewrite IH; [|simpl; apply lookup_insert_eq].
      cbn [init_effect]. destruct (init_effect init) as [[hs cs] r]. simpl.
      unfold append. rewrite insert_insert_eq, <- !app_assoc. done.
    + erewrite bind_Ok; last first.
      { unfold init_step, add_command, deref_plugin. munfold. simpl. rewrite Ho. reflexivity. }
      erewrite IH; [|simpl; apply lookup_insert_eq].
      cbn [init_effect]. destruct (init_effect init) as [[hs cs] r]. simpl.
      unfold append. rewrite insert_insert_eq, <- !app_assoc. done.
    + erewrite bind_Raise; [|reflexivity]. simpl. f_equal.
      destruct s, self; simpl in *. rewrite !app_nil_r. by rewrite insert_id.
Qed.

Lemma instantiate_effect name is_plugin init s :
  let obj := fresh (dom (plugin_heap s)) in
  instantiate (Class name is_plugin init) s
  = (mkRuntime (world s) (sys_modules s) (module_heap s) (_modules s)
       (_loaded_plugins s)
       (<[obj := mkPlugin name (init_effect init).1.1 (init_effect init).1.2]>
          (plugin_heap s))
       (hook_table s ++ ((λ h, (name, h)) <$> (init_effect init).1.1))
       (command_table s ++ ((λ c, (name, c)) <$> (init_effect init).1.2))
       (events s) (log s),
     match (init_effect init).2 with
     | None => Ok obj
     | Some tag => Raise (HostError tag)
     end).
Proof.
  intros obj. unfold instantiate.
  erewrite bind_Ok; [|reflexivity]. erewrite bind_Ok; [|reflexivity].
  fold obj. unfold mbind, M_bind, bind.
  erewrite init_steps_effect; [|simpl; apply lookup_insert_eq].
  simpl. rewrite insert_insert_eq.
  destruct (init_effect init).2; done.
Qed.

Lemma fresh_not_allocated {V} (heap : gmap nat V) : heap !! fresh (dom heap) = None.
Proof. apply not_elem_of_dom, is_fresh. Qed.

Lemma import_module_cases name s :
  import_module name s
  = match sys_modules s !! name with
    | Some m => (s, Ok m)
    | None =>
        match sources (world s) !! name with
        | None => (s, Raise (HostError "ModuleNotFoundError"))
        | Some (SrcRaises tag) => (s, Raise (HostError tag))
        | Some (SrcDefines members) =>
            let m := fresh (dom (module_heap s)) in
            (with_sys_modules <[name := m]>
               (with_module_heap <[m := mkModule name members]> s), Ok m)
        end
    end.
Proof.
  unfold import_module, execute_source. munfold. simpl.
  destruct (sys_modules s !! name); [done|].
  destruct (sources (world s) !! name) as [[tag|members]|]; done.
Qed.

(** *** Loading *)

Section loader_facts.
Context `{OsPath}.

(** The checks [load_plugin] makes before it imports anything. *)
Lemma load_plugin_body_cases reload plugin s :
  let s1 := with_log (append (loading plugin)) s in
  load_plugin_body reload plugin s
  = match cvars (world s) !! "qlx_pluginsPath" with
    | None =>
        (s1, Raise (TypeError "expected str, bytes or os.PathLike object, not NoneType"))
    | Some path =>
        if bool_decide (join (abspath path) (plugin ++ ".py") ∈ files (world s))
        then match _loaded_plugins s !! plugin with
             | Some _ => reload plugin s1
             | None => logged plugin (load_plugin_try (basename (abspath path)) plugin) s1
             end
        else (s1, Raise no_plugin_error)
    end.
Proof.
  intros s1. unfold load_plugin_body, get_plugins_path, get_cvar, isfile, logger_info.
  munfold. cbn [with_log world _loaded_plugins]. fold s1.
  destruct (cvars (world s) !! "qlx_pluginsPath") as [path|]; [|done].
  destruct (bool_decide (join _ _ ∈ _)); simpl; [|done].
  destruct (_loaded_plugins s !! plugin) eqn:E.
  - rewrite bool_decide_eq_true_2 by eauto. done.
  - rewrite bool_decide_eq_false_2; [done|]. by intros [? ?].
Qed.

(** What the [try] body of [load_plugin] does to the state. *)
Lemma load_plugin_try_spec dir plugin s s' r :
  load_plugin_try dir plugin s = (s', r) →
  world s' = world s ∧ log s' = log s ∧ events s' = events s
  ∧ (∀ o, is_Some (plugin_heap s !! o) → plugin_heap s' !! o = plugin_heap s !! o)
  ∧ (∀ m s2, import_module (dir ++ "." ++ plugin) s = (s2, Ok m) →
       _modules s' !! plugin = Some m
       ∧ sys_modules s' !! (dir ++ "." ++ plugin) = Some m)
  ∧ (∀ e s2, import_module (dir ++ "." ++ plugin) s = (s2, Raise e) →
       s' = s ∧ r = Raise e)
  ∧ match r with
    | Ok _ => ∃ obj, _loaded_plugins s' = <[plugin := obj]> (_loaded_plugins s)
                     ∧ plugin_heap s !! obj = None
                     ∧ is_Some (plugin_heap s' !! obj)
    | Raise e => _loaded_plugins s' = _loaded_plugins s
                   ∧ is_PluginUnloadError e = false
    end.
Proof.
  unfold load_plugin_try. unfold mbind at 1, M_bind at 1, bind at 1.
  rewrite import_module_cases.
  set (name := dir ++ "." ++ plugin).
  intros Hrun.
  assert (∀ s2 m, world s2 = world s → log s2 = log s → events s2 = events s →
            plugin_heap s2 = plugin_heap s → _loaded_plugins s2 = _loaded_plugins s →
            sys_modules s2 !! name = Some m →
            (modify (with_modules <[plugin := m]>) ≫= λ _,
               hasattr m plugin ≫= λ has,
               if negb has then
                 raise (PluginLoadError
                   "The plugin needs to have a class with the exact name as the file, minus the .py.")
               else
                 getattr m plugin ≫= λ plugin_class,
                 issubclass_Plugin plugin_class ≫= λ sub,
                 if (sub : bool) then
                   instantiate plugin_class ≫= λ obj,
                   modify (with_loaded_plugins <[plugin := obj]>)
                 else
                   raise (PluginLoadError
                     "Attempted to load a plugin that is not a subclass of 'minqlx.Plugin'."))
              s2 = (s', r) →
            world s' = world s ∧ log s' = log s ∧ events s' = events s
            ∧ (∀ o, is_Some (plugin_heap s !! o) → plugin_heap s' !! o = plugin_heap s !! o)
            ∧ _modules s' !! plugin = Some m
            ∧ sys_modules s' !! name = Some m
            ∧ match r with
              | Ok _ => ∃ obj, _loaded_plugins s' = <[plugin := obj]> (_loaded_plugins s)
                               ∧ plugin_heap s !! obj = None
                               ∧ is_Some (plugin_heap s' !! obj)
              | Raise e => _loaded_plugins s' = _loaded_plugins s
                   ∧ is_PluginUnloadError e = false
              end) as Hrest.
  { clear Hrun. intros s2 m Hw Hl He Hh Hr Hs.
    unfold hasattr, getattr, deref_module, issubclass_Plugin. munfold. simpl.
    destruct (module_heap s2 !! m) as [module|] eqn:Hmod; simpl; rewrite ?Hmod; simpl.
    2:{ intros [= <- <-]. simpl. rewrite lookup_insert_eq, Hh. done. }
    destruct (mod_members module !! plugin) as [[|cname isp init]|] eqn:Hm; simpl;
      rewrite ?Hmod; simpl; rewrite ?Hm; simpl.
    - intros [= <- <-]. simpl. rewrite lookup_insert_eq, Hh. done.
    - destruct isp.
      + pose proof (instantiate_effect cname true init
                      (with_modules <[plugin := m]> s2)) as Hi.
        simpl in Hi. rewrite Hi. clear Hi.
        destruct (init_effect init) as [[hs cs] [tag|]]; simpl.
        * intros [= <- <-]. simpl. rewrite lookup_insert_eq, Hh. split_and!; try done.
          intros o [x Hx]. rewrite lookup_insert_ne; [done|].
          intros <-. by rewrite fresh_not_allocated in Hx.
        * intros [= <- <-]. simpl. rewrite lookup_insert_eq, Hh. split_and!; try done.
          -- intros o [x Hx]. rewrite lookup_insert_ne; [done|].
             intros <-. by rewrite fresh_not_allocated in Hx.
          -- exists (fresh (dom (plugin_heap s))). rewrite Hr.
             split_and!; [done|apply fresh_not_allocated|].
             rewrite lookup_insert_eq. eauto.
      + intros [= <- <-]. simpl. rewrite lookup_insert_eq, Hh. done.
    - intros [= <- <-]. simpl. rewrite lookup_insert_eq, Hh. done. }
  destruct (sys_modules s !! name) as [m|] eqn:Hsys.
  - cbv beta iota in Hrun.
    destruct (Hrest s m eq_refl eq_refl eq_refl eq_refl eq_refl Hsys Hrun)
      as (? & ? & ? & ? & ? & ? & ?).
    split_and!; try done. by intros m' s2 [= <- <-].
  - destruct (sources (world s) !! name) as [[tag|members]|] eqn:Hsrc.
    + injection Hrun as <- <-. split_and!; try done. by intros e s2 [= <- <-].
    + cbv beta iota zeta in Hrun.
      apply Hrest in Hrun as (? & ? & ? & ? & ? & ? & ?);
        [|done..|simpl; apply lookup_insert_eq].
      split_and!; try done. by intros m s2 [= <- <-].
    + injection Hrun as <- <-. split_and!; try done. by intros e s2 [= <- <-].
Qed.

Lemma importlib_reload_frame m s s' r :
  importlib_reload m s = (s', r) →
  ∃ heap, s' = with_module_heap (λ _, heap) s.
Proof.
  unfold importlib_reload, deref_module, execute_source. munfold. simpl.
  assert (s = with_module_heap (λ _, module_heap s) s) as Hs by (by destruct s).
  destruct (module_heap s !! m) as [module|]; simpl.
  2:{ intros [= <- <-]. eauto. }
  case_bool_decide; simpl.
  2:{ intros [= <- <-]. eauto. }
  destruct (sources (world s) !! mod_name module) as [[tag|members]|]; simpl;
    intros [= <- <-]; eauto.
Qed.

(** With the plugin out of the registry [load_plugin] never gets to
    [reload_plugin]. *)
Lemma load_plugin_at_fresh d plugin s :
  _loaded_plugins s !! plugin = None →
  load_plugin_at (S d) plugin s = load_plugin_at 1 plugin s.
Proof.
  intros Hp. cbn [load_plugin_at]. rewrite !load_plugin_body_cases, Hp. done.
Qed.

Lemma unload_quietly_cases plugin s :
  unload_quietly plugin s
  = match _loaded_plugins s !! plugin with
    | None => (with_log (append (unloading plugin)) s, Ok tt)
    | Some _ => unload_plugin plugin s
    end.
Proof.
  unfold unload_quietly, try_except.
  pose proof (unload_plugin_cases plugin s) as Hc.
  destruct (_loaded_plugins s !! plugin) as [obj|].
  - destruct (vetoes (world s) !! plugin).
    + by rewrite Hc.
    + destruct (plugin_heap s !! obj); by rewrite Hc.
  - by rewrite Hc.
Qed.

Lemma unload_quietly_Ok plugin s s' :
  unload_quietly plugin s = (s', Ok tt) →
  _loaded_plugins s' = delete plugin (_loaded_plugins s)
  ∧ world s' = world s ∧ _modules s' = _modules s.
Proof.
  rewrite unload_quietly_cases.
  pose proof (unload_plugin_cases plugin s) as Hc.
  destruct (_loaded_plugins s !! plugin) as [obj|] eqn:Hp.
  - destruct (vetoes (world s) !! plugin); [congruence|].
    destruct (plugin_heap s !! obj); [|congruence].
    rewrite Hc. by intros [= <-].
  - intros [= <-]. simpl. by rewrite delete_id.
Qed.

Lemma unload_quietly_Raise plugin s s' e :
  unload_quietly plugin s = (s', Raise e) →
  unload_plugin plugin s = (s', Raise e)
  ∧ _loaded_plugins s' = _loaded_plugins s ∧ world s' = world s.
Proof.
  rewrite unload_quietly_cases.
  pose proof (unload_plugin_cases plugin s) as Hc.
  destruct (_loaded_plugins s !! plugin) as [obj|] eqn:Hp; [|done].
  intros Hu. split; [done|].
  destruct (vetoes (world s) !! plugin).
  - rewrite Hc in Hu. by injection Hu as <- <-.
  - destruct (plugin_heap s !! obj); rewrite Hc in Hu; [done|].
    by injection Hu as <- <-.
Qed.

Lemma reload_plugin_body_unfold load plugin s :
  reload_plugin_body load plugin s
  = match unload_quietly plugin s with
    | (s1, Ok _) =>
        logged plugin (
          match _modules s1 !! plugin with
          | Some module => importlib_reload module
          | None => ret tt
          end;;
          load plugin) s1
    | (s1, Raise e) => (s1, Raise e)
    end.
Proof.
  unfold reload_plugin_body. fold (unload_quietly plugin).
  unfold mbind at 1, M_bind at 1, bind at 1.
  destruct (unload_quietly plugin s) as [s1 [[]|e]]; [|done].
  unfold logged, try_except. unfold mbind at 1, M_bind at 1, bind at 1.
  unfold gets at 1. done.
Qed.

(** One nested call is all [reload_plugin] needs, two are all
    [load_plugin] needs. *)
Lemma reload_plugin_at_enough d plugin s :
  reload_plugin_at (S d) plugin s = reload_plugin plugin s.
Proof.
  unfold reload_plugin, reload_plugin_at. rewrite !reload_plugin_body_unfold.
  destruct (unload_quietly plugin s) as [s1 [[]|e]] eqn:Hu; [|done].
  apply unload_quietly_Ok in Hu as (Hr & _ & _).
  unfold logged, try_except. unfold mbind, M_bind, bind.
  destruct (_modules s1 !! plugin) as [m|].
  - destruct (importlib_reload m s1) as [s2 [[]|e]] eqn:Hi; [|done].
    apply importlib_reload_frame in Hi as [heap ->].
    rewrite !(load_plugin_at_fresh d); [done|].
    simpl. rewrite Hr. apply lookup_delete_eq.
  - unfold ret. rewrite !(load_plugin_at_fresh d); [done|].
    rewrite Hr. apply lookup_delete_eq.
Qed.

Lemma load_plugin_at_enough d plugin s :
  load_plugin_at (S (S d)) plugin s = load_plugin plugin s.
Proof.
  unfold load_plugin. cbn [load_plugin_at].
  rewrite !load_plugin_body_cases.
  destruct (cvars (world s) !! "qlx_pluginsPath"); [|done].
  case_bool_decide; [|done].
  destruct (_loaded_plugins s !! plugin); [|done].
  apply (reload_plugin_at_enough d).
Qed.

(** *** What loading does to the registry *)

Lemma load_plugin_fresh_spec plugin s s' r :
  _loaded_plugins s !! plugin = None →
  load_plugin_at 1 plugin s = (s', r) →
  world s' = world s
  ∧ events s' = events s
  ∧ (∀ o, is_Some (plugin_heap s !! o) → plugin_heap s' !! o = plugin_heap s !! o)
  ∧ match r with
    | Ok _ => ∃ obj, _loaded_plugins s' = <[plugin := obj]> (_loaded_plugins s)
                     ∧ plugin_heap s !! obj = None
                     ∧ is_Some (plugin_heap s' !! obj)
    | Raise e => _loaded_plugins s' = _loaded_plugins s
                 ∧ is_PluginUnloadError e = false
    end.
Proof.
  intros Hp. cbn [load_plugin_at]. rewrite load_plugin_body_cases, Hp.
  destruct (cvars (world s) !! "qlx_pluginsPath") as [path|].
  2:{ by intros [= <- <-]. }
  case_bool_decide.
  2:{ by intros [= <- <-]. }
  unfold logged, try_except.
  destruct (load_plugin_try _ _ _) as [s2 r2] eqn:Ht.
  apply load_plugin_try_spec in Ht as (Hw & _ & He & Hh & _ & _ & Hr).
  destruct r2 as [[]|e]; intros [= <- <-]; done.
Qed.

Lemma reload_plugin_outcome plugin s s' r :
  reload_plugin plugin s = (s', r) → load_outcome plugin s s' r.
Proof.
  unfold reload_plugin, reload_plugin_at. rewrite reload_plugin_body_unfold.
  destruct (unload_quietly plugin s) as [s1 [[]|e]] eqn:Hu.
  - apply unload_quietly_Ok in Hu as (Hr & Hw & _).
    assert (∀ s2, world s2 = world s1 → _loaded_plugins s2 = _loaded_plugins s1 →
              logged plugin (load_plugin_at 1 plugin) s2 = (s', r) →
              load_outcome plugin s s' r) as Hload.
    { intros s2 Hw2 Hr2. unfold logged, try_except.
      destruct (load_plugin_at 1 plugin s2) as [s3 r3] eqn:Hl.
      apply load_plugin_fresh_spec in Hl as (Hw3 & _ & _ & Hr3);
        [|rewrite Hr2, Hr; apply lookup_delete_eq].
      destruct r3 as [[]|e]; intros [= <- <-]; split; simpl; try congruence.
      - destruct Hr3 as (obj & -> & _ & Ho). exists obj. split; [|done].
        by rewrite Hr2, Hr, insert_delete_eq.
      - right. destruct Hr3 as [Hr3 _]. congruence. }
    unfold logged, try_except in *. unfold mbind, M_bind, bind in *.
    destruct (_modules s1 !! plugin) as [m|].
    + destruct (importlib_reload m s1) as [s2 [[]|e]] eqn:Hi.
      * apply importlib_reload_frame in Hi as [heap ->]. by apply Hload.
      * apply importlib_reload_frame in Hi as [heap ->].
        intros [= <- <-]. split; simpl; [congruence|]. by right.
    + unfold ret. by apply Hload.
  - apply unload_quietly_Raise in Hu as (_ & Hr & Hw).
    intros [= <- <-]. split; [done|]. by left.
Qed.

Lemma load_plugin_outcome plugin s s' r :
  load_plugin plugin s = (s', r) → load_outcome plugin s s' r.
Proof.
  unfold load_plugin. cbn [load_plugin_at].
  destruct (_loaded_plugins s !! plugin) eqn:Hp.
  - rewrite load_plugin_body_cases, Hp.
    destruct (cvars (world s) !! "qlx_pluginsPath") as [path|].
    2:{ intros [= <- <-]. split; [done|]. by left. }
    case_bool_decide.
    2:{ intros [= <- <-]. split; [done|]. by left. }
    intros Hrl. apply reload_plugin_outcome in Hrl. exact Hrl.
  - intros Hl. change (load_plugin_at 2 plugin s = (s', r)) in Hl.
    rewrite load_plugin_at_fresh in Hl by done.
    apply load_plugin_fresh_spec in Hl as (Hw & _ & _ & Hr); [|done].
    split; [done|]. destruct r as [[]|e].
    + destruct Hr as (obj & ? & _ & ?). eauto.
    + left. apply Hr.
Qed.

(** A failed [reload_plugin] failed in its unload, the registry as it was,
    or after it, the plugin's entry gone. *)
Lemma reload_plugin_Raise_registry plugin s s' e :
  reload_plugin plugin s = (s', Raise e) →
  (unload_quietly plugin s = (s', Raise e)
   ∧ _loaded_plugins s' = _loaded_plugins s)
  ∨ ((unload_quietly plugin s).2 = Ok tt
     ∧ _loaded_plugins s' = delete plugin (_loaded_plugins s)).
Proof.
  unfold reload_plugin, reload_plugin_at. rewrite reload_plugin_body_unfold.
  destruct (unload_quietly plugin s) as [s1 [[]|e1]] eqn:Hu.
  - intros Hl. right. split; [done|].
    apply unload_quietly_Ok in Hu as (Hr & Hw & _).
    assert (∀ s2, _loaded_plugins s2 = _loaded_plugins s1 →
              logged plugin (load_plugin_at 1 plugin) s2 = (s', Raise e) →
              _loaded_plugins s' = delete plugin (_loaded_plugins s)) as Hload.
    { intros s2 Hr2. unfold logged, try_except.
      destruct (load_plugin_at 1 plugin s2) as [s3 r3] eqn:Hl3.
      apply load_plugin_fresh_spec in Hl3 as (_ & _ & _ & Hr3);
        [|rewrite Hr2, Hr; apply lookup_delete_eq].
      destruct r3 as [[]|e3]; [done|]. intros [= <- _]. simpl.
      destruct Hr3 as [Hr3 _]. congruence. }
    unfold logged, try_except in *. unfold mbind, M_bind, bind in *.
    destruct (_modules s1 !! plugin) as [m|].
    + destruct (importlib_reload m s1) as [s2 [[]|e2]] eqn:Hi.
      * apply importlib_reload_frame in Hi as [heap ->].
        by apply (Hload (with_module_heap (λ _, heap) s1)).
      * apply importlib_reload_frame in Hi as [heap ->].
        injection Hl as <- _. simpl. congruence.
    + unfold ret in Hl. by apply (Hload s1).
  - intros [= <- <-]. left. split; [done|].
    by apply unload_quietly_Raise in Hu as (_ & Hr & _).
Qed.

Lemma import_module_log f name s :
  import_module name (with_log f s)
  = ((with_log f (import_module name s).1), (import_module name s).2).
Proof.
  rewrite !import_module_cases. simpl.
  destruct (sys_modules s !! name); [done|].
  destruct (sources (world s) !! name) as [[tag|members]|]; done.
Qed.

(** C10.  In [load_plugin] the check for the source file comes before
    the check for an already loaded plugin: for a plugin that is in the
    registry but whose source file is gone, [load_plugin] raises
    [PluginLoadError], whatever [reload_plugin] would do, dispatches
    nothing and leaves the registry entry where it is. *)
Theorem load_plugin_missing_source_first (plugin path : string) (obj : nat)
    (s : Runtime) :
  cvars (world s) !! "qlx_pluginsPath" = Some path →
  join (abspath path) (plugin ++ ".py") ∉ files (world s) →
  _loaded_plugins s !! plugin = Some obj →
  load_plugin plugin s
  = (with_log (append (loading plugin)) s,
     Raise (PluginLoadError "No such plugin exists."))
  ∧ (∀ reload, load_plugin_body reload plugin s = load_plugin plugin s)
  ∧ _loaded_plugins (load_plugin plugin s).1 !! plugin = Some obj
  ∧ events (load_plugin plugin s).1 = events s
  ∧ plugin_heap (load_plugin plugin s).1 = plugin_heap s.
Proof.
  intros Hc Hf Hp.
  assert (∀ reload, load_plugin_body reload plugin s
                    = (with_log (append (loading plugin)) s, Raise no_plugin_error)) as Hb.
  { intros reload. rewrite load_plugin_body_cases, Hc.
    by rewrite bool_decide_eq_false_2. }
  unfold load_plugin. cbn [load_plugin_at]. rewrite !Hb.
  split_and!; done.
Qed.

(** C4.  A failed [load_plugin] adds nothing to the registry.  With no
    source file it raises [PluginLoadError] and only logs.  When the
    import succeeded and the load fails afterwards, whatever the failure
    (no member named like the plugin, a member that is no Plugin class,
    a constructor that raises), the module is in [_modules] under the
    plugin's name and the registry has no entry for it. *)
Theorem load_plugin_failure_adds_no_entry (plugin : string) (s : Runtime) :
  (∀ path,
     cvars (world s) !! "qlx_pluginsPath" = Some path →
     join (abspath path) (plugin ++ ".py") ∉ files (world s) →
     load_plugin plugin s
     = (with_log (append (loading plugin)) s,
        Raise (PluginLoadError "No such plugin exists.")))
  ∧ (∀ s' e,
       load_plugin plugin s = (s', Raise e) →
       _loaded_plugins s' ⊆ _loaded_plugins s)
  ∧ (∀ path m s2 s' e,
       cvars (world s) !! "qlx_pluginsPath" = Some path →
       join (abspath path) (plugin ++ ".py") ∈ files (world s) →
       _loaded_plugins s !! plugin = None →
       import_module (basename (abspath path) ++ "." ++ plugin) s = (s2, Ok m) →
       load_plugin plugin s = (s', Raise e) →
       _modules s' !! plugin = Some m
       ∧ _loaded_plugins s' = _loaded_plugins s
       ∧ _loaded_plugins s' !! plugin = None).
Proof.
  split_and!.
  - intros path Hc Hf. unfold load_plugin. cbn [load_plugin_at].
    rewrite load_plugin_body_cases, Hc. by rewrite bool_decide_eq_false_2.
  - intros s' e Hl. apply load_plugin_outcome in Hl as [_ [->| ->]]; [done|].
    apply delete_subseteq.
  - intros path m s2 s' e Hc Hf Hp Hi. unfold load_plugin. cbn [load_plugin_at].
    rewrite load_plugin_body_cases, Hc, Hp. rewrite bool_decide_eq_true_2 by done.
    unfold logged, try_except.
    destruct (load_plugin_try _ _ _) as [s3 r3] eqn:Ht.
    apply load_plugin_try_spec in Ht as (_ & _ & _ & _ & Hm & _ & Hr).
    rewrite import_module_log, Hi in Hm.
    destruct (Hm m _ eq_refl) as [Hm1 _].
    destruct r3 as [[]|e3]; intros [= <- <-]; simpl.
    destruct Hr as [Hr _]. split_and!; [done|done|]. by rewrite Hr.
Qed.

Lemma filter_key_absent {V} (k : string) (l : list (string * V)) :
  k ∉ l.*1 → filter (λ kv, kv.1 = k) l = [].
Proof.
  induction l as [|[k' v'] l IH]; intros Hk; [done|].
  rewrite fmap_cons in Hk. apply not_elem_of_cons in Hk as [Hne Hk].
  rewrite filter_cons_False; [by apply IH|]. simpl in *. congruence.
Qed.

Lemma filter_key_NoDup {V} (k : string) (v : V) (l : list (string * V)) :
  NoDup l.*1 → (k, v) ∈ l → filter (λ kv, kv.1 = k) l = [(k, v)].
Proof.
  induction l as [|[k' v'] l IH]; intros Hnd Hin; [by apply elem_of_nil in Hin|].
  rewrite fmap_cons in Hnd. apply NoDup_cons in Hnd as [Hk Hnd].
  apply elem_of_cons in Hin as [[= <- <-]|Hin].
  - rewrite filter_cons_True by done. f_equal. by apply filter_key_absent.
  - rewrite filter_cons_False; [by apply IH|].
    simpl. intros ->. apply Hk, list_elem_of_fmap. by exists (k, v).
Qed.

Lemma entries_for_lookup {V} (k : string) (v : V) (d : gmap string V) :
  d !! k = Some v → entries_for k d = [(k, v)].
Proof.
  intros Hd. apply filter_key_NoDup; [apply NoDup_fst_map_to_list|].
  by apply elem_of_map_to_list.
Qed.

(** A successful [reload_plugin] of a loaded plugin tears the old object
    down and registers a new one. *)
Lemma entries_for_absent {V} (k : string) (d : gmap string V) :
  d !! k = None → entries_for k d = [].
Proof.
  intros Hk. unfold entries_for. apply filter_key_absent.
  intros [[k' v] [Heq Hin]]%list_elem_of_fmap. simpl in Heq. subst k'.
  apply elem_of_map_to_list in Hin. congruence.
Qed.

Lemma reload_plugin_replaces plugin obj s s' :
  _loaded_plugins s !! plugin = Some obj →
  reload_plugin plugin s = (s', Ok tt) →
  ∃ self obj',
    plugin_heap s !! obj = Some self
    ∧ _loaded_plugins s' = <[plugin := obj']> (_loaded_plugins s)
    ∧ obj' ≠ obj
    ∧ plugin_heap s' !! obj = Some (mkPlugin (plugin_name self) [] [])
    ∧ is_Some (plugin_heap s' !! obj')
    ∧ events s' = (events s ++ unload_events plugin obj self)%list.
Proof.
  intros Hp. unfold reload_plugin, reload_plugin_at.
  rewrite reload_plugin_body_unfold, unload_quietly_cases, Hp.
  destruct (unload_plugin plugin s) as [s1 [[]|e]] eqn:Hu; [|done].
  destruct (unload_plugin_Ok_inv _ _ _ _ Hp Hu) as (self & Ho & ->).
  assert (plugin_heap (unloaded plugin obj self s) !! obj
          = Some (mkPlugin (plugin_name self) [] [])) as Ht
    by (simpl; apply lookup_insert_eq).
  assert (_loaded_plugins (unloaded plugin obj self s)
          = delete plugin (_loaded_plugins s)) as Hr by done.
  assert (_loaded_plugins (unloaded plugin obj self s) !! plugin = None) as Hn
    by (simpl; apply lookup_delete_eq).
  assert (∀ s2, plugin_heap s2 = plugin_heap (unloaded plugin obj self s) →
                _loaded_plugins s2 = _loaded_plugins (unloaded plugin obj self s) →
                events s2 = events (unloaded plugin obj self s) →
            logged plugin (load_plugin_at 1 plugin) s2 = (s', Ok tt) →
            ∃ obj',
              _loaded_plugins s' = <[plugin := obj']> (_loaded_plugins s)
              ∧ obj' ≠ obj
              ∧ plugin_heap s' !! obj = Some (mkPlugin (plugin_name self) [] [])
              ∧ is_Some (plugin_heap s' !! obj')
              ∧ events s' = (events s ++ unload_events plugin obj self)%list) as Hload.
  { intros s2 Hh2 Hr2 He2. unfold logged, try_except.
    destruct (load_plugin_at 1 plugin s2) as [s3 [[]|e]] eqn:Hl; [|done].
    intros [= <-].
    apply load_plugin_fresh_spec in Hl as (_ & He3 & Hh3 & obj' & Hr3 & Hf & Hl3);
      [|by rewrite Hr2].
    exists obj'. split_and!; try done.
    - by rewrite Hr3, Hr2, Hr, insert_delete_eq.
    - intros ->. rewrite Hh2, Ht in Hf. done.
    - rewrite Hh3; rewrite Hh2; [done|]. rewrite Ht. eauto.
    - by rewrite He3, He2. }
  intros Hrun. cut (∃ obj',
              _loaded_plugins s' = <[plugin := obj']> (_loaded_plugins s)
              ∧ obj' ≠ obj
              ∧ plugin_heap s' !! obj = Some (mkPlugin (plugin_name self) [] [])
              ∧ is_Some (plugin_heap s' !! obj')
              ∧ events s' = (events s ++ unload_events plugin obj self)%list).
  { intros (obj' & ?). exists self, obj'. done. }
  revert Hrun. unfold logged at 1, try_except at 1. unfold mbind, M_bind, bind.
  destruct (_modules (unloaded plugin obj self s) !! plugin) as [m|].
  - destruct (importlib_reload m _) as [s2 [[]|e]] eqn:Hi; [|done].
    apply importlib_reload_frame in Hi as [heap ->].
    intros Hrun. apply (Hload (with_module_heap (λ _, heap) (unloaded plugin obj self s)));
      done.
  - unfold ret. intros Hrun. by apply (Hload (unloaded plugin obj self s)).
Qed.

Lemma load_plugin_Ok_source plugin s s' :
  load_plugin plugin s = (s', Ok tt) →
  ∃ path, cvars (world s) !! "qlx_pluginsPath" = Some path
          ∧ join (abspath path) (plugin ++ ".py") ∈ files (world s).
Proof.
  unfold load_plugin. cbn [load_plugin_at]. rewrite load_plugin_body_cases.
  destruct (cvars (world s) !! "qlx_pluginsPath") as [path|]; [|done].
  case_bool_decide; [|done]. eauto.
Qed.

Lemma load_plugin_redirects plugin path obj s :
  cvars (world s) !! "qlx_pluginsPath" = Some path →
  join (abspath path) (plugin ++ ".py") ∈ files (world s) →
  _loaded_plugins s !! plugin = Some obj →
  load_plugin plugin s = reload_plugin plugin (with_log (append (loading plugin)) s).
Proof.
  intros Hc Hf Hp. unfold load_plugin. cbn [load_plugin_at].
  rewrite load_plugin_body_cases, Hc, Hp. by rewrite bool_decide_eq_true_2.
Qed.

(** C2, as the code has it.  [load_plugin] of a plugin that is in the
    registry, its source file in place, is [reload_plugin] of it: no error
    about a second instance, at whatever nesting depth the call is made.
    Of two calls in a row, the first returning, the second is such a
    reload.  If it returns too, the registry has exactly one entry for the
    plugin: the second call tore the first object down and registered a
    new one under the same name, and the registry has the same names as
    after the first.  If it raises, either the unload it started with
    raised, and the entry with the first object is still there, or the
    unload went through and what followed failed, and the registry has no
    entry for the plugin. *)
Theorem load_plugin_again_reloads (plugin : string) (s : Runtime) :
  (∀ path obj,
     cvars (world s) !! "qlx_pluginsPath" = Some path →
     join (abspath path) (plugin ++ ".py") ∈ files (world s) →
     _loaded_plugins s !! plugin = Some obj →
     load_plugin plugin s
     = reload_plugin plugin (with_log (append (loading plugin)) s)
     ∧ ∀ d, load_plugin_at (S (S d)) plugin s = load_plugin plugin s)
  ∧ (∀ s1 s2,
       load_plugin plugin s = (s1, Ok tt) →
       load_plugin plugin s1 = (s2, Ok tt) →
       load_plugin plugin s1
       = reload_plugin plugin (with_log (append (loading plugin)) s1)
       ∧ ∃ obj1 self1 obj2,
           _loaded_plugins s1 !! plugin = Some obj1
           ∧ plugin_heap s1 !! obj1 = Some self1
           ∧ _loaded_plugins s2 = <[plugin := obj2]> (_loaded_plugins s1)
           ∧ entries_for plugin (_loaded_plugins s2) = [(plugin, obj2)]
           ∧ dom (_loaded_plugins s2) = dom (_loaded_plugins s1)
           ∧ obj2 ≠ obj1
           ∧ plugin_heap s2 !! obj1 = Some (mkPlugin (plugin_name self1) [] []))
  ∧ (∀ s1 s2 e,
       load_plugin plugin s = (s1, Ok tt) →
       load_plugin plugin s1 = (s2, Raise e) →
       load_plugin plugin s1
       = reload_plugin plugin (with_log (append (loading plugin)) s1)
       ∧ ∃ obj1,
           _loaded_plugins s1 !! plugin = Some obj1
           ∧ (((unload_plugin plugin (with_log (append (loading plugin)) s1)).2
               = Raise e
               ∧ _loaded_plugins s2 = _loaded_plugins s1
               ∧ entries_for plugin (_loaded_plugins s2) = [(plugin, obj1)])
              ∨ ((unload_plugin plugin (with_log (append (loading plugin)) s1)).2
                 = Ok tt
                 ∧ _loaded_plugins s2 = delete plugin (_loaded_plugins s1)
                 ∧ entries_for plugin (_loaded_plugins s2) = []))).
Proof.
  split_and!.
  - intros path obj Hc Hf Hp. split; [by eapply load_plugin_redirects|].
    intros d. apply load_plugin_at_enough.
  - intros s1 s2 H1 H2.
    destruct (load_plugin_Ok_source _ _ _ H1) as (path & Hc & Hf).
    apply load_plugin_outcome in H1 as (Hw & obj1 & Hr1 & Hl1).
    assert (_loaded_plugins s1 !! plugin = Some obj1) as Hp1
      by (rewrite Hr1; apply lookup_insert_eq).
    rewrite <- Hw in Hc, Hf.
    pose proof (load_plugin_redirects _ _ _ _ Hc Hf Hp1) as Hred.
    split; [done|]. rewrite Hred in H2.
    apply (reload_plugin_replaces plugin obj1) in H2 as
      (self1 & obj2 & Ho1 & Hr2 & Hne & Ht & _ & _); [|done].
    simpl in *. exists obj1, self1, obj2. split_and!; try done.
    + apply entries_for_lookup. rewrite Hr2. apply lookup_insert_eq.
    + rewrite Hr2, dom_insert_L. apply elem_of_dom_2 in Hp1. set_solver.
  - intros s1 s2 e H1 H2.
    destruct (load_plugin_Ok_source _ _ _ H1) as (path & Hc & Hf).
    apply load_plugin_outcome in H1 as (Hw & obj1 & Hr1 & Hl1).
    assert (_loaded_plugins s1 !! plugin = Some obj1) as Hp1
      by (rewrite Hr1; apply lookup_insert_eq).
    rewrite <- Hw in Hc, Hf.
    pose proof (load_plugin_redirects _ _ _ _ Hc Hf Hp1) as Hred.
    split; [done|]. rewrite Hred in H2. exists obj1. split; [done|].
    apply reload_plugin_Raise_registry in H2.
    rewrite unload_quietly_cases in H2.
    cbn [with_log _loaded_plugins] in H2. rewrite Hp1 in H2.
    destruct H2 as [[Hu Hr2]|[Hu Hr2]]; cbn [with_log _loaded_plugins] in Hr2.
    + left. split_and!; [by rewrite Hu|done|].
      apply entries_for_lookup. by rewrite Hr2.
    + right. split_and!; [done|done|].
      apply entries_for_absent. rewrite Hr2. apply lookup_delete_eq.
Qed.
End loader_facts.

(** *** Nothing the loader does depends on the log *)

Lemma erase_log_inv s t :
  erase_log s = erase_log t →
  world s = world t ∧ sys_modules s = sys_modules t
  ∧ module_heap s = module_heap t ∧ _modules s = _modules t
  ∧ _loaded_plugins s = _loaded_plugins t ∧ plugin_heap s = plugin_heap t
  ∧ hook_table s = hook_table t ∧ command_table s = command_table t
  ∧ events s = events t.
Proof. destruct s, t. unfold erase_log, with_log. simpl. by intros [=]. Qed.

Lemma blind_ret {A} (a : A) : blind (mret a).
Proof. by intros s t E. Qed.

Lemma blind_raise {A} e : blind (@raise A e).
Proof. by intros s t E. Qed.

Lemma blind_bind {A B} (m : M A) (k : A → M B) :
  blind m → (∀ a, blind (k a)) → blind (m ≫= k).
Proof.
  intros Hm Hk s t E. unfold mbind, M_bind, bind.
  destruct (Hm s t E) as [E1 E2].
  destruct (m s) as [s1 r1], (m t) as [t1 r2]. simpl in *. subst r2.
  destruct r1 as [a|e]; [by apply Hk|done].
Qed.

Lemma blind_try_except {A} (m : M A) (h : exn → M A) :
  blind m → (∀ e, blind (h e)) → blind (try_except m h).
Proof.
  intros Hm Hh s t E. unfold try_except.
  destruct (Hm s t E) as [E1 E2].
  destruct (m s) as [s1 r1], (m t) as [t1 r2]. simpl in *. subst r2.
  destruct r1 as [a|e]; [done|by apply Hh].
Qed.

Lemma blind_gets {A} (proj : Runtime → A) :
  (∀ s t, erase_log s = erase_log t → proj s = proj t) → blind (gets proj).
Proof. intros Hp s t E. unfold gets. simpl. split; [done|]. f_equal. by apply Hp. Qed.

Lemma blind_modify (f : Runtime → Runtime) :
  (∀ s t, erase_log s = erase_log t → erase_log (f s) = erase_log (f t)) →
  blind (modify f).
Proof. intros Hf s t E. unfold modify. simpl. split; [by apply Hf|done]. Qed.

Lemma blind_for_each {A} (xs : list A) (body : A → M unit) :
  (∀ x, blind (body x)) → blind (for_each xs body).
Proof.
  intros Hb. induction xs as [|x xs IH]; simpl.
  - apply blind_ret.
  - apply blind_bind; [apply Hb|]. intros _. apply IH.
Qed.

Create HintDb blind.

Ltac blind_fields :=
  let E := fresh "E" in
  intros [] [] E; apply erase_log_inv in E; simpl in E; destruct_and!;
  subst; reflexivity.

Lemma blind_logged plugin m : blind m → blind (logged plugin m).
Proof.
  intros Hm. unfold logged. apply blind_try_except; [done|]. intros e.
  apply blind_bind; [|intros _; apply blind_raise].
  unfold log_exception. apply blind_modify. blind_fields.
Qed.

Ltac blind_step :=
  lazymatch goal with
  | |- blind (logged _ _) => apply blind_logged
  | |- blind (mret _) => apply blind_ret
  | |- blind (ret _) => apply blind_ret
  | |- blind (raise _) => apply blind_raise
  | |- blind (_ ≫= _) => apply blind_bind; [|intros ?]
  | |- blind (gets _) => apply blind_gets; blind_fields
  | |- blind (modify _) => apply blind_modify; blind_fields
  | |- blind (try_except _ _) => apply blind_try_except; [|intros ?]
  | |- blind (for_each _ _) => apply blind_for_each; intros ?
  | |- blind (match ?x with _ => _ end) => destruct x
  | |- blind _ => solve [auto with blind]
  end.

Ltac blind_auto := repeat blind_step.

Lemma blind_logger_info logger msg : blind (logger_info logger msg).
Proof. unfold logger_info. blind_auto. Qed.
Lemma blind_log_exception plugin e : blind (log_exception plugin e).
Proof. unfold log_exception. blind_auto. Qed.
#[local] Hint Resolve blind_logger_info blind_log_exception : blind.

Lemma blind_get_cvar name : blind (get_cvar name).
Proof. unfold get_cvar. blind_auto. Qed.
Lemma blind_isdir path : blind (isdir path).
Proof. unfold isdir. blind_auto. Qed.
Lemma blind_isfile path : blind (isfile path).
Proof. unfold isfile. blind_auto. Qed.
Lemma blind_deref_module m : blind (deref_module m).
Proof. unfold deref_module. blind_auto. Qed.
Lemma blind_execute_source name : blind (execute_source name).
Proof. unfold execute_source. blind_auto. Qed.
#[local] Hint Resolve blind_get_cvar blind_isdir blind_isfile blind_deref_module
  blind_execute_source : blind.

Lemma blind_import_module name : blind (import_module name).
Proof. unfold import_module. blind_auto. Qed.
Lemma blind_importlib_reload m : blind (importlib_reload m).
Proof. unfold importlib_reload. blind_auto. Qed.
Lemma blind_hasattr m name : blind (hasattr m name).
Proof. unfold hasattr. blind_auto. Qed.
Lemma blind_getattr m name : blind (getattr m name).
Proof. unfold getattr. blind_auto. Qed.
Lemma blind_issubclass_Plugin cls : blind (issubclass_Plugin cls).
Proof. unfold issubclass_Plugin. blind_auto. Qed.
Lemma blind_dispatch event plugin : blind (dispatch event plugin).
Proof. unfold dispatch. blind_auto. Qed.
Lemma blind_deref_plugin obj : blind (deref_plugin obj).
Proof. unfold deref_plugin. blind_auto. Qed.
#[local] Hint Resolve blind_import_module blind_importlib_reload blind_hasattr
  blind_getattr blind_issubclass_Plugin blind_dispatch blind_deref_plugin : blind.

Lemma blind_hooks obj : blind (hooks obj).
Proof. unfold hooks. blind_auto. Qed.
Lemma blind_commands obj : blind (commands obj).
Proof. unfold commands. blind_auto. Qed.
Lemma blind_add_hook obj h : blind (add_hook obj h).
Proof. unfold add_hook. blind_auto. Qed.
Lemma blind_add_command obj c : blind (add_command obj c).
Proof. unfold add_command. blind_auto. Qed.
Lemma blind_remove_hook obj h : blind (remove_hook obj h).
Proof. unfold remove_hook. blind_auto. Qed.
Lemma blind_remove_command obj name handler : blind (remove_command obj name handler).
Proof. unfold remove_command. blind_auto. Qed.
Lemma blind_loaded_plugin plugin : blind (loaded_plugin plugin).
Proof. unfold loaded_plugin. blind_auto. Qed.
#[local] Hint Resolve blind_hooks blind_commands blind_add_hook blind_add_command
  blind_remove_hook blind_remove_command blind_loaded_plugin : blind.

Lemma blind_init_step obj step : blind (init_step obj step).
Proof. unfold init_step. blind_auto. Qed.
#[local] Hint Resolve blind_init_step : blind.
Lemma blind_instantiate cls : blind (instantiate cls).
Proof. unfold instantiate. blind_auto. Qed.
Lemma blind_del_loaded_plugin plugin : blind (del_loaded_plugin plugin).
Proof. unfold del_loaded_plugin. blind_auto. Qed.
#[local] Hint Resolve blind_instantiate blind_del_loaded_plugin : blind.

Lemma blind_unload_plugin plugin : blind (unload_plugin plugin).
Proof. unfold unload_plugin. blind_auto. Qed.
#[local] Hint Resolve blind_unload_plugin : blind.

Section log_blind.
Context `{OsPath}.

Lemma blind_get_plugins_path : blind get_plugins_path.
Proof. unfold get_plugins_path. blind_auto. Qed.
Hint Resolve blind_get_plugins_path : blind.

Lemma blind_load_plugin_try dir plugin : blind (load_plugin_try dir plugin).
Proof. unfold load_plugin_try. blind_auto. Qed.
Hint Resolve blind_load_plugin_try : blind.

Lemma blind_load_plugin_body reload plugin :
  (∀ p, blind (reload p)) → blind (load_plugin_body reload plugin).
Proof. intros Hr. unfold load_plugin_body. blind_auto. Qed.

Lemma blind_reload_plugin_body load plugin :
  (∀ p, blind (load p)) → blind (reload_plugin_body load plugin).
Proof. intros Hl. unfold reload_plugin_body. blind_auto. Qed.

Lemma blind_load_plugin_at depth : ∀ plugin, blind (load_plugin_at depth plugin).
Proof.
  induction depth as [|d IH]; intros plugin; simpl.
  - apply blind_raise.
  - apply blind_load_plugin_body. intros p. by apply blind_reload_plugin_body.
Qed.

Lemma importlib_reload_Raise m s s' e :
  importlib_reload m s = (s', Raise e) → is_PluginUnloadError e = false.
Proof.
  unfold importlib_reload, deref_module, execute_source. munfold. simpl.
  destruct (module_heap s !! m) as [module|]; simpl; [|by intros [= <- <-]].
  case_bool_decide; simpl; [|by intros [= <- <-]].
  destruct (sources (world s) !! mod_name module) as [[tag|members]|]; simpl;
    by intros [= <- <-].
Qed.

Lemma reload_plugin_continues plugin s s1 :
  unload_quietly plugin s = (s1, Ok tt) →
  reload_plugin plugin s = reload_then_load plugin s1.
Proof.
  intros Hu. unfold reload_plugin, reload_plugin_at.
  rewrite reload_plugin_body_unfold, Hu. reflexivity.
Qed.

Lemma reload_then_load_no_module plugin s :
  _modules s !! plugin = None →
  reload_then_load plugin s = logged plugin (load_plugin_at 1 plugin) s.
Proof.
  intros Hm. unfold reload_then_load, logged, try_except.
  erewrite bind_Ok; [|reflexivity]. cbv beta. rewrite Hm.
  erewrite bind_Ok; [|reflexivity]. done.
Qed.

(** C3, as the code has it.  [reload_plugin] starts with [unload_plugin]:
    after a successful unload it goes on to re-import and load; a
    [PluginUnloadError] from the unload is swallowed and it goes on in the
    same way; any other exception from the unload is the outcome of the
    reload.  For a plugin that is not in the registry and has no module
    kept from an earlier attempt, the reload is [load_plugin] run after
    the line that announces the unloading is logged, with a failure
    logged once more: it returns or raises what [load_plugin] does, never
    a [PluginUnloadError], and leaves the state [load_plugin] leaves, the
    log lines apart. *)
Theorem reload_plugin_unloads_first (plugin : string) (s : Runtime) :
  (∀ s1, unload_plugin plugin s = (s1, Ok tt) →
         reload_plugin plugin s = reload_then_load plugin s1)
  ∧ (∀ s1 e, unload_plugin plugin s = (s1, Raise e) →
             is_PluginUnloadError e = true →
             reload_plugin plugin s = reload_then_load plugin s1)
  ∧ (∀ s1 e, unload_plugin plugin s = (s1, Raise e) →
             is_PluginUnloadError e = false →
             reload_plugin plugin s = (s1, Raise e))
  ∧ (_loaded_plugins s !! plugin = None →
     _modules s !! plugin = None →
     (unload_plugin plugin s).2
     = Raise (PluginUnloadError "Attempted to unload a plugin that is not loaded.")
     ∧ (reload_plugin plugin s).2 = (load_plugin plugin s).2
     ∧ erase_log (reload_plugin plugin s).1 = erase_log (load_plugin plugin s).1
     ∧ (∀ e, (reload_plugin plugin s).2 = Raise e → is_PluginUnloadError e = false)
     ∧ reload_plugin plugin s
       = logged plugin (load_plugin plugin) (with_log (append (unloading plugin)) s)).
Proof.
  split_and!.
  - intros s1 Hu. apply reload_plugin_continues.
    unfold unload_quietly, try_except. by rewrite Hu.
  - intros s1 e Hu He. apply reload_plugin_continues.
    unfold unload_quietly, try_except. by rewrite Hu, He.
  - intros s1 e Hu He. unfold reload_plugin, reload_plugin_at.
    rewrite reload_plugin_body_unfold. unfold unload_quietly, try_except.
    by rewrite Hu, He.
  - intros Hp Hm.
    assert (unload_quietly plugin s = (with_log (append (unloading plugin)) s, Ok tt))
      as Hq by (by rewrite unload_quietly_cases, Hp).
    assert (reload_plugin plugin s
            = logged plugin (load_plugin plugin)
                (with_log (append (unloading plugin)) s)) as Heq.
    { rewrite (reload_plugin_continues _ _ _ Hq).
      rewrite reload_then_load_no_module by done.
      unfold logged, try_except, load_plugin.
      by rewrite (load_plugin_at_fresh 1). }
    cut ((unload_plugin plugin s).2
         = Raise (PluginUnloadError "Attempted to unload a plugin that is not loaded.")
         ∧ (reload_plugin plugin s).2 = (load_plugin plugin s).2
         ∧ erase_log (reload_plugin plugin s).1 = erase_log (load_plugin plugin s).1
         ∧ (∀ e, (reload_plugin plugin s).2 = Raise e
                 → is_PluginUnloadError e = false)).
    { intros (? & ? & ? & ?). by split_and!. }
    clear Heq.
    pose proof (unload_plugin_cases plugin s) as Hc. rewrite Hp in Hc.
    split; [by rewrite Hc|].
    rewrite (reload_plugin_continues _ _ _ Hq).
    rewrite reload_then_load_no_module by done.
    unfold logged, try_except.
    unfold load_plugin. rewrite (load_plugin_at_fresh 1) by done.
    destruct (blind_load_plugin_at 1 plugin
                (with_log (append (unloading plugin)) s) s eq_refl) as [E1 E2].
    destruct (load_plugin_at 1 plugin (with_log (append (unloading plugin)) s))
      as [s1 r1] eqn:Hl1.
    destruct (load_plugin_at 1 plugin s) as [s2 r2] eqn:Hl2.
    simpl in E1, E2. subst r2.
    apply load_plugin_fresh_spec in Hl2 as (_ & _ & _ & Hr); [|done].
    destruct r1 as [[]|e]; simpl.
    + split_and!; [done|done|]. by intros e [=].
    + split_and!; [done|done|]. intros e' [= <-]. apply Hr.
Qed.
End log_blind.

(** *** The preset *)

Section preset_facts.
Context `{OsPath}.

Lemma for_each_ext {A} (xs : list A) (f g : A → M unit) :
  Forall (λ x, f x = g x) xs → for_each xs f = for_each xs g.
Proof.
  induction 1 as [|x xs Hx _ IH]; simpl; [done|]. by rewrite Hx, IH.
Qed.

(** C7, as the code has it.  Without the plugins directory
    [load_preset_plugins] raises [PluginLoadError], the class of the load
    errors, and touches nothing: no plugin is loaded.  With the directory
    in place, and the names of the preset written without blanks around
    them, it drops the names that are loaded modules of the plugins
    directory's package and calls [load_plugin] on the others in the
    order of the preset. *)
Theorem load_preset_plugins_loads_in_order (path : string) (s : Runtime) :
  cvars (world s) !! "qlx_pluginsPath" = Some path →
  (abspath path ∉ dirs (world s) →
   load_preset_plugins s
   = (s, Raise (PluginLoadError
                  ("Cannot find the plugins directory '"
                   ++ abspath (abspath path) ++ "'."))))
  ∧ (∀ preset,
       abspath path ∈ dirs (world s) →
       cvars (world s) !! "qlx_plugins" = Some preset →
       Forall (λ p, strip p = p) (split comma preset) →
       load_preset_plugins s
       = for_each
           (filter (λ p, sys_modules s !! (basename (abspath path) ++ "." ++ p) = None)
              (split comma preset))
           load_plugin s).
Proof.
  intros Hc. unfold load_preset_plugins, get_plugins_path, get_cvar, isdir.
  munfold. simpl. rewrite Hc. simpl. split.
  - intros Hd. by rewrite bool_decide_eq_false_2.
  - intros preset Hd Hp Hs. rewrite bool_decide_eq_true_2 by done.
    rewrite Hp. simpl.
    set (keep := filter _ (split comma preset)).
    assert (Forall (λ p, strip p = p) keep) as Hk.
    { apply Forall_forall. intros p [_ Hin]%list_elem_of_filter.
      by eapply Forall_forall in Hs. }
    assert (strip <$> keep = keep) as ->.
    { clear -Hk. induction Hk as [|p ps Hp _ IH]; [done|].
      by rewrite fmap_cons, Hp, IH. }
    erewrite for_each_ext; [done|].
    eapply Forall_impl; [exact Hk|]. simpl. by intros p ->.
Qed.
End preset_facts.

(** The claim about the missing directory fails as worded: the exception
    is a [PluginLoadError]. *)
Lemma missing_directory_raises_load_error :
  ¬ @missing_directory_is_no_load_error posix_paths sample_no_directory.
Proof.
  intros Hclaim.
  destruct (Hclaim "/ql/minqlx-plugins") as (e & He & Hne).
  - reflexivity.
  - vm_compute. set_solver.
  - vm_compute in He. injection He as <-. discriminate Hne.
Qed.

(** The claim about two loads in a row fails as worded: the second call,
    a reload, unloads the plugin and then fails on the broken source, and
    the registry is left with no entry for the plugin. *)
Lemma load_twice_can_leave_no_entry :
  ¬ @load_twice_leaves_one_entry posix_paths "ban" sample_reimport_broken.
Proof.
  intros Hclaim.
  destruct (Hclaim "/ql/minqlx-plugins"
              (@load_plugin posix_paths "ban" sample_reimport_broken).1)
    as [obj Hobj].
  - reflexivity.
  - apply (bool_decide_unpack _). vm_compute. exact I.
  - vm_compute. reflexivity.
  - vm_compute in Hobj. discriminate Hobj.
Qed.

(** The claim about reloading a plugin that is not loaded fails as worded.
    With a module kept from a failed load, the reload runs the corrected
    source and succeeds where [load_plugin] raises; and for a plugin no
    load was ever tried for, the two leave different logs. *)
Lemma reload_of_unloaded_differs_from_load :
  ¬ @reload_of_unloaded_returns_as_load posix_paths "motd" sample_motd_fixed
  ∧ ¬ @reload_of_never_loaded_is_load posix_paths "ban" sample_start.
Proof.
  split.
  - intros Hclaim. specialize (Hclaim eq_refl).
    vm_compute in Hclaim. discriminate Hclaim.
  - intros Hclaim. specialize (Hclaim eq_refl eq_refl).
    apply (f_equal (λ r, length (log r.1))) in Hclaim.
    vm_compute in Hclaim. discriminate Hclaim.
Qed.

(** *** The theorems on the sample host *)

Lemma unload_plugin_tears_down_witness :
  _loaded_plugins (unload_plugin "ban" sample_loaded).1 !! "ban" = None
  ∧ plugin_heap (unload_plugin "ban" sample_loaded).1 !! 0
    = Some (mkPlugin "ban" [] [])
  ∧ events (unload_plugin "ban" sample_loaded).1
    = [EvDispatch "unload" "ban"
         (Some (mkPlugin "ban" [sample_hook] [sample_command]));
       EvRemoveHook 0 sample_hook; EvRemoveCommand 0 "ban" "cmd_ban"].
Proof.
  destruct (unload_plugin_tears_down "ban" 0 sample_loaded
              (unload_plugin "ban" sample_loaded).1)
    as (self & Ho & _ & He & Hh & _ & Hn).
  - vm_compute. reflexivity.
  - vm_compute. reflexivity.
  - assert (self = mkPlugin "ban" [sample_hook] [sample_command]) as ->.
    { vm_compute in Ho. by injection Ho as <-. }
    split_and!; [exact Hn|exact Hh|exact He].
Defined.

Lemma unload_plugin_not_loaded_witness :
  unload_plugin "clan" sample_loaded
  = (with_log (append (unloading "clan")) sample_loaded,
     Raise (PluginUnloadError "Attempted to unload a plugin that is not loaded."))
  ∧ _loaded_plugins (unload_plugin "clan" sample_loaded).1 = _loaded_plugins sample_loaded.
Proof.
  destruct (unload_plugin_not_loaded "clan" sample_loaded) as (H1 & H2 & _).
  - vm_compute. reflexivity.
  - split; [exact H1|exact H2].
Defined.

Lemma load_plugin_missing_source_first_witness :
  @load_plugin posix_paths "ban" sample_source_gone
  = (with_log (append (loading "ban")) sample_source_gone,
     Raise (PluginLoadError "No such plugin exists."))
  ∧ _loaded_plugins (@load_plugin posix_paths "ban" sample_source_gone).1 !! "ban"
    = Some 0.
Proof.
  destruct (@load_plugin_missing_source_first posix_paths "ban" "/ql/minqlx-plugins"
              0 sample_source_gone) as (H1 & _ & H2 & _).
  - vm_compute. reflexivity.
  - vm_compute. set_solver.
  - vm_compute. reflexivity.
  - split; [exact H1|exact H2].
Defined.

Lemma load_plugin_failure_adds_no_entry_witness :
  (@load_plugin posix_paths "motd" sample_start).2 = Raise (HostError "RuntimeError")
  ∧ _modules (@load_plugin posix_paths "motd" sample_start).1 !! "motd" = Some 0
  ∧ _loaded_plugins (@load_plugin posix_paths "motd" sample_start).1 !! "motd" = None.
Proof.
  split; [vm_compute; reflexivity|].
  destruct (proj2 (proj2 (@load_plugin_failure_adds_no_entry posix_paths "motd"
                            sample_start))
              "/ql/minqlx-plugins" 0
              (@import_module "minqlx-plugins.motd" sample_start).1
              (@load_plugin posix_paths "motd" sample_start).1
              (HostError "RuntimeError")) as (H1 & _ & H2).
  - vm_compute. reflexivity.
  - apply (bool_decide_unpack _). vm_compute. exact I.
  - vm_compute. reflexivity.
  - vm_compute. reflexivity.
  - vm_compute. reflexivity.
  - split; [exact H1|exact H2].
Defined.

Lemma load_plugin_again_reloads_witness :
  entries_for "ban" (_loaded_plugins (@load_plugin posix_paths "ban" sample_loaded).1)
  = [("ban", 1)]
  ∧ entries_for "ban"
      (_loaded_plugins
         (@load_plugin posix_paths "ban"
            (@load_plugin posix_paths "ban" sample_reimport_broken).1).1)
    = [].
Proof.
  split.
  - destruct (proj1 (proj2 (@load_plugin_again_reloads posix_paths "ban" sample_start))
                sample_loaded (@load_plugin posix_paths "ban" sample_loaded).1)
      as (_ & obj1 & self1 & obj2 & _ & _ & Hr & He & _).
    + vm_compute. reflexivity.
    + vm_compute. reflexivity.
    + assert (obj2 = 1) as ->; [|exact He].
      apply (f_equal (λ m, m !! "ban")) in Hr. rewrite lookup_insert_eq in Hr.
      vm_compute in Hr. by injection Hr as <-.
  - destruct (proj2 (proj2 (@load_plugin_again_reloads posix_paths "ban"
                              sample_reimport_broken))
                (@load_plugin posix_paths "ban" sample_reimport_broken).1
                (@load_plugin posix_paths "ban"
                   (@load_plugin posix_paths "ban" sample_reimport_broken).1).1
                (HostError "SyntaxError"))
      as (_ & obj1 & _ & [(Hu & _)|(_ & _ & He)]).
    + vm_compute. reflexivity.
    + vm_compute. reflexivity.
    + vm_compute in Hu. discriminate Hu.
    + exact He.
Defined.

Lemma reload_plugin_unloads_first_witness :
  (@reload_plugin posix_paths "ban" sample_start).2
  = (@load_plugin posix_paths "ban" sample_start).2
  ∧ erase_log (@reload_plugin posix_paths "ban" sample_start).1
    = erase_log (@load_plugin posix_paths "ban" sample_start).1.
Proof.
  destruct (proj2 (proj2 (proj2 (@reload_plugin_unloads_first posix_paths "ban"
                                   sample_start))))
    as (_ & H1 & H2 & _).
  - vm_compute. reflexivity.
  - vm_compute. reflexivity.
  - split; [exact H1|exact H2].
Defined.

Lemma load_preset_plugins_loads_in_order_witness :
  @load_preset_plugins posix_paths sample_start
  = for_each ["ban"; "motd"] (@load_plugin posix_paths) sample_start
  ∧ (@load_preset_plugins posix_paths sample_start).2 = Raise (HostError "RuntimeError")
  ∧ dom (_loaded_plugins (@load_preset_plugins posix_paths sample_start).1)
    = {[ "ban" ]}.
Proof.
  split.
  - apply (proj2 (@load_preset_plugins_loads_in_order posix_paths
                    "/ql/minqlx-plugins" sample_start eq_refl) "ban,motd").
    + apply (bool_decide_unpack _). vm_compute. exact I.
    + vm_compute. reflexivity.
    + apply (bool_decide_unpack _). vm_compute. exact I.
  - split; [vm_compute; reflexivity|].
    apply (bool_decide_unpack _). vm_compute. exact I.
Defined.

(** The failures after the import that C4 names, on the sample host: the
    module stays in [_modules], the registry stays empty, and the hook the
    failed constructor registered stays in the host's table. *)
Example load_plugin_failures_after_import :
  (@load_plugin posix_paths "clan" sample_start).2
  = Raise (PluginLoadError
      "The plugin needs to have a class with the exact name as the file, minus the .py.")
  ∧ (@load_plugin posix_paths "essentials" sample_start).2
    = Raise (PluginLoadError
        "Attempted to load a plugin that is not a subclass of 'minqlx.Plugin'.")
  ∧ (@load_plugin posix_paths "motd" sample_start).2 = Raise (HostError "RuntimeError")
  ∧ map_to_list (_modules (@load_plugin posix_paths "clan" sample_start).1)
    = [("clan", 0)]
  ∧ _loaded_plugins (@load_plugin posix_paths "clan" sample_start).1 = ∅
  ∧ hook_table (@load_plugin posix_paths "motd" sample_start).1
    = [("motd", sample_hook)]
  ∧ (@load_plugin posix_paths "nothere" sample_start).2
    = Raise (PluginLoadError "No such plugin exists.").
Proof. split_and!; vm_compute; reflexivity. Qed.

(** Two tasks with the same fire-time and priority fire in the order they
    were scheduled, and a task scheduled while the pump runs waits. *)
Example pump_order :
  let later := Action "later" [] in
  let s := next_frame (Action "second" []) [] []
             (next_frame (Action "first" [NextFrame later [] []]) [] []
                (mkSched 0 0 [] 0 [])) in
  (λ e, (e.1, label (action e.2))) <$> fired (pump s)
  = [(0, "first"); (0, "second")]
  ∧ (λ e, (e.1, label (action e.2))) <$> fired (tick 1 (pump s))
    = [(0, "first"); (0, "second"); (1, "later")].
Proof. split; vm_compute; reflexivity. Qed.

(** A blank after the comma keeps a loaded plugin in the preset: the
    module name is looked up before the name is stripped. *)
Example preset_filter_looks_up_unstripped :
  let host preset :=
    mkRuntime
      (mkWorld {[ "qlx_pluginsPath" := "/ql/minqlx-plugins"; "qlx_plugins" := preset ]}
         (dirs sample_world) (files sample_world) (sources sample_world) ∅)
      (sys_modules sample_loaded) (module_heap sample_loaded)
      (_modules sample_loaded) (_loaded_plugins sample_loaded)
      (plugin_heap sample_loaded) [] [] [] [] in
  sys_modules sample_loaded !! "minqlx-plugins.ban" = Some 0
  ∧ @load_preset_plugins posix_paths (host "ban,ban") = (host "ban,ban", Ok tt)
  ∧ @load_preset_plugins posix_paths (host "ban, ban")
    = @load_plugin posix_paths "ban" (host "ban, ban").
Proof. split_and!; vm_compute; reflexivity. Qed.

(** * Further properties *)

(** ** parse_variables *)

Lemma parse_variables_eq_spec varstr ordered :
  parse_variables varstr ordered = decode_spec varstr ordered.
Proof.
  unfold parse_variables, decode_spec, tokens_of.
  rewrite strip_blank. destruct (all_space varstr); [done|].
  rewrite fill_pairs_range.
  destruct (Nat.even _); [|done]. by rewrite store_all_decoded.
Qed.

Lemma length_split sep s : length (split sep s) = S (count_char sep s).
Proof.
  induction s as [|c s IH]; [done|]. simpl.
  destruct (Ascii.eqb c sep); simpl; [by rewrite IH|].
  destruct (split sep s); simpl in *; lia.
Qed.

Lemma split_free sep s : Forall (λ t, count_char sep t = 0) (split sep s).
Proof.
  induction s as [|c s IH]; simpl; [by repeat constructor|].
  destruct (Ascii.eqb c sep) eqn:E; [by constructor|].
  destruct (split sep s) as [|t ts]; simpl.
  - repeat constructor. simpl. by rewrite E.
  - apply Forall_cons in IH as [Ht Hts]. constructor; [|done]. simpl. by rewrite E.
Qed.

Lemma split_whole sep s : count_char sep s = 0 → split sep s = [s].
Proof.
  induction s as [|c s IH]; [done|]. simpl.
  destruct (Ascii.eqb c sep); [done|]. simpl. intros Hs. by rewrite IH.
Qed.

Lemma split_app_sep sep a b :
  count_char sep a = 0 → split sep (a ++ String sep b) = a :: split sep b.
Proof.
  induction a as [|c a IH]; simpl.
  - intros _. change ("" ++ String sep b) with (String sep b). simpl.
    by rewrite Ascii.eqb_refl.
  - destruct (Ascii.eqb c sep); [done|]. simpl.
    intros Ha. by rewrite IH.
Qed.

Lemma lstrip_unstarted c s :
  (∀ s', s ≠ String c s') → lstrip c s = s.
Proof.
  destruct s as [|c' s]; [done|]. intros Hs. unfold lstrip. simpl.
  destruct (Ascii.eqb_spec c c') as [->|]; [by destruct (Hs s)|done].
Qed.

Lemma lstrip_cons c s : lstrip c (String c s) = lstrip c s.
Proof. unfold lstrip. simpl. by rewrite Ascii.eqb_refl. Qed.

Lemma all_space_cons c s : all_space (String c s) = isspace c && all_space s.
Proof. done. Qed.

Lemma all_space_backslash_free s : all_space s = true → count_char backslash s = 0.
Proof.
  induction s as [|c s IH]; [done|]. rewrite all_space_cons.
  intros [Hc Hs]%andb_prop. simpl. rewrite IH by done.
  destruct (Ascii.eqb_spec c backslash) as [->|]; [done|done].
Qed.

Lemma count_char_lstrip_zero c s : count_char c s = 0 → lstrip c s = s.
Proof.
  intros Hs. apply lstrip_unstarted. intros s' ->. simpl in Hs.
  by rewrite Ascii.eqb_refl in Hs.
Qed.

(** X1.  Whether [parse_variables] returns is a matter of counting: a blank
    input always decodes, and any other input decodes exactly when what is
    left after its leading backslashes holds an odd number of
    backslashes. *)
Theorem parse_variables_returns_iff (varstr : string) (ordered : bool) :
  is_Some (returned (parse_variables varstr ordered))
  ↔ all_space varstr = true
    ∨ Nat.odd (count_char backslash (lstrip backslash varstr)) = true.
Proof.
  rewrite parse_variables_eq_spec. unfold decode_spec, tokens_of.
  rewrite length_split, Nat.even_succ.
  destruct (all_space varstr); [by split; eauto|].
  destruct (Nat.odd _); simpl; split; eauto; intros H.
  - by destruct H.
  - by destruct H.
Qed.

Lemma pairs_flatten (kvs : list (string * string)) :
  pairs (flatten_pairs kvs) = kvs.
Proof. induction kvs as [|[k v] kvs IH]; [done|]. simpl. by rewrite IH. Qed.

Lemma length_flatten_even (kvs : list (string * string)) :
  Nat.even (length (flatten_pairs kvs)) = true.
Proof. induction kvs as [|[k v] kvs IH]; [done|]. simpl. exact IH. Qed.

Lemma append_empty (s : string) : s ++ "" = s.
Proof. induction s as [|c s IH]; [done|]. by rewrite append_cons, IH. Qed.

(** The tokens of an info string without its first backslash. *)
Lemma split_info_string k v kvs :
  backslash_free k → backslash_free v →
  Forall (λ kv, backslash_free kv.1 ∧ backslash_free kv.2) kvs →
  split backslash (k ++ String backslash (v ++ info_string kvs))
  = flatten_pairs ((k, v) :: kvs).
Proof.
  intros Hk Hv Hall. revert k v Hk Hv.
  induction Hall as [|[k' v'] kvs [Hk' Hv'] _ IH]; intros k v Hk Hv.
  - cbn [info_string flatten_pairs]. rewrite split_app_sep by done.
    by rewrite append_empty, split_whole.
  - rewrite split_app_sep by done. cbn [info_string].
    rewrite split_app_sep by done. rewrite IH by done. done.
Qed.

(** X2.  Decoding gives back what was written: the info string of a list
    of pairs, none of them holding a backslash and the first key not
    empty, decodes to these pairs (a key written twice keeps its later
    value). *)
Theorem parse_variables_info_string (k v : string) (kvs : list (string * string))
    (ordered : bool) :
  k ≠ EmptyString →
  Forall (λ kv, backslash_free kv.1 ∧ backslash_free kv.2) ((k, v) :: kvs) →
  parse_variables (info_string ((k, v) :: kvs)) ordered
  = Ok (decoded ordered ((k, v) :: kvs)).
Proof.
  intros Hne Hall. apply Forall_cons in Hall as [[Hk Hv] Hall]. simpl in Hk, Hv.
  rewrite parse_variables_eq_spec. unfold decode_spec, tokens_of.
  cbn [info_string]. rewrite all_space_cons.
  change (isspace backslash) with false. cbn [andb].
  rewrite lstrip_cons.
  rewrite lstrip_unstarted; last first.
  { intros s' Hs. destruct k as [|c k]; [done|]. rewrite append_cons in Hs.
    injection Hs as -> _. unfold backslash_free in Hk.
    cbn [count_char] in Hk. by rewrite Ascii.eqb_refl in Hk. }
  rewrite split_info_string by done.
  by rewrite length_flatten_even, pairs_flatten.
Qed.

Lemma parse_variables_info_string_witness :
  parse_variables (info_string [("sv_hostname", "duel server"); ("g_gametype", "1")]) true
  = Ok (decoded true [("sv_hostname", "duel server"); ("g_gametype", "1")]).
Proof.
  apply (parse_variables_info_string "sv_hostname" "duel server" [("g_gametype", "1")] true).
  - discriminate.
  - repeat constructor.
Defined.

(** X3.  The leading backslash is optional, and so is any number of them:
    an input that is not blank decodes to the same dictionary, or fails
    alike, with one more backslash in front.  Blank inputs are the
    exception: they decode to the empty dictionary, and with a backslash
    in front they are an error. *)
Theorem parse_variables_leading_backslash (varstr : string) (ordered : bool) :
  (all_space varstr = false →
   returned (parse_variables (String backslash varstr) ordered)
   = returned (parse_variables varstr ordered))
  ∧ (all_space varstr = true →
     parse_variables varstr ordered = Ok (empty_dict ordered)
     ∧ parse_variables (String backslash varstr) ordered
       = Raise (ValueError ("Uneven number of keys and values: "
                            ++ String backslash varstr))).
Proof.
  rewrite !parse_variables_eq_spec. unfold decode_spec, tokens_of.
  rewrite all_space_cons. change (isspace backslash) with false. cbn [andb].
  rewrite lstrip_cons. split.
  - intros ->. by destruct (Nat.even _).
  - intros Hb. rewrite Hb. split; [done|].
    pose proof (all_space_backslash_free _ Hb) as Hfree.
    rewrite count_char_lstrip_zero by done. by rewrite length_split, Hfree.
Qed.

Lemma parse_variables_leading_backslash_witness :
  returned (parse_variables "\a\1" false) = returned (parse_variables "a\1" false)
  ∧ parse_variables "\ " false
    = Raise (ValueError "Uneven number of keys and values: \ ").
Proof.
  split.
  - apply (proj1 (parse_variables_leading_backslash "a\1" false)). reflexivity.
  - apply (proj2 (parse_variables_leading_backslash " " false)). reflexivity.
Defined.

Lemma fold_insert_last (kvs : list (string * string)) (m : gmap string string) k :
  fold_left (λ m kv, <[kv.1 := kv.2]> m) kvs m !! k
  = match last (filter (λ kv, kv.1 = k) kvs) with
    | Some kv => Some kv.2
    | None => m !! k
    end.
Proof.
  revert m. induction kvs as [|[k' v'] kvs IH]; intros m; [done|]. simpl.
  rewrite IH. destruct (decide (k' = k)) as [->|Hne].
  - rewrite filter_cons_True by done. rewrite last_cons.
    destruct (last _); [done|]. simpl. by rewrite lookup_insert_eq.
  - rewrite filter_cons_False by done.
    destruct (last _); [done|]. by rewrite lookup_insert_ne.
Qed.

Lemma mapping_of_last_pair before k v after :
  k ∉ after.*1 → mapping_of (before ++ (k, v) :: after) !! k = Some v.
Proof.
  intros Hk. unfold mapping_of. rewrite fold_insert_last.
  rewrite filter_app, filter_cons_True by done.
  rewrite (filter_key_absent k after) by done. by rewrite last_snoc.
Qed.

Lemma mapping_of_absent kvs k : k ∉ kvs.*1 → mapping_of kvs !! k = None.
Proof.
  intros Hk. unfold mapping_of. rewrite fold_insert_last.
  by rewrite filter_key_absent.
Qed.

Lemma mapping_of_elem kvs k v : mapping_of kvs !! k = Some v → (k, v) ∈ kvs.
Proof.
  unfold mapping_of. rewrite fold_insert_last.
  destruct (last _) as [[k' v']|] eqn:E; [|done]. intros [= <-].
  apply last_Some in E as [l' E].
  assert ((k', v') ∈ filter (λ kv, kv.1 = k) kvs) as Hin
    by (rewrite E; set_solver).
  apply list_elem_of_filter in Hin as [Hk Hin]. simpl in Hk. by subst.
Qed.

Lemma pairs_elem (tokens : list string) k v :
  (k, v) ∈ pairs tokens → k ∈ tokens ∧ v ∈ tokens.
Proof.
  induction tokens as [| x | x y l IH] using list_pair_ind; simpl.
  - by intros ?%elem_of_nil.
  - by intros ?%elem_of_nil.
  - intros [[= -> ->]|Hin]%elem_of_cons; [set_solver|].
    destruct (IH Hin). set_solver.
Qed.

(** X4.  What [parse_variables] returns never holds a backslash: no key
    and no value of the dictionary, whichever the variant. *)
Theorem parse_variables_backslash_free (varstr : string) (ordered : bool)
    (d : PyDict) (k v : string) :
  parse_variables varstr ordered = Ok d →
  getitem d k = Some v →
  backslash_free k ∧ backslash_free v.
Proof.
  rewrite parse_variables_eq_spec. unfold decode_spec.
  destruct (all_space varstr).
  - intros [= <-]. by destruct ordered.
  - destruct (Nat.even _); [|done]. intros [= <-].
    rewrite decoded_getitem. intros Hin%mapping_of_elem%pairs_elem.
    pose proof (split_free backslash (lstrip backslash varstr)) as Hfree.
    rewrite Forall_forall in Hfree. unfold backslash_free, tokens_of in *.
    destruct Hin. split; by apply Hfree.
Qed.

Lemma parse_variables_backslash_free_witness :
  backslash_free "b" ∧ backslash_free "2".
Proof.
  apply (parse_variables_backslash_free "\a\1\b\2" true
           (OrderedDict [("a", "1"); ("b", "2")]) "b" "2").
  - vm_compute. reflexivity.
  - vm_compute. reflexivity.
Defined.

(** X5.  A key written more than once has the value written last, and a
    key that was not written is not in the dictionary, in both variants. *)
Theorem parse_variables_last_value (varstr : string) (ordered : bool) (d : PyDict) :
  all_space varstr = false →
  parse_variables varstr ordered = Ok d →
  (∀ before k v after,
     pairs (tokens_of varstr) = (before ++ (k, v) :: after)%list →
     k ∉ after.*1 → getitem d k = Some v)
  ∧ (∀ k, k ∉ (pairs (tokens_of varstr)).*1 → getitem d k = None).
Proof.
  intros Hb. rewrite parse_variables_eq_spec. unfold decode_spec. rewrite Hb.
  destruct (Nat.even _); [|done]. intros [= <-]. split.
  - intros before k v after Hp Hk. rewrite decoded_getitem, Hp.
    by apply mapping_of_last_pair.
  - intros k Hk. rewrite decoded_getitem. by apply mapping_of_absent.
Qed.

Lemma parse_variables_last_value_witness :
  getitem (OrderedDict [("a", "3"); ("b", "2")]) "a" = Some "3".
Proof.
  apply (proj1 (parse_variables_last_value "\a\1\b\2\a\3" true
                  (OrderedDict [("a", "3"); ("b", "2")]) eq_refl eq_refl)
           [("a", "1"); ("b", "2")] "a" "3" []).
  - vm_compute. reflexivity.
  - apply not_elem_of_nil.
Defined.

(** ** log_exception, handle_exception *)

Lemma split_cons_nonempty sep s : ∃ t ts, split sep s = t :: ts.
Proof.
  destruct (split sep s) as [|t ts] eqn:E; [|eauto]. by apply split_nonempty in E.
Qed.

Lemma str_join_cons sep p q rest :
  str_join sep (p :: q :: rest) = p ++ sep ++ str_join sep (q :: rest).
Proof. done. Qed.

Lemma join_split sep s : str_join (String sep "") (split sep s) = s.
Proof.
  induction s as [|c s IH]; [done|]. cbn [split].
  destruct (split_cons_nonempty sep s) as (t & ts & E). rewrite E in *.
  destruct (Ascii.eqb_spec c sep) as [->|Hne].
  - rewrite str_join_cons, IH. done.
  - destruct ts as [|u ts].
    + simpl in *. by rewrite IH.
    + rewrite str_join_cons in *. rewrite append_cons. by rewrite IH.
Qed.

Lemma last_char_rstrip_by p s c :
  last_char (rstrip_by p s) = Some c → p c = false.
Proof.
  induction s as [|x s IH]; [done|]. simpl.
  destruct (rstrip_by p s) as [|y t] eqn:E.
  - destruct (p x) eqn:Hx; [done|]. simpl. by intros [= <-].
  - simpl in *. exact IH.
Qed.

Lemma rstrip_by_snoc p s c :
  p c = true → rstrip_by p (s ++ String c "") = rstrip_by p s.
Proof.
  intros Hc. induction s as [|x s IH].
  - simpl. change ("" ++ String c "") with (String c ""). simpl. by rewrite Hc.
  - rewrite append_cons. simpl. by rewrite IH.
Qed.

Lemma last_split_empty sep s :
  last (split sep s) = Some EmptyString → s = EmptyString ∨ last_char s = Some sep.
Proof.
  induction s as [|c s IH]; [by left|]. right. revert H. cbn [split].
  destruct (split_cons_nonempty sep s) as (t & ts & E). rewrite E in *.
  destruct (Ascii.eqb_spec c sep) as [->|Hne].
  - rewrite last_cons_cons. intros [->|Hl]%IH; [done|].
    simpl. destruct s; [done|exact Hl].
  - destruct ts as [|u ts]; [done|]. rewrite last_cons_cons.
    intros [->|Hl]%IH; [done|]. simpl. destruct s; [done|exact Hl].
Qed.

(** X6.  What [log_exception] and [handle_exception] log is the formatted
    traceback without its trailing newlines, line by line: joined by
    newlines the lines give that text back, no line holds a newline, there
    is always at least one line, newlines at the end of the text add no
    lines, and the last line is empty only when the text is nothing but
    newlines. *)
Theorem error_lines_are_the_text (formatted : string) :
  str_join (String newline "") (error_lines formatted) = rstrip newline formatted
  ∧ Forall (λ line, count_char newline line = 0) (error_lines formatted)
  ∧ error_lines formatted ≠ []
  ∧ error_lines (formatted ++ String newline "") = error_lines formatted
  ∧ (last (error_lines formatted) = Some EmptyString →
     error_lines formatted = [EmptyString])
  ∧ (∀ plugin, (log_exception_calls plugin formatted).*2 = error_lines formatted)
  ∧ (∀ chunks, (handle_exception_calls chunks).*2 = error_lines (str_join "" chunks)).
Proof.
  unfold error_lines. split_and!.
  - apply join_split.
  - apply split_free.
  - apply split_nonempty.
  - unfold rstrip. rewrite rstrip_by_snoc; [done|]. apply Ascii.eqb_refl.
  - intros [E|Hl]%last_split_empty; [by rewrite E|].
    apply last_char_rstrip_by in Hl. by rewrite Ascii.eqb_refl in Hl.
  - intros plugin. unfold log_exception_calls, error_lines.
    rewrite <- list_fmap_compose. apply list_fmap_id.
  - intros chunks. unfold handle_exception_calls, error_lines.
    rewrite <- list_fmap_compose. apply list_fmap_id.
Qed.

(** ** Cvars *)

Lemma with_cvars_same s : with_cvars (λ _, cvars (world s)) s = s.
Proof. by destruct s as [[] ? ? ? ? ? ? ? ? ?]. Qed.

Lemma union_singleton_present (c : gmap string string) n v :
  is_Some (c !! n) → c ∪ {[n := v]} = c.
Proof.
  intros [x Hx]. apply map_eq. intros m. rewrite lookup_union.
  destruct (decide (m = n)) as [->|Hne].
  - rewrite Hx, lookup_singleton_eq. done.
  - rewrite lookup_singleton_ne by done. by destruct (c !! m).
Qed.

Lemma set_cvar_once_spec name value flags s :
  set_cvar_once name value flags s
  = (with_cvars (λ c, c ∪ {[name := value]}) s,
     Ok (bool_decide (cvars (world s) !! name = None))).
Proof.
  unfold set_cvar_once, get_cvar, set_cvar. munfold. simpl.
  destruct (cvars (world s) !! name) as [old|] eqn:E; simpl.
  - f_equal.
    rewrite <- (with_cvars_same s) at 1. unfold with_cvars. simpl.
    by rewrite union_singleton_present by eauto.
  - f_equal. unfold with_cvars.
    by rewrite insert_union_singleton_r.
Qed.

Lemma set_cvar_once_present name value flags s :
  is_Some (cvars (world s) !! name) →
  set_cvar_once name value flags s = (s, Ok false).
Proof.
  intros [old E]. unfold set_cvar_once, get_cvar. munfold. simpl. by rewrite E.
Qed.

(** X7.  [set_cvar_once] never overwrites: after a call the cvar holds the
    value it had, or the given one if it had none; the other cvars are as
    before; the call returns whether it wrote; and a later call of
    [set_cvar_once] or [set_cvar_limit_once] for the same name, with
    whatever value, returns [False] and changes nothing. *)
Theorem set_cvar_once_first_wins (name value : string) (flags : nat) (s : Runtime) :
  let s1 := (set_cvar_once name value flags s).1 in
  cvars (world s1) !! name = Some (default value (cvars (world s) !! name))
  ∧ (∀ other, other ≠ name → cvars (world s1) !! other = cvars (world s) !! other)
  ∧ (set_cvar_once name value flags s).2
    = Ok (bool_decide (cvars (world s) !! name = None))
  ∧ (∀ value' flags', set_cvar_once name value' flags' s1 = (s1, Ok false))
  ∧ (∀ set_cvar_limit value' minimum maximum flags',
       set_cvar_limit_once set_cvar_limit name value' minimum maximum flags' s1
       = (s1, Ok false)).
Proof.
  intros s1. subst s1. rewrite set_cvar_once_spec. cbn [fst snd].
  assert (cvars (world (with_cvars (λ c, c ∪ {[name := value]}) s)) !! name
          = Some (default value (cvars (world s) !! name))) as Hn.
  { simpl. rewrite lookup_union, lookup_singleton_eq.
    by destruct (cvars (world s) !! name). }
  split_and!; [done| |done| |].
  - intros other Hne. simpl. rewrite lookup_union, lookup_singleton_ne by done.
    by destruct (cvars (world s) !! other).
  - intros value' flags'. apply set_cvar_once_present. rewrite Hn. eauto.
  - intros lim value' minimum maximum flags'.
    unfold set_cvar_limit_once, get_cvar. munfold. cbv beta. by rewrite Hn.
Qed.

Lemma with_cvars_with_cvars f g s :
  with_cvars g (with_cvars f s) = with_cvars (λ c, g (f c)) s.
Proof. reflexivity. Qed.

Lemma initialize_cvars_spec s :
  initialize_cvars s = (with_cvars (λ c, c ∪ default_cvars) s, Ok tt).
Proof.
  unfold initialize_cvars.
  repeat (erewrite bind_Ok; [|apply set_cvar_once_spec]).
  unfold mret, M_ret, ret. f_equal. rewrite !with_cvars_with_cvars.
  unfold with_cvars. do 2 f_equal. cbv beta.
  rewrite <- !(assoc_L (∪)). f_equal.
Qed.

Lemma default_cvars_owner : default_cvars !! "qlx_owner" = Some "-1".
Proof. unfold default_cvars. by rewrite lookup_insert_eq. Qed.

(** X8.  [initialize_cvars] applies its nine defaults only where nothing is
    set: a cvar that has a value keeps it, one of the nine that has none
    gets its default, every other cvar and the rest of the state are
    untouched, and running it again changes nothing. *)
Theorem initialize_cvars_fills_unset (s : Runtime) :
  let s' := (initialize_cvars s).1 in
  (initialize_cvars s).2 = Ok tt
  ∧ (∀ name value, cvars (world s) !! name = Some value →
                   cvars (world s') !! name = Some value)
  ∧ (∀ name, cvars (world s) !! name = None →
             cvars (world s') !! name = default_cvars !! name)
  ∧ with_cvars (λ _, cvars (world s)) s' = s
  ∧ initialize_cvars s' = (s', Ok tt).
Proof.
  intros s'. subst s'. rewrite !initialize_cvars_spec. cbn [fst snd].
  split_and!; [reflexivity| | | |].
  - intros name value Hn. unfold with_cvars. cbn [world cvars].
    rewrite lookup_union, Hn. by destruct (default_cvars !! name).
  - intros name Hn. unfold with_cvars. cbn [world cvars].
    rewrite lookup_union, Hn. by destruct (default_cvars !! name).
  - rewrite with_cvars_with_cvars. apply with_cvars_same.
  - f_equal. rewrite with_cvars_with_cvars. unfold with_cvars. do 2 f_equal.
    cbv beta. rewrite <- (assoc_L (∪)). f_equal.
Qed.

(** *** int *)

Lemma digit_of_pretty_N_char d :
  (d < 10)%N → digit_of (pretty_N_char d) = Some d.
Proof.
  intros Hd.
  assert (d = 0 ∨ d = 1 ∨ d = 2 ∨ d = 3 ∨ d = 4 ∨ d = 5 ∨ d = 6 ∨ d = 7
          ∨ d = 8 ∨ d = 9)%N as Hcases by lia.
  repeat (destruct Hcases as [->|Hcases]; [reflexivity|]). by subst.
Qed.

Lemma digit_of_plain c d :
  digit_of c = Some d →
  int_space c = false
  ∧ Ascii.eqb c (Ascii.ascii_of_nat 45) = false
  ∧ Ascii.eqb c (Ascii.ascii_of_nat 43) = false.
Proof.
  unfold digit_of, int_space.
  destruct (Ascii.eqb_spec c (Ascii.ascii_of_nat 45)) as [->|_]; [done|].
  destruct (Ascii.eqb_spec c (Ascii.ascii_of_nat 43)) as [->|_]; [done|].
  generalize (Ascii.nat_of_ascii c). intros n.
  destruct (48 <=? n) eqn:H1; [|done]. destruct (n <=? 57) eqn:H2; [|done].
  intros _. apply Nat.leb_le in H1, H2. split_and!; [|done..].
  repeat match goal with
         | |- context [?a <=? ?b] => destruct (Nat.leb_spec a b); try lia
         | |- context [?a =? ?b] => destruct (Nat.eqb_spec a b); try lia
         end; done.
Qed.

Lemma pretty_N_go_digits x : ∀ s, digits_only s → digits_only (pretty_N_go x s).
Proof.
  induction (N.lt_wf_0 x) as [x _ IH]; intros s Hs.
  assert (x = 0 ∨ 0 < x)%N as [->|Hx] by lia; [by rewrite pretty_N_go_0|].
  rewrite pretty_N_go_step by done. apply IH; [by apply N.div_lt|].
  constructor; [|done]. rewrite digit_of_pretty_N_char; [eauto|].
  by apply N.mod_lt.
Qed.

Lemma pretty_N_go_nonempty x : ∀ s, s ≠ EmptyString → pretty_N_go x s ≠ EmptyString.
Proof.
  induction (N.lt_wf_0 x) as [x _ IH]; intros s Hs.
  assert (x = 0 ∨ 0 < x)%N as [->|Hx] by lia; [by rewrite pretty_N_go_0|].
  rewrite pretty_N_go_step by done. apply IH; [by apply N.div_lt|done].
Qed.

Lemma pretty_N_digits (n : N) : digits_only (pretty n) ∧ pretty n ≠ EmptyString.
Proof.
  unfold pretty, pretty_N. case_decide as Hn.
  - split; [|done]. repeat constructor. by eexists.
  - split; [by apply pretty_N_go_digits; constructor|].
    assert (0 < n)%N as Hpos by lia. rewrite pretty_N_go_step by done.
    by apply pretty_N_go_nonempty.
Qed.

Lemma rstrip_by_none p s :
  Forall (λ c, p c = false) (String.list_ascii_of_string s) → rstrip_by p s = s.
Proof.
  induction s as [|c s IH]; [done|]. simpl.
  intros [Hc Hs]%Forall_cons. rewrite IH by done. rewrite Hc. by destruct s.
Qed.

Lemma lstrip_by_none p s :
  Forall (λ c, p c = false) (String.list_ascii_of_string s) → lstrip_by p s = s.
Proof.
  destruct s as [|c s]; [done|]. simpl. intros [Hc _]%Forall_cons. by rewrite Hc.
Qed.

(** Reading the digits a number was written with gives the number back. *)
Lemma int_digits_pretty_N_go x :
  (0 < x)%N →
  ∀ acc count after s,
    ∃ k, 0 < k ∧ (10 ^ N.of_nat (k - 1) ≤ x)%N
         ∧ int_digits acc count after (pretty_N_go x s)
           = int_digits (acc * 10 ^ N.of_nat k + x) (count + k) true s.
Proof.
  induction (N.lt_wf_0 x) as [x _ IH]; intros Hx acc count after s.
  rewrite pretty_N_go_step by done.
  pose proof (N.div_mod x 10 ltac:(done)) as Hdm.
  pose proof (N.mod_lt x 10 ltac:(done)) as Hmod.
  pose proof (N.div_lt x 10 Hx eq_refl) as Hlt.
  set (q := (x `div` 10)%N) in *. set (r := (x `mod` 10)%N) in *.
  clearbody q r.
  assert (q = 0 ∨ 0 < q)%N as [->|Hpos] by lia.
  - rewrite pretty_N_go_0. exists 1. split; [lia|]. split; [simpl; lia|].
    cbn [int_digits]. rewrite digit_of_pretty_N_char by lia.
    f_equal; [|lia]. change (10 ^ N.of_nat 1)%N with 10%N. lia.
  - destruct (IH q Hlt Hpos acc count after (String (pretty_N_char r) s))
      as (k & Hk & Hle & ->).
    exists (S k). split; [lia|]. split.
    + replace (S k - 1) with (S (k - 1)) by lia.
      rewrite Nat2N.inj_succ, N.pow_succ_r'.
      set (p := (10 ^ N.of_nat (k - 1))%N) in *. clearbody p. lia.
    + cbn [int_digits]. rewrite digit_of_pretty_N_char by lia.
      f_equal; [|lia]. rewrite Nat2N.inj_succ, N.pow_succ_r'.
      set (p := (10 ^ N.of_nat k)%N) in *. clearbody p. lia.
Qed.

Lemma int_unsigned_pretty_N max (n : N) :
  (n < 2 ^ 64)%N → max = 0 ∨ 640 ≤ max →
  int_unsigned max (pretty n) = Some n.
Proof.
  intros Hn Hmax. unfold int_unsigned, pretty, pretty_N. case_decide as H0.
  - subst n. simpl. destruct Hmax as [->|Hmax]; [done|].
    destruct max; [lia|]. cbn [Nat.ltb Nat.leb andb].
    destruct (Nat.leb_spec (S (S max)) 1); [lia|done].
  - destruct (int_digits_pretty_N_go n ltac:(lia) 0%N 0 false "")
      as (k & Hk & Hle & ->). simpl.
    assert (k ≤ 20) as Hk20.
    { destruct (decide (k ≤ 20)) as [|Hgt]; [done|]. exfalso.
      assert (10 ^ 20 ≤ 10 ^ N.of_nat (k - 1))%N
        by (apply N.pow_le_mono_r; lia).
      assert (2 ^ 64 < 10 ^ 20)%N by (vm_compute; reflexivity). lia. }
    destruct Hmax as [->|Hmax]; [done|].
    destruct (Nat.ltb_spec max k); [lia|]. by rewrite andb_false_r.
Qed.

Lemma py_int_pretty_N max (n : N) :
  (n < 2 ^ 64)%N → max = 0 ∨ 640 ≤ max →
  py_int max (pretty n) = Some (Z.of_N n).
Proof.
  intros Hn Hmax. unfold py_int.
  destruct (pretty_N_digits n) as [Hd Hne].
  assert (Forall (λ c, int_space c = false) (String.list_ascii_of_string (pretty n)))
    as Hsp.
  { eapply Forall_impl; [exact Hd|]. intros c [d Hc]. simpl.
    by apply digit_of_plain in Hc as (? & _ & _). }
  rewrite rstrip_by_none, lstrip_by_none by done.
  destruct (pretty n) as [|c rest] eqn:E; [done|].
  apply Forall_cons in Hd as [[d Hc] _].
  apply digit_of_plain in Hc as (_ & -> & ->).
  rewrite <- E. by rewrite int_unsigned_pretty_N.
Qed.

Lemma py_int_minus_one max : py_int max "-1" = Some (-1)%Z.
Proof.
  unfold py_int, int_unsigned. simpl.
  destruct max as [|[|max]]; done.
Qed.

(** X9.  [owner()] returns an id exactly when [qlx_owner] is set to text
    that [int] reads as a number other than -1, and that number is what it
    returns.  It never returns -1.  It returns [None] in every other case,
    having logged the one error line, and logs nothing when it returns an
    id.  A SteamID64 written in decimal is returned as it is. *)
Theorem owner_reads_the_cvar (max_str_digits : nat) (s : Runtime) :
  (∀ sid, (owner max_str_digits s).1 = Some sid
          ↔ ∃ value, cvars (world s) !! "qlx_owner" = Some value
                     ∧ py_int max_str_digits value = Some sid ∧ sid ≠ (-1)%Z)
  ∧ (owner max_str_digits s).1 ≠ Some (-1)%Z
  ∧ (owner max_str_digits s).2
    = match (owner max_str_digits s).1 with
      | Some _ => []
      | None => [owner_error]
      end
  ∧ (∀ n : N,
       (n < 2 ^ 64)%N → max_str_digits = 0 ∨ 640 ≤ max_str_digits →
       cvars (world s) !! "qlx_owner" = Some (pretty n) →
       owner max_str_digits s = (Some (Z.of_N n), [])).
Proof.
  unfold owner, owner_try.
  destruct (cvars (world s) !! "qlx_owner") as [value|] eqn:Hc.
  - destruct (py_int max_str_digits value) as [sid|] eqn:Hi.
    + destruct (Z.eqb_spec sid (-1)) as [->|Hne]; simpl.
      * split_and!; [|done|done|].
        -- intros sid'. split; [done|]. intros (v & [= <-] & Hv & Hne). congruence.
        -- intros n Hn Hmax [= ->]. rewrite py_int_pretty_N in Hi by done.
           injection Hi as Hi. lia.
      * split_and!; [| congruence |done|].
        -- intros sid'. split.
           ++ intros [= <-]. eauto.
           ++ intros (v & [= <-] & Hv & _). congruence.
        -- intros n Hn Hmax [= ->]. rewrite py_int_pretty_N in Hi by done.
           by injection Hi as <-.
    + simpl. split_and!; [|done|done|].
      * intros sid. split; [done|]. intros (v & [= <-] & Hv & _). congruence.
      * intros n Hn Hmax [= ->]. by rewrite py_int_pretty_N in Hi.
  - simpl. split_and!; [|done|done|done].
    intros sid. split; [done|]. by intros (v & ? & _).
Qed.

Lemma owner_reads_the_cvar_witness :
  owner 4300 (with_cvars <["qlx_owner" := "76561198000000001"]> sample_start)
  = (Some 76561198000000001%Z, []).
Proof.
  apply (proj2 (proj2 (proj2 (owner_reads_the_cvar 4300
           (with_cvars <["qlx_owner" := "76561198000000001"]> sample_start))))
           76561198000000001%N).
  - vm_compute. reflexivity.
  - right. lia.
  - vm_compute. reflexivity.
Defined.

(** X10.  After [initialize_cvars], [owner()] answers as before if
    [qlx_owner] was set; if it was not, the default -1 makes it report
    that there is no owner: [None], and the error line. *)
Theorem owner_after_initialize_cvars (max_str_digits : nat) (s : Runtime) :
  (is_Some (cvars (world s) !! "qlx_owner") →
   owner max_str_digits (initialize_cvars s).1 = owner max_str_digits s)
  ∧ (cvars (world s) !! "qlx_owner" = None →
     owner max_str_digits (initialize_cvars s).1 = (None, [owner_error])).
Proof.
  rewrite initialize_cvars_spec. cbn [fst]. unfold owner, owner_try.
  cbn [world with_cvars cvars]. rewrite lookup_union. split.
  - intros [v ->]. by destruct (default_cvars !! "qlx_owner").
  - intros ->. rewrite default_cvars_owner.
    cbn [union option_union union_with option_union_with].
    by rewrite py_int_minus_one.
Qed.

Lemma owner_after_initialize_cvars_witness :
  owner 0 (initialize_cvars sample_start).1 = (None, [owner_error]).
Proof.
  apply (proj2 (owner_after_initialize_cvars 0 sample_start)).
  vm_compute. reflexivity.
Defined.

(** *** strip *)

Lemma rstrip_by_idemp p s : rstrip_by p (rstrip_by p s) = rstrip_by p s.
Proof.
  induction s as [|c s IH]; [done|]. cbn [rstrip_by].
  destruct (rstrip_by p s) as [|d t] eqn:E.
  - destruct (p c) eqn:Hc; [done|]. cbn [rstrip_by]. by rewrite Hc.
  - cbn [rstrip_by]. cbn [rstrip_by] in IH. by rewrite IH.
Qed.

Lemma lstrip_by_idemp p s : lstrip_by p (lstrip_by p s) = lstrip_by p s.
Proof.
  induction s as [|c s IH]; [done|]. cbn [lstrip_by].
  destruct (p c) eqn:Hc; [done|]. cbn [lstrip_by]. by rewrite Hc.
Qed.

Lemma rstrip_by_lstrip_by p s :
  rstrip_by p (lstrip_by p s) = lstrip_by p (rstrip_by p s).
Proof.
  induction s as [|c s IH]; [done|]. cbn [lstrip_by rstrip_by].
  destruct (p c) eqn:Hc.
  - rewrite IH. destruct (rstrip_by p s) as [|d t] eqn:E; [done|].
    cbn [lstrip_by]. by rewrite Hc.
  - cbn [rstrip_by].
    destruct (rstrip_by p s) as [|d t] eqn:E; cbn [lstrip_by]; by rewrite Hc.
Qed.

Lemma strip_idemp s : strip (strip s) = strip s.
Proof.
  unfold strip.
  by rewrite rstrip_by_lstrip_by, rstrip_by_idemp, lstrip_by_idemp.
Qed.

Lemma for_each_app {A} (xs ys : list A) (body : A → M unit) s :
  for_each (xs ++ ys) body s
  = match for_each xs body s with
    | (s1, Ok _) => for_each ys body s1
    | (s1, Raise e) => (s1, Raise e)
    end.
Proof.
  revert s. induction xs as [|x xs IH]; intros s; [done|].
  cbn [for_each app]. unfold mbind, M_bind, bind.
  destruct (body x s) as [s1 [[]|e]]; [apply IH|done].
Qed.

Section preset_more.
Context `{OsPath}.

Lemma load_preset_plugins_for_each path preset s :
  cvars (world s) !! "qlx_pluginsPath" = Some path →
  abspath path ∈ dirs (world s) →
  cvars (world s) !! "qlx_plugins" = Some preset →
  load_preset_plugins s
  = for_each
      (strip <$> filter (λ p, sys_modules s !! (basename (abspath path) ++ "." ++ p) = None)
                   (split comma preset))
      load_plugin s.
Proof.
  intros Hc Hd Hp. unfold load_preset_plugins, get_plugins_path, get_cvar, isdir.
  munfold. simpl. rewrite Hc. simpl. rewrite bool_decide_eq_true_2 by done.
  rewrite Hp. simpl. rewrite (for_each_ext _ _ load_plugin); [done|].
  apply Forall_forall. intros p [q [-> _]]%list_elem_of_fmap.
  by rewrite strip_idemp.
Qed.

(** X11.  [load_preset_plugins] reads [qlx_pluginsPath] before anything
    else: unset, the call fails with [TypeError] and has done nothing.
    With the directory in place, an unset [qlx_plugins] fails with
    [AttributeError], again with nothing done.  Otherwise the names between
    the commas are filtered as written, blanks included, against
    [sys.modules], and [load_plugin] is called on what is left with the
    blanks stripped, in the order written. *)
Theorem load_preset_plugins_filters_then_strips (s : Runtime) :
  (cvars (world s) !! "qlx_pluginsPath" = None →
   load_preset_plugins s
   = (s, Raise (TypeError "expected str, bytes or os.PathLike object, not NoneType")))
  ∧ (∀ path,
       cvars (world s) !! "qlx_pluginsPath" = Some path →
       abspath path ∈ dirs (world s) →
       (cvars (world s) !! "qlx_plugins" = None →
        load_preset_plugins s
        = (s, Raise (AttributeError "'NoneType' object has no attribute 'split'")))
       ∧ (∀ preset,
            cvars (world s) !! "qlx_plugins" = Some preset →
            load_preset_plugins s
            = for_each
                (strip <$> filter
                   (λ p, sys_modules s !! (basename (abspath path) ++ "." ++ p) = None)
                   (split comma preset))
                load_plugin s)).
Proof.
  split.
  - intros Hc. unfold load_preset_plugins, get_plugins_path, get_cvar.
    munfold. simpl. by rewrite Hc.
  - intros path Hc Hd. split.
    + intros Hp. unfold load_preset_plugins, get_plugins_path, get_cvar, isdir.
      munfold. simpl. rewrite Hc. simpl. rewrite bool_decide_eq_true_2 by done.
      by rewrite Hp.
    + intros preset Hp. by apply load_preset_plugins_for_each.
Qed.

(** X12.  [load_preset_plugins] does not catch what [load_plugin] raises:
    the first name that fails to load ends the call with that exception,
    in the state that load left, and the names after it are not tried. *)
Theorem load_preset_plugins_stops_at_first_failure
    (path preset p : string) (before after : list string) (s s1 s2 : Runtime)
    (e : exn) :
  cvars (world s) !! "qlx_pluginsPath" = Some path →
  abspath path ∈ dirs (world s) →
  cvars (world s) !! "qlx_plugins" = Some preset →
  filter (λ p, sys_modules s !! (basename (abspath path) ++ "." ++ p) = None)
    (split comma preset) = (before ++ p :: after)%list →
  for_each (strip <$> before) load_plugin s = (s1, Ok tt) →
  load_plugin (strip p) s1 = (s2, Raise e) →
  load_preset_plugins s = (s2, Raise e).
Proof.
  intros Hc Hd Hp Hf Hb Hl.
  rewrite (load_preset_plugins_for_each path preset) by done.
  rewrite Hf, fmap_app, for_each_app, Hb, fmap_cons. cbn [for_each].
  by erewrite bind_Raise.
Qed.
End preset_more.

Lemma load_preset_plugins_filters_then_strips_witness :
  @load_preset_plugins posix_paths sample_start
  = for_each (strip <$> ["ban"; "motd"]) (@load_plugin posix_paths) sample_start.
Proof.
  destruct (@load_preset_plugins_filters_then_strips posix_paths sample_start)
    as [_ Hw].
  destruct (Hw "/ql/minqlx-plugins" eq_refl) as [_ Hp].
  { apply (bool_decide_unpack _). vm_compute. exact I. }
  etrans; [apply (Hp "ban,motd" eq_refl)|]. vm_compute. reflexivity.
Defined.

Lemma load_preset_plugins_stops_at_first_failure_witness :
  let s := with_cvars <["qlx_plugins" := "ban, motd, clan"]> sample_start in
  @load_preset_plugins posix_paths s
  = ((@load_plugin posix_paths "motd" (@load_plugin posix_paths "ban" s).1).1,
     Raise (HostError "RuntimeError")).
Proof.
  intros s.
  apply (@load_preset_plugins_stops_at_first_failure posix_paths
           "/ql/minqlx-plugins" "ban, motd, clan" " motd" ["ban"] [" clan"] s
           (@load_plugin posix_paths "ban" s).1).
  - vm_compute. reflexivity.
  - apply (bool_decide_unpack _). vm_compute. exact I.
  - vm_compute. reflexivity.
  - vm_compute. reflexivity.
  - vm_compute. reflexivity.
  - vm_compute. reflexivity.
Defined.

(** *** What the loader leaves alone *)

Global Instance grows_preorder : PreOrder grows.
Proof.
  split.
  - intros s. by split.
  - intros s t u [] []. split; first [congruence | etrans; eassumption].
Qed.

Global Instance others_kept_preorder plugin : PreOrder (others_kept plugin).
Proof.
  split.
  - by intros s other _.
  - intros s t u Hst Htu other Hne. by rewrite Htu, Hst.
Qed.

Section keeps.
Variable R : Runtime → Runtime → Prop.
Context `{!PreOrder R}.

Lemma keeps_ret {A} (a : A) : keeps R (mret a).
Proof. intros s. reflexivity. Qed.

Lemma keeps_raise {A} e : keeps R (@raise A e).
Proof. intros s. reflexivity. Qed.

Lemma keeps_gets {A} (proj : Runtime → A) : keeps R (gets proj).
Proof. intros s. reflexivity. Qed.

Lemma keeps_modify (f : Runtime → Runtime) : (∀ s, R s (f s)) → keeps R (modify f).
Proof. intros Hf s. apply Hf. Qed.

Lemma keeps_bind {A B} (m : M A) (k : A → M B) :
  keeps R m → (∀ a, keeps R (k a)) → keeps R (m ≫= k).
Proof.
  intros Hm Hk s. unfold mbind, M_bind, bind.
  specialize (Hm s). destruct (m s) as [s1 [a|e]]; [|done].
  simpl in Hm. etrans; [exact Hm|apply Hk].
Qed.

Lemma keeps_try_except {A} (m : M A) (h : exn → M A) :
  keeps R m → (∀ e, keeps R (h e)) → keeps R (try_except m h).
Proof.
  intros Hm Hh s. unfold try_except.
  specialize (Hm s). destruct (m s) as [s1 [a|e]]; [done|].
  simpl in Hm. etrans; [exact Hm|apply Hh].
Qed.

Lemma keeps_for_each {A} (xs : list A) (body : A → M unit) :
  (∀ x, keeps R (body x)) → keeps R (for_each xs body).
Proof.
  intros Hb. induction xs as [|x xs IH]; simpl.
  - apply keeps_ret.
  - apply keeps_bind; [apply Hb|]. intros _. apply IH.
Qed.

(** The steps that write, one hypothesis each. *)
Hypothesis R_log : ∀ x s, R s (with_log (append x) s).
Hypothesis R_events : ∀ x s, R s (with_events (append x) s).
Hypothesis R_plugin_heap : ∀ obj v s, R s (with_plugin_heap <[obj := v]> s).
Hypothesis R_hook_table : ∀ f s, R s (with_hook_table f s).
Hypothesis R_command_table : ∀ f s, R s (with_command_table f s).
Hypothesis R_module_heap : ∀ m v s, R s (with_module_heap <[m := v]> s).
Hypothesis R_sys_modules : ∀ name m s,
  sys_modules s !! name = None → R s (with_sys_modules <[name := m]> s).
Hypothesis R_modules : ∀ name m s, R s (with_modules <[name := m]> s).

Ltac keeps_step :=
  lazymatch goal with
  | |- keeps _ (mret _) => apply keeps_ret
  | |- keeps _ (ret _) => apply keeps_ret
  | |- keeps _ (raise _) => apply keeps_raise
  | |- keeps _ (_ ≫= _) => apply keeps_bind; [|intros ?]
  | |- keeps _ (gets _) => apply keeps_gets
  | |- keeps _ (modify _) =>
      apply keeps_modify;
      first [ apply R_log | apply R_events | apply R_plugin_heap
            | apply R_hook_table | apply R_command_table | apply R_module_heap
            | apply R_modules ]
  | |- keeps _ (try_except _ _) => apply keeps_try_except; [|intros ?]
  | |- keeps _ (for_each _ _) => apply keeps_for_each; intros ?
  | |- keeps _ (match ?x with _ => _ end) => destruct x
  | |- keeps _ _ => solve [auto]
  end.

Ltac keeps_auto := repeat keeps_step.

Lemma keeps_logger_info logger msg : keeps R (logger_info logger msg).
Proof. unfold logger_info. keeps_auto. Qed.
Lemma keeps_log_exception plugin e : keeps R (log_exception plugin e).
Proof. unfold log_exception. keeps_auto. Qed.
Hint Resolve keeps_logger_info keeps_log_exception : core.

Lemma keeps_logged plugin m : keeps R m → keeps R (logged plugin m).
Proof. intros Hm. unfold logged. keeps_auto. Qed.

Lemma keeps_get_cvar name : keeps R (get_cvar name).
Proof. unfold get_cvar. keeps_auto. Qed.
Lemma keeps_isdir path : keeps R (isdir path).
Proof. unfold isdir. keeps_auto. Qed.
Lemma keeps_isfile path : keeps R (isfile path).
Proof. unfold isfile. keeps_auto. Qed.
Lemma keeps_deref_module m : keeps R (deref_module m).
Proof. unfold deref_module. keeps_auto. Qed.
Lemma keeps_execute_source name : keeps R (execute_source name).
Proof. unfold execute_source. keeps_auto. Qed.
Hint Resolve keeps_get_cvar keeps_isdir keeps_isfile keeps_deref_module
  keeps_execute_source : core.

Lemma keeps_import_module name : keeps R (import_module name).
Proof.
  intros s. rewrite import_module_cases.
  destruct (sys_modules s !! name) eqn:Hs; [reflexivity|].
  destruct (sources (world s) !! name) as [[members|tag]|]; try reflexivity.
  cbn [fst]. etrans; [apply R_module_heap|]. by apply R_sys_modules.
Qed.

Lemma keeps_importlib_reload m : keeps R (importlib_reload m).
Proof. unfold importlib_reload. keeps_auto. Qed.
Lemma keeps_hasattr m name : keeps R (hasattr m name).
Proof. unfold hasattr. keeps_auto. Qed.
Lemma keeps_getattr m name : keeps R (getattr m name).
Proof. unfold getattr. keeps_auto. Qed.
Lemma keeps_issubclass_Plugin cls : keeps R (issubclass_Plugin cls).
Proof. unfold issubclass_Plugin. keeps_auto. Qed.
Lemma keeps_dispatch event plugin : keeps R (dispatch event plugin).
Proof. unfold dispatch. keeps_auto. Qed.
Lemma keeps_deref_plugin obj : keeps R (deref_plugin obj).
Proof. unfold deref_plugin. keeps_auto. Qed.
Hint Resolve keeps_import_module keeps_importlib_reload keeps_hasattr keeps_getattr
  keeps_issubclass_Plugin keeps_dispatch keeps_deref_plugin : core.

Lemma keeps_hooks obj : keeps R (hooks obj).
Proof. unfold hooks. keeps_auto. Qed.
Lemma keeps_commands obj : keeps R (commands obj).
Proof. unfold commands. keeps_auto. Qed.
Lemma keeps_add_hook obj h : keeps R (add_hook obj h).
Proof. unfold add_hook. keeps_auto. Qed.
Lemma keeps_add_command obj c : keeps R (add_command obj c).
Proof. unfold add_command. keeps_auto. Qed.
Lemma keeps_remove_hook obj h : keeps R (remove_hook obj h).
Proof. unfold remove_hook. keeps_auto. Qed.
Lemma keeps_remove_command obj name handler :
  keeps R (remove_command obj name handler).
Proof. unfold remove_command. keeps_auto. Qed.
Lemma keeps_loaded_plugin plugin : keeps R (loaded_plugin plugin).
Proof. unfold loaded_plugin. keeps_auto. Qed.
Hint Resolve keeps_hooks keeps_commands keeps_add_hook keeps_add_command
  keeps_remove_hook keeps_remove_command keeps_loaded_plugin : core.

Lemma keeps_init_step obj step : keeps R (init_step obj step).
Proof. unfold init_step. keeps_auto. Qed.
Hint Resolve keeps_init_step : core.

Lemma keeps_instantiate cls : keeps R (instantiate cls).
Proof. unfold instantiate. keeps_auto. Qed.
Hint Resolve keeps_instantiate : core.

(** The two steps that write the registry, for the one plugin at hand. *)
Variable plugin : string.
Hypothesis R_insert : ∀ obj s, R s (with_loaded_plugins <[plugin := obj]> s).
Hypothesis R_delete : ∀ s, R s (with_loaded_plugins (delete plugin) s).

Lemma keeps_del_loaded_plugin : keeps R (del_loaded_plugin plugin).
Proof.
  unfold del_loaded_plugin. apply keeps_bind; [auto|]. intros _.
  by apply keeps_modify.
Qed.
Hint Resolve keeps_del_loaded_plugin : core.

Lemma keeps_unload_plugin : keeps R (unload_plugin plugin).
Proof. unfold unload_plugin. keeps_auto; by apply keeps_logged; keeps_auto. Qed.
Hint Resolve keeps_unload_plugin : core.

Context `{OsPath}.

Lemma keeps_get_plugins_path : keeps R get_plugins_path.
Proof. unfold get_plugins_path. keeps_auto. Qed.
Hint Resolve keeps_get_plugins_path : core.

Lemma keeps_load_plugin_try dir : keeps R (load_plugin_try dir plugin).
Proof.
  unfold load_plugin_try. keeps_auto. by apply keeps_modify.
Qed.
Hint Resolve keeps_load_plugin_try : core.

Lemma keeps_load_plugin_body reload :
  keeps R (reload plugin) → keeps R (load_plugin_body reload plugin).
Proof.
  intros Hr. unfold load_plugin_body. keeps_auto. by apply keeps_logged.
Qed.

Lemma keeps_reload_plugin_body load :
  keeps R (load plugin) → keeps R (reload_plugin_body load plugin).
Proof.
  intros Hl. unfold reload_plugin_body. keeps_auto.
  apply keeps_logged. keeps_auto.
Qed.

Lemma keeps_load_plugin_at depth : keeps R (load_plugin_at depth plugin).
Proof.
  induction depth as [|d IH]; simpl.
  - apply keeps_raise.
  - by apply keeps_load_plugin_body, keeps_reload_plugin_body.
Qed.

Lemma keeps_reload_plugin_at depth : keeps R (reload_plugin_at depth plugin).
Proof. apply keeps_reload_plugin_body, keeps_load_plugin_at. Qed.
End keeps.

Lemma grows_log_append x s : grows s (with_log (append x) s).
Proof. split; try done. by exists [x]. Qed.
Lemma grows_events_append x s : grows s (with_events (append x) s).
Proof. split; try done. by exists [x]. Qed.
Lemma grows_plugin_heap_insert obj v s : grows s (with_plugin_heap <[obj := v]> s).
Proof. split; try done. simpl. apply dom_insert_subseteq. Qed.
Lemma grows_hook_table_any f s : grows s (with_hook_table f s).
Proof. by split. Qed.
Lemma grows_command_table_any f s : grows s (with_command_table f s).
Proof. by split. Qed.
Lemma grows_module_heap_insert m v s : grows s (with_module_heap <[m := v]> s).
Proof. split; try done. simpl. apply dom_insert_subseteq. Qed.
Lemma grows_sys_modules_insert name m s :
  sys_modules s !! name = None → grows s (with_sys_modules <[name := m]> s).
Proof. intros Hn. split; try done. simpl. by apply insert_subseteq. Qed.
Lemma grows_modules_insert name m s : grows s (with_modules <[name := m]> s).
Proof. split; try done. simpl. apply dom_insert_subseteq. Qed.
Lemma grows_registry f s : grows s (with_loaded_plugins f s).
Proof. by split. Qed.

Lemma others_kept_insert plugin obj s :
  others_kept plugin s (with_loaded_plugins <[plugin := obj]> s).
Proof. intros other Hne. simpl. by rewrite lookup_insert_ne. Qed.
Lemma others_kept_delete plugin s :
  others_kept plugin s (with_loaded_plugins (delete plugin) s).
Proof. intros other Hne. simpl. by rewrite lookup_delete_ne. Qed.

Section loader_frame.
Context `{OsPath}.

Lemma grows_unload_plugin plugin : keeps grows (unload_plugin plugin).
Proof.
  apply keeps_unload_plugin;
    auto using grows_log_append, grows_events_append, grows_plugin_heap_insert,
      grows_hook_table_any, grows_command_table_any, grows_registry with typeclass_instances.
Qed.

Lemma grows_load_plugin_at depth plugin : keeps grows (load_plugin_at depth plugin).
Proof.
  apply keeps_load_plugin_at;
    auto using grows_log_append, grows_events_append, grows_plugin_heap_insert,
      grows_hook_table_any, grows_command_table_any, grows_module_heap_insert,
      grows_sys_modules_insert, grows_modules_insert, grows_registry
      with typeclass_instances.
Qed.

Lemma grows_reload_plugin_at depth plugin : keeps grows (reload_plugin_at depth plugin).
Proof.
  apply keeps_reload_plugin_at;
    auto using grows_log_append, grows_events_append, grows_plugin_heap_insert,
      grows_hook_table_any, grows_command_table_any, grows_module_heap_insert,
      grows_sys_modules_insert, grows_modules_insert, grows_registry
      with typeclass_instances.
Qed.

Lemma grows_load_preset_plugins : keeps grows load_preset_plugins.
Proof.
  unfold load_preset_plugins.
  apply keeps_bind; [apply _|apply keeps_get_cvar; apply _|intros c].
  apply keeps_bind; [apply _|apply keeps_get_plugins_path; apply _|intros p].
  apply keeps_bind; [apply _|apply keeps_isdir; apply _|intros d].
  destruct d; [|apply keeps_raise, _].
  apply keeps_bind; [apply _| |intros names].
  { destruct c; [apply keeps_ret, _|apply keeps_raise, _]. }
  apply keeps_bind; [apply _|apply keeps_gets, _|intros modules].
  apply keeps_for_each; [apply _|]. intros x. apply grows_load_plugin_at.
Qed.

(** X13.  The loader only adds to what it keeps track of.  Whatever
    [load_plugin], [unload_plugin], [reload_plugin] or [load_preset_plugins]
    does, and whether it returns or raises: a module that was in
    [sys.modules] is still there, the same object; a plugin name that had a
    module kept for reloading still has one; no module and no plugin object
    is discarded; the events dispatched and the lines logged before are
    still there, in front of the new ones; and cvars, files and sources are
    not written. *)
Theorem loader_only_adds (plugin : string) (s : Runtime) :
  grows s (load_plugin plugin s).1
  ∧ grows s (unload_plugin plugin s).1
  ∧ grows s (reload_plugin plugin s).1
  ∧ grows s (load_preset_plugins s).1.
Proof.
  split_and!.
  - apply grows_load_plugin_at.
  - apply grows_unload_plugin.
  - apply grows_reload_plugin_at.
  - apply grows_load_preset_plugins.
Qed.

Lemma others_kept_load_plugin_at depth plugin :
  keeps (others_kept plugin) (load_plugin_at depth plugin).
Proof.
  apply keeps_load_plugin_at;
    auto using others_kept_insert, others_kept_delete with typeclass_instances;
    by intros.
Qed.

Lemma others_kept_reload_plugin_at depth plugin :
  keeps (others_kept plugin) (reload_plugin_at depth plugin).
Proof.
  apply keeps_reload_plugin_at;
    auto using others_kept_insert, others_kept_delete with typeclass_instances;
    by intros.
Qed.

Lemma others_kept_unload_plugin plugin :
  keeps (others_kept plugin) (unload_plugin plugin).
Proof.
  apply keeps_unload_plugin;
    auto using others_kept_insert, others_kept_delete with typeclass_instances;
    by intros.
Qed.

(** X14.  Loading, unloading or reloading one plugin never touches the
    registry entry of another: under every other name the registry holds
    what it held, whether the call returns or raises. *)
Theorem loader_touches_one_entry (plugin other : string) (s : Runtime) :
  other ≠ plugin →
  _loaded_plugins (load_plugin plugin s).1 !! other = _loaded_plugins s !! other
  ∧ _loaded_plugins (unload_plugin plugin s).1 !! other = _loaded_plugins s !! other
  ∧ _loaded_plugins (reload_plugin plugin s).1 !! other = _loaded_plugins s !! other.
Proof.
  intros Hne. split_and!.
  - by apply others_kept_load_plugin_at.
  - by apply others_kept_unload_plugin.
  - by apply others_kept_reload_plugin_at.
Qed.
End loader_frame.

Lemma loader_touches_one_entry_witness :
  _loaded_plugins (@reload_plugin posix_paths "motd" sample_loaded).1 !! "ban"
  = _loaded_plugins sample_loaded !! "ban".
Proof.
  apply (@loader_touches_one_entry posix_paths "motd" "ban" sample_loaded). done.
Defined.

(** *** unload_plugin: what a failure leaves *)

Global Instance same_registry_preorder : PreOrder same_registry.
Proof.
  split.
  - by intros s.
  - intros s t u Hst Htu. unfold same_registry in *. congruence.
Qed.

Lemma deletes_or_keeps_bind {A} plugin (m : M A) (k : A → M unit) :
  keeps same_registry m →
  (∀ a, deletes_or_keeps plugin (k a)) →
  deletes_or_keeps plugin (m ≫= k).
Proof.
  intros Hm Hk s. unfold mbind, M_bind, bind.
  specialize (Hm s). destruct (m s) as [s1 [a|e]]; simpl in Hm; [|done].
  specialize (Hk a s1). unfold same_registry in Hm.
  destruct (k a s1) as [s2 [[]|e]]; by rewrite <- Hm.
Qed.

Lemma deletes_or_keeps_del plugin : deletes_or_keeps plugin (del_loaded_plugin plugin).
Proof.
  intros s. unfold del_loaded_plugin, loaded_plugin. munfold. simpl.
  destruct (_loaded_plugins s !! plugin) eqn:Hp; simpl; eauto.
Qed.

Lemma deletes_or_keeps_logged plugin m :
  deletes_or_keeps plugin m → deletes_or_keeps plugin (logged plugin m).
Proof.
  intros Hm s. unfold logged, try_except.
  specialize (Hm s). by destruct (m s) as [s1 [[]|e]].
Qed.

Lemma same_registry_loaded_plugin plugin : keeps same_registry (loaded_plugin plugin).
Proof.
  intros s. unfold loaded_plugin. munfold. simpl.
  by destruct (_loaded_plugins s !! plugin).
Qed.

Section unload_with.
Context {host : PluginHost}.

(** The [try] body of [unload_plugin]. *)
Lemma unload_body_deletes_or_keeps plugin :
  registry_kept host →
  deletes_or_keeps plugin (
    host_dispatch "unload" plugin;;
    hs ← (obj ← loaded_plugin plugin; host_hooks obj);
    for_each hs (λ hook, obj ← loaded_plugin plugin; host_remove_hook obj hook);;
    cs ← (obj ← loaded_plugin plugin; host_commands obj);
    for_each cs (λ cmd, obj ← loaded_plugin plugin;
                        host_remove_command obj (cmd_name cmd) (cmd_handler cmd));;
    del_loaded_plugin plugin).
Proof.
  intros (Hd & Hh & Hrh & Hc & Hrc).
  apply deletes_or_keeps_bind; [apply Hd|intros _].
  apply deletes_or_keeps_bind; [|intros hs].
  { apply keeps_bind; [apply _|apply same_registry_loaded_plugin|auto]. }
  apply deletes_or_keeps_bind; [|intros _].
  { apply keeps_for_each; [apply _|]. intros hook.
    apply keeps_bind; [apply _|apply same_registry_loaded_plugin|auto]. }
  apply deletes_or_keeps_bind; [|intros cs].
  { apply keeps_bind; [apply _|apply same_registry_loaded_plugin|auto]. }
  apply deletes_or_keeps_bind; [|intros _].
  { apply keeps_for_each; [apply _|]. intros cmd.
    apply keeps_bind; [apply _|apply same_registry_loaded_plugin|auto]. }
  apply deletes_or_keeps_del.
Qed.

(** X15.  [unload_plugin] deletes the registry entry last, whatever the
    plugin class and the listeners of the [unload] event do, as long as
    they leave the registry alone.  So a call that raises leaves the
    plugin registered, with whatever of its hooks and commands had been
    removed by then; a call that returns found the plugin registered and
    has deleted its entry.  For a registered plugin, a listener that
    raises ends the call before anything is removed, and every failure is
    logged under the plugin's logger as the last thing before it is
    raised again. *)
Theorem unload_plugin_failure_keeps_entry (plugin : string) (s : Runtime) :
  registry_kept host →
  (∀ e, (unload_plugin_with plugin s).2 = Raise e →
        _loaded_plugins (unload_plugin_with plugin s).1 = _loaded_plugins s)
  ∧ ((unload_plugin_with plugin s).2 = Ok tt →
     is_Some (_loaded_plugins s !! plugin)
     ∧ _loaded_plugins (unload_plugin_with plugin s).1
       = delete plugin (_loaded_plugins s))
  ∧ (is_Some (_loaded_plugins s !! plugin) →
     (∀ e sd,
        host_dispatch "unload" plugin (with_log (append (unloading plugin)) s)
        = (sd, Raise e) →
        unload_plugin_with plugin s
        = (with_log (append (LogException (get_logger (Some plugin)) e)) sd,
           Raise e))
     ∧ (∀ e, (unload_plugin_with plugin s).2 = Raise e →
             ∃ s1, (unload_plugin_with plugin s).1
                   = with_log (append (LogException (get_logger (Some plugin)) e))
                       s1)).
Proof.
  intros Hkept. unfold unload_plugin_with.
  erewrite bind_Ok; [|reflexivity]. erewrite bind_Ok; [|reflexivity].
  cbn [_loaded_plugins with_log].
  set (s0 := with_log (append (unloading plugin)) s).
  change (with_log (append (LogInfo (get_logger None)
                              ("Unloading plugin '" ++ plugin ++ "'..."))) s)
    with s0.
  destruct (_loaded_plugins s !! plugin) as [obj|] eqn:Hp.
  - rewrite bool_decide_eq_true_2 by eauto.
    pose proof (deletes_or_keeps_logged plugin _
                  (unload_body_deletes_or_keeps plugin Hkept) s0) as Hb.
    change (_loaded_plugins s0) with (_loaded_plugins s) in Hb.
    split_and!.
    + intros e He. destruct (logged plugin _ s0) as [s1 [[]|e1]]; by simplify_eq/=.
    + intros He. destruct (logged plugin _ s0) as [s1 [[]|e1]]; [|done].
      split; [eauto|apply Hb].
    + intros _. split.
      * intros e sd Hd. apply logged_Raise. by erewrite bind_Raise.
      * intros e. unfold logged, try_except.
        match goal with |- context [?m s0] =>
          lazymatch m with
          | (_ ≫= _) => destruct (m s0) as [s1 [[]|e1]]
          end
        end; [done|].
        intros [= <-]. by exists s1.
  - rewrite bool_decide_eq_false_2 by (by intros [? ?]).
    split_and!; try done; by intros [? ?].
Qed.
End unload_with.

Lemma unload_plugin_with_modelled plugin :
  @unload_plugin_with modelled_host plugin = unload_plugin plugin.
Proof. reflexivity. Qed.

Lemma modelled_host_registry_kept : registry_kept modelled_host.
Proof.
  split_and!; intros; cbn [modelled_host host_dispatch host_hooks host_remove_hook
                             host_commands host_remove_command].
  - apply keeps_dispatch; [apply _|by intros].
  - apply keeps_hooks, _.
  - apply keeps_remove_hook; [apply _|by intros..].
  - apply keeps_commands, _.
  - apply keeps_remove_command; [apply _|by intros..].
Qed.

Lemma failing_host_registry_kept : registry_kept failing_host.
Proof.
  split_and!; intros; cbn [failing_host host_dispatch host_hooks host_remove_hook
                            host_commands host_remove_command].
  - apply keeps_dispatch; [apply _|by intros].
  - apply keeps_hooks, _.
  - apply keeps_remove_hook; [apply _|by intros..].
  - apply keeps_commands, _.
  - apply keeps_raise, _.
Qed.

Lemma unload_plugin_failure_keeps_entry_witness :
  (@unload_plugin_with failing_host "ban" sample_loaded).2
  = Raise (HostError "KeyError")
  ∧ _loaded_plugins (@unload_plugin_with failing_host "ban" sample_loaded).1
    = _loaded_plugins sample_loaded
  ∧ hook_table (@unload_plugin_with failing_host "ban" sample_loaded).1 = [].
Proof.
  assert ((@unload_plugin_with failing_host "ban" sample_loaded).2
          = Raise (HostError "KeyError")) as Hr by (vm_compute; reflexivity).
  split_and!; [exact Hr| |vm_compute; reflexivity].
  exact (proj1 (@unload_plugin_failure_keeps_entry failing_host "ban" sample_loaded
                  failing_host_registry_kept) _ Hr).
Defined.

(** *** A first load, case by case *)

Section first_load.
Context `{OsPath}.

Lemma load_plugin_fresh_unfold plugin path s :
  cvars (world s) !! "qlx_pluginsPath" = Some path →
  join (abspath path) (plugin ++ ".py") ∈ files (world s) →
  _loaded_plugins s !! plugin = None →
  load_plugin plugin s
  = logged plugin (load_plugin_try (basename (abspath path)) plugin)
      (with_log (append (loading plugin)) s).
Proof.
  intros Hc Hf Hn. unfold load_plugin. cbn [load_plugin_at].
  rewrite load_plugin_body_cases, Hc, Hn. by rewrite bool_decide_eq_true_2.
Qed.

Lemma load_plugin_try_cases dir plugin s :
  load_plugin_try dir plugin s
  = match import_module (dir ++ "." ++ plugin) s with
    | (s1, Raise e) => (s1, Raise e)
    | (s1, Ok m) =>
        let s2 := with_modules <[plugin := m]> s1 in
        match module_heap s1 !! m with
        | None => (s2, Raise (HostError "ReferenceError"))
        | Some module =>
            match mod_members module !! plugin with
            | None =>
                (s2, Raise (PluginLoadError
                   "The plugin needs to have a class with the exact name as the file, minus the .py."))
            | Some NotAClass =>
                (s2, Raise (TypeError "issubclass() arg 1 must be a class"))
            | Some (Class name false init) =>
                (s2, Raise (PluginLoadError
                   "Attempted to load a plugin that is not a subclass of 'minqlx.Plugin'."))
            | Some (Class name true init) =>
                match instantiate (Class name true init) s2 with
                | (s3, Ok obj) => (with_loaded_plugins <[plugin := obj]> s3, Ok tt)
                | (s3, Raise e) => (s3, Raise e)
                end
            end
        end
    end.
Proof.
  unfold load_plugin_try.
  destruct (import_module (dir ++ "." ++ plugin) s) as [s1 [m|e]] eqn:Hi.
  - erewrite bind_Ok; [|exact Hi].
    erewrite bind_Ok; [|reflexivity].
    cbv zeta. set (s2 := with_modules _ s1).
    assert (module_heap s2 = module_heap s1) as Hh by done.
    destruct (module_heap s1 !! m) as [module|] eqn:Hm.
    + erewrite bind_Ok; last first.
      { unfold hasattr, deref_module. munfold. rewrite Hh, Hm. reflexivity. }
      destruct (mod_members module !! plugin) as [member|] eqn:Hmem.
      * rewrite bool_decide_eq_true_2 by eauto. cbn [negb].
        erewrite bind_Ok; last first.
        { unfold getattr, deref_module. munfold. rewrite Hh, Hm, Hmem. reflexivity. }
        destruct member as [|name sub init].
        -- by erewrite bind_Raise.
        -- erewrite bind_Ok; [|reflexivity]. destruct sub; [|done].
           unfold mbind, M_bind, bind. by destruct (instantiate _ _) as [s3 [obj|e]].
      * rewrite bool_decide_eq_false_2 by (by intros [? ?]). done.
    + erewrite bind_Raise; [done|].
      unfold hasattr, deref_module. munfold. by rewrite Hh, Hm.
  - by erewrite bind_Raise.
Qed.
End first_load.

Lemma import_module_frame name s s1 r :
  import_module name s = (s1, r) →
  world s1 = world s ∧ _modules s1 = _modules s
  ∧ _loaded_plugins s1 = _loaded_plugins s ∧ plugin_heap s1 = plugin_heap s
  ∧ hook_table s1 = hook_table s ∧ command_table s1 = command_table s
  ∧ events s1 = events s ∧ log s1 = log s.
Proof.
  rewrite import_module_cases.
  destruct (sys_modules s !! name); [by intros [= <- _]|].
  destruct (sources (world s) !! name) as [[tag|members]|]; by intros [= <- _].
Qed.

Lemma import_module_members name s :
  importable name s
  = match import_module name s with
    | (s1, Ok m) => mod_members <$> module_heap s1 !! m
    | (_, Raise _) => None
    end.
Proof.
  rewrite import_module_cases. unfold importable.
  destruct (sys_modules s !! name); [done|].
  destruct (sources (world s) !! name) as [[tag|members]|]; try done.
  simpl. by rewrite lookup_insert_eq.
Qed.

Lemma import_module_registers name s s1 m :
  import_module name s = (s1, Ok m) → sys_modules s1 !! name = Some m.
Proof.
  rewrite import_module_cases.
  destruct (sys_modules s !! name) eqn:Hs; [by intros [= <- <-]|].
  destruct (sources (world s) !! name) as [[tag|members]|]; try done.
  intros [= <- <-]. simpl. apply lookup_insert_eq.
Qed.

Section first_load_facts.
Context `{OsPath}.

(** A first load that gets as far as the constructor. *)
Lemma load_plugin_fresh_class plugin path s s1 m module cname init :
  cvars (world s) !! "qlx_pluginsPath" = Some path →
  join (abspath path) (plugin ++ ".py") ∈ files (world s) →
  _loaded_plugins s !! plugin = None →
  import_module (basename (abspath path) ++ "." ++ plugin)
    (with_log (append (loading plugin)) s) = (s1, Ok m) →
  module_heap s1 !! m = Some module →
  mod_members module !! plugin = Some (Class cname true init) →
  let obj := fresh (dom (plugin_heap s)) in
  let made :=
    mkRuntime (world s) (sys_modules s1) (module_heap s1)
      (<[plugin := m]> (_modules s)) (_loaded_plugins s)
      (<[obj := mkPlugin cname (init_effect init).1.1 (init_effect init).1.2]>
         (plugin_heap s))
      (hook_table s ++ ((λ h, (cname, h)) <$> (init_effect init).1.1))
      (command_table s ++ ((λ c, (cname, c)) <$> (init_effect init).1.2))
      (events s) (log s ++ [loading plugin]) in
  load_plugin plugin s
  = match (init_effect init).2 with
    | None => (with_loaded_plugins <[plugin := obj]> made, Ok tt)
    | Some tag =>
        (with_log (append (LogException (get_logger (Some plugin)) (HostError tag)))
           made, Raise (HostError tag))
    end.
Proof.
  intros Hc Hf Hn Hi Hm Hcls obj made.
  rewrite (load_plugin_fresh_unfold plugin path) by done.
  unfold logged, try_except. rewrite load_plugin_try_cases, Hi. cbv zeta.
  rewrite Hm, Hcls, instantiate_effect.
  apply import_module_frame in Hi as (Hw & Hmods & Hl & Hp & Hh & Hcm & He & Hlog).
  cbn [with_modules with_log world sys_modules module_heap _modules _loaded_plugins
         plugin_heap hook_table command_table events log] in *.
  rewrite Hw, Hmods, Hl, Hp, Hh, Hcm, He, Hlog. unfold append.
  by destruct (init_effect init).2.
Qed.

(** X16.  A plugin that is not loaded loads exactly when its source file
    is in the plugins directory, the import gives a module (the one in
    [sys.modules], else the one its source defines) in which the plugin's
    name is bound to a subclass of [minqlx.Plugin], and the constructor of
    that class does not raise. *)
Theorem load_plugin_first_time_succeeds_iff (plugin path : string) (s : Runtime) :
  cvars (world s) !! "qlx_pluginsPath" = Some path →
  _loaded_plugins s !! plugin = None →
  (load_plugin plugin s).2 = Ok tt
  ↔ join (abspath path) (plugin ++ ".py") ∈ files (world s)
    ∧ ∃ members cname init,
        importable (basename (abspath path) ++ "." ++ plugin) s = Some members
        ∧ members !! plugin = Some (Class cname true init)
        ∧ (init_effect init).2 = None.
Proof.
  intros Hc Hn.
  destruct (decide (join (abspath path) (plugin ++ ".py") ∈ files (world s)))
    as [Hf|Hf]; last first.
  { unfold load_plugin. cbn [load_plugin_at].
    rewrite load_plugin_body_cases, Hc, bool_decide_eq_false_2 by done.
    split; [done|]. by intros [? _]. }
  change (importable (basename (abspath path) ++ "." ++ plugin) s)
    with (importable (basename (abspath path) ++ "." ++ plugin)
            (with_log (append (loading plugin)) s)).
  rewrite import_module_members.
  destruct (import_module _ (with_log _ s)) as [s1 [m|e]] eqn:Hi.
  - destruct (module_heap s1 !! m) as [module|] eqn:Hm.
    + destruct (mod_members module !! plugin) as [[|cname [] init]|] eqn:Hcls.
      * rewrite (load_plugin_fresh_unfold plugin path) by done.
        unfold logged, try_except. rewrite load_plugin_try_cases, Hi. cbv zeta.
        rewrite Hm, Hcls. cbn [snd]. split; [done|].
        intros (_ & ? & ? & ? & [= <-] & ? & _). congruence.
      * rewrite (load_plugin_fresh_class plugin path s s1 m module cname init)
          by done.
        destruct (init_effect init).2 as [tag|] eqn:Hr; cbn [snd].
        -- split; [done|].
           intros (_ & ? & ? & ? & [= <-] & ? & ?). congruence.
        -- split; [|done]. intros _. split; [done|].
           exists (mod_members module), cname, init. by rewrite Hr.
      * rewrite (load_plugin_fresh_unfold plugin path) by done.
        unfold logged, try_except. rewrite load_plugin_try_cases, Hi. cbv zeta.
        rewrite Hm, Hcls. cbn [snd]. split; [done|].
        intros (_ & ? & ? & ? & [= <-] & ? & _). congruence.
      * rewrite (load_plugin_fresh_unfold plugin path) by done.
        unfold logged, try_except. rewrite load_plugin_try_cases, Hi. cbv zeta.
        rewrite Hm, Hcls. cbn [snd]. split; [done|].
        intros (_ & ? & ? & ? & [= <-] & ? & _). congruence.
    + rewrite (load_plugin_fresh_unfold plugin path) by done.
      unfold logged, try_except. rewrite load_plugin_try_cases, Hi. cbv zeta.
      rewrite Hm. cbn [snd]. split; [done|]. by intros (_ & ? & ? & ? & ? & _).
  - rewrite (load_plugin_fresh_unfold plugin path) by done.
    unfold logged, try_except. rewrite load_plugin_try_cases, Hi. cbn [snd].
    split; [done|]. by intros (_ & ? & ? & ? & ? & _).
Qed.
End first_load_facts.

Section first_load_outcomes.
Context `{OsPath}.

Lemma load_plugin_fresh_Ok_inv plugin s s' :
  _loaded_plugins s !! plugin = None →
  load_plugin plugin s = (s', Ok tt) →
  ∃ path s1 m module cname init,
    cvars (world s) !! "qlx_pluginsPath" = Some path
    ∧ join (abspath path) (plugin ++ ".py") ∈ files (world s)
    ∧ import_module (basename (abspath path) ++ "." ++ plugin)
        (with_log (append (loading plugin)) s) = (s1, Ok m)
    ∧ module_heap s1 !! m = Some module
    ∧ mod_members module !! plugin = Some (Class cname true init)
    ∧ (init_effect init).2 = None.
Proof.
  intros Hn Hl. destruct (load_plugin_Ok_source _ _ _ Hl) as (path & Hc & Hf).
  exists path. rewrite (load_plugin_fresh_unfold plugin path) in Hl by done.
  unfold logged, try_except in Hl. rewrite load_plugin_try_cases in Hl.
  destruct (import_module _ (with_log _ s)) as [s1 [m|e]] eqn:Hi; [|done].
  cbv zeta in Hl.
  destruct (module_heap s1 !! m) as [module|] eqn:Hm; [|done].
  destruct (mod_members module !! plugin) as [[|cname [] init]|] eqn:Hcls;
    try done.
  rewrite instantiate_effect in Hl.
  destruct (init_effect init).2 eqn:Hr; [done|].
  by exists s1, m, module, cname, init.
Qed.

(** X17.  What a first, successful [load_plugin] leaves: the module is in
    [sys.modules] and kept under the plugin's name for reloading; a new
    object, at an address not in use before, is registered under the
    plugin's name; the object records the hooks and commands its
    constructor registered, and the host's tables have them appended under
    the name of the class; no event was dispatched, and the one line
    logged announces the loading. *)
Theorem load_plugin_first_time_registers (plugin : string) (s s' : Runtime) :
  _loaded_plugins s !! plugin = None →
  load_plugin plugin s = (s', Ok tt) →
  ∃ path m module cname init,
    let obj := fresh (dom (plugin_heap s)) in
    cvars (world s) !! "qlx_pluginsPath" = Some path
    ∧ sys_modules s' !! (basename (abspath path) ++ "." ++ plugin) = Some m
    ∧ _modules s' = <[plugin := m]> (_modules s)
    ∧ module_heap s' !! m = Some module
    ∧ mod_members module !! plugin = Some (Class cname true init)
    ∧ (init_effect init).2 = None
    ∧ plugin_heap s !! obj = None
    ∧ _loaded_plugins s' = <[plugin := obj]> (_loaded_plugins s)
    ∧ plugin_heap s'
      = <[obj := mkPlugin cname (init_effect init).1.1 (init_effect init).1.2]>
          (plugin_heap s)
    ∧ hook_table s'
      = (hook_table s ++ ((λ h, (cname, h)) <$> (init_effect init).1.1))%list
    ∧ command_table s'
      = (command_table s ++ ((λ c, (cname, c)) <$> (init_effect init).1.2))%list
    ∧ events s' = events s
    ∧ log s' = (log s ++ [loading plugin])%list.
Proof.
  intros Hn Hl.
  destruct (load_plugin_fresh_Ok_inv _ _ _ Hn Hl)
    as (path & s1 & m & module & cname & init & Hc & Hf & Hi & Hm & Hcls & Hr).
  rewrite (load_plugin_fresh_class plugin path s s1 m module cname init) in Hl
    by done.
  rewrite Hr in Hl. injection Hl as <-.
  exists path, m, module, cname, init. cbv zeta.
  split_and!; try done.
  - by apply import_module_registers in Hi.
  - apply fresh_not_allocated.
Qed.

(** X18.  A constructor that raises is not undone.  The load fails with
    what the constructor raised and registers no plugin, but the hooks and
    commands the constructor had registered by then stay in the host's
    tables, the half-made object stays allocated, and the module stays
    kept for reloading.  [unload_plugin] cannot clear them: for it the
    plugin is not loaded. *)
Theorem load_plugin_failed_constructor_not_undone
    (plugin path cname tag : string) (members : gmap string Member)
    (init : list InitStep) (s : Runtime) :
  cvars (world s) !! "qlx_pluginsPath" = Some path →
  join (abspath path) (plugin ++ ".py") ∈ files (world s) →
  _loaded_plugins s !! plugin = None →
  importable (basename (abspath path) ++ "." ++ plugin) s = Some members →
  members !! plugin = Some (Class cname true init) →
  (init_effect init).2 = Some tag →
  let s' := (load_plugin plugin s).1 in
  (load_plugin plugin s).2 = Raise (HostError tag)
  ∧ _loaded_plugins s' = _loaded_plugins s
  ∧ hook_table s'
    = (hook_table s ++ ((λ h, (cname, h)) <$> (init_effect init).1.1))%list
  ∧ command_table s'
    = (command_table s ++ ((λ c, (cname, c)) <$> (init_effect init).1.2))%list
  ∧ plugin_heap s' !! fresh (dom (plugin_heap s))
    = Some (mkPlugin cname (init_effect init).1.1 (init_effect init).1.2)
  ∧ is_Some (_modules s' !! plugin)
  ∧ log s'
    = (log s ++ [loading plugin;
                 LogException (get_logger (Some plugin)) (HostError tag)])%list
  ∧ (unload_plugin plugin s').2 = Raise not_loaded_error.
Proof.
  intros Hc Hf Hn Himp Hcls Hr s'. subst s'.
  change (importable (basename (abspath path) ++ "." ++ plugin) s)
    with (importable (basename (abspath path) ++ "." ++ plugin)
            (with_log (append (loading plugin)) s)) in Himp.
  rewrite import_module_members in Himp.
  destruct (import_module _ (with_log _ s)) as [s1 [m|e]] eqn:Hi; [|done].
  destruct (module_heap s1 !! m) as [module|] eqn:Hm; [|done].
  injection Himp as <-.
  rewrite (load_plugin_fresh_class plugin path s s1 m module cname init) by done.
  rewrite Hr. cbn [fst snd]. split_and!; try done.
  - simpl. apply lookup_insert_eq.
  - simpl. rewrite lookup_insert_eq. eauto.
  - simpl. unfold append. by rewrite <- app_assoc.
  - match goal with |- (unload_plugin plugin ?t).2 = _ =>
      pose proof (unload_plugin_cases plugin t) as Hu end.
    cbn [with_log _loaded_plugins] in Hu. rewrite Hn in Hu. by rewrite Hu.
Qed.
End first_load_outcomes.

Lemma load_plugin_first_time_succeeds_iff_witness :
  (@load_plugin posix_paths "ban" sample_start).2 = Ok tt.
Proof.
  apply (@load_plugin_first_time_succeeds_iff posix_paths "ban"
           "/ql/minqlx-plugins" sample_start eq_refl eq_refl).
  split.
  - apply (bool_decide_unpack _). vm_compute. exact I.
  - exists {[ "ban" := Class "ban" true
                         [AddHook sample_hook; AddCommand sample_command] ]},
      "ban", [AddHook sample_hook; AddCommand sample_command].
    split_and!; vm_compute; reflexivity.
Defined.

Lemma load_plugin_first_time_registers_witness :
  _loaded_plugins sample_loaded
  = <["ban" := fresh (dom (plugin_heap sample_start))]> (_loaded_plugins sample_start)
  ∧ events sample_loaded = events sample_start.
Proof.
  destruct (@load_plugin_first_time_registers posix_paths "ban" sample_start
              sample_loaded eq_refl)
    as (path & m & module & cname & init & _ & _ & _ & _ & _ & _ & _ & Hl
        & _ & _ & _ & He & _).
  { vm_compute. reflexivity. }
  split; [exact Hl|exact He].
Defined.

Lemma load_plugin_failed_constructor_not_undone_witness :
  (@load_plugin posix_paths "motd" sample_start).2 = Raise (HostError "RuntimeError")
  ∧ _loaded_plugins (@load_plugin posix_paths "motd" sample_start).1 = ∅
  ∧ hook_table (@load_plugin posix_paths "motd" sample_start).1
    = [("motd", sample_hook)].
Proof.
  assert (@join posix_paths (@abspath posix_paths "/ql/minqlx-plugins")
            ("motd" ++ ".py") ∈ files (world sample_start)) as Hf.
  { apply (bool_decide_unpack _). vm_compute. exact I. }
  assert (importable (@basename posix_paths (@abspath posix_paths "/ql/minqlx-plugins")
                      ++ "." ++ "motd") sample_start
          = Some {[ "motd" := Class "motd" true
                                [AddHook sample_hook; InitRaise "RuntimeError"] ]})
    as Hi by (vm_compute; reflexivity).
  destruct (@load_plugin_failed_constructor_not_undone posix_paths "motd"
              "/ql/minqlx-plugins" "motd" "RuntimeError" _
              [AddHook sample_hook; InitRaise "RuntimeError"] sample_start
              eq_refl Hf eq_refl Hi eq_refl eq_refl)
    as (Hr & Hl & Hh & _).
  split_and!; [exact Hr|exact Hl|exact Hh].
Defined.

(** *** Sources are read on import and on reload only *)

Section source_reads.
Context `{OsPath}.

(** X19.  [load_plugin] does not look at the source of a module that is in
    [sys.modules]: for a plugin that is not loaded but whose module is
    imported (as after [unload_plugin]), the outcome is the same whatever
    the sources have become.  Edits reach a plugin through
    [reload_plugin] only. *)
Theorem load_plugin_reuses_imported_module
    (plugin path : string) (m : nat) (srcs : gmap string Source) (s : Runtime) :
  cvars (world s) !! "qlx_pluginsPath" = Some path →
  sys_modules s !! (basename (abspath path) ++ "." ++ plugin) = Some m →
  _loaded_plugins s !! plugin = None →
  load_plugin plugin (with_sources (λ _, srcs) s)
  = (with_sources (λ _, srcs) (load_plugin plugin s).1, (load_plugin plugin s).2).
Proof.
  intros Hc Hs Hn.
  destruct (decide (join (abspath path) (plugin ++ ".py") ∈ files (world s)))
    as [Hf|Hf].
  - rewrite !(load_plugin_fresh_unfold plugin path) by done.
    unfold logged, try_except. rewrite !load_plugin_try_cases, !import_module_cases.
    cbn [sys_modules with_log with_sources]. rewrite Hs. cbv zeta.
    cbn [module_heap with_log with_sources].
    destruct (module_heap s !! m) as [module|]; [|done].
    destruct (mod_members module !! plugin) as [[|cname [] init]|]; try done.
    rewrite !instantiate_effect. by destruct (init_effect init).2.
  - unfold load_plugin. cbn [load_plugin_at]. rewrite !load_plugin_body_cases.
    cbn [world with_sources cvars files]. rewrite Hc.
    by rewrite bool_decide_eq_false_2.
Qed.

(** X20.  [reload_plugin] is not all or nothing.  It unloads first; if
    running the module's source again then fails, the error is logged and
    raised, and the plugin stays unloaded: its registry entry is gone and
    its hooks and commands are removed. *)
Theorem reload_plugin_failed_source_leaves_unloaded
    (plugin : string) (obj m : nat) (self : Plugin) (module : Module) (e : exn)
    (s : Runtime) :
  _loaded_plugins s !! plugin = Some obj →
  plugin_heap s !! obj = Some self →
  vetoes (world s) !! plugin = None →
  _modules s !! plugin = Some m →
  module_heap s !! m = Some module →
  sys_modules s !! mod_name module = Some m →
  (execute_source (mod_name module) s).2 = Raise e →
  reload_plugin plugin s
  = (with_log (append (LogException (get_logger (Some plugin)) e))
       (unloaded plugin obj self s), Raise e)
  ∧ _loaded_plugins (reload_plugin plugin s).1 !! plugin = None
  ∧ plugin_heap (reload_plugin plugin s).1 !! obj
    = Some (mkPlugin (plugin_name self) [] []).
Proof.
  intros Hp Ho Hv Hm Hh Hs He.
  assert (reload_plugin plugin s
          = (with_log (append (LogException (get_logger (Some plugin)) e))
               (unloaded plugin obj self s), Raise e)) as ->.
  { unfold reload_plugin, reload_plugin_at. rewrite reload_plugin_body_unfold.
    rewrite unload_quietly_cases, Hp, (unload_plugin_succeeds plugin obj self) by done.
    apply logged_Raise. erewrite bind_Raise; [done|].
    cbn [unloaded _modules]. rewrite Hm.
    unfold importlib_reload, deref_module. munfold.
    cbn [unloaded module_heap sys_modules]. rewrite Hh.
    change (sys_modules (unloaded plugin obj self s)) with (sys_modules s).
    rewrite bool_decide_eq_true_2 by done.
    unfold execute_source in *. munfold.
    change (world (unloaded plugin obj self s)) with (world s).
    by destruct (sources (world s) !! mod_name module) as [[tag|members]|];
      simplify_eq/=. }
  split_and!; [done|..]; simpl.
  - apply lookup_delete_eq.
  - apply lookup_insert_eq.
Qed.
End source_reads.

Lemma load_plugin_reuses_imported_module_witness :
  let s := (unload_plugin "ban" sample_loaded).1 in
  @load_plugin posix_paths "ban" (with_sources (λ _, ∅) s)
  = (with_sources (λ _, ∅) (@load_plugin posix_paths "ban" s).1,
     (@load_plugin posix_paths "ban" s).2).
Proof.
  intros s.
  apply (@load_plugin_reuses_imported_module posix_paths "ban" "/ql/minqlx-plugins" 0);
    vm_compute; reflexivity.
Defined.

Lemma reload_plugin_failed_source_leaves_unloaded_witness :
  (@reload_plugin posix_paths "ban" sample_broken).2 = Raise (HostError "SyntaxError")
  ∧ _loaded_plugins (@reload_plugin posix_paths "ban" sample_broken).1 !! "ban" = None.
Proof.
  destruct (@reload_plugin_failed_source_leaves_unloaded posix_paths "ban" 0 0
              (mkPlugin "ban" [sample_hook] [sample_command])
              (mkModule "minqlx-plugins.ban"
                 {[ "ban" := Class "ban" true
                               [AddHook sample_hook; AddCommand sample_command] ]})
              (HostError "SyntaxError") sample_broken)
    as (Hr & Hl & _); try (vm_compute; reflexivity).
  split; [by rewrite Hr|exact Hl].
Defined.

(** *** thread: where the work runs *)

Lemma on_units_refl st : on_units st st.
Proof. exists [], []. by rewrite !app_nil_r. Qed.

Lemma on_units_trans st1 st2 st3 :
  on_units st1 st2 → on_units st2 st3 → on_units st1 st3.
Proof.
  intros (m1 & o1 & E1 & R1 & F1 & G1) (m2 & o2 & E2 & R2 & F2 & G2).
  exists (m1 ++ m2)%list, (o1 ++ o2)%list.
  rewrite E2, R2, E1, R1, <- !app_assoc. split_and!; [done|done|..];
    by apply Forall_app.
Qed.

Lemma call_on_units cur g force st :
  (∀ cur st, endswith cur _thread_name = true → on_units st (run cur g st)) →
  on_units st (call cur (Thread g force) st).1.
Proof.
  intros Hg. destruct (negb force && endswith cur _thread_name) eqn:Hb.
  - apply andb_true_iff in Hb as [Hf Hcur]. destruct force; [done|].
    rewrite call_inline by done. by apply Hg.
  - rewrite call_spawn by done. cbn [fst].
    set (nm := func_name g ++ "-" ++ pretty (_thread_count st) ++ "-" ++ _thread_name).
    set (st0 := mkThreads (_thread_count st) (started st ++ [mkThread nm g true])
                  (ran st)).
    assert (on_units st st0) as H0.
    { exists [mkThread nm g true], []. rewrite app_nil_r.
      split_and!; [done|done| |done].
      constructor; [|done]. split; [done|]. apply minqlxthread_name. }
    eapply on_units_trans; [exact H0|].
    destruct (Hg nm st0 (minqlxthread_name _ _)) as (m & o & E & R & F & G).
    exists m, o. by split_and!.
Qed.

Lemma run_calls_on_units cur calls :
  Forall (λ w, match w with
               | Thread g _ =>
                   ∀ cur st, endswith cur _thread_name = true →
                             on_units st (run cur g st)
               end) calls →
  ∀ st, on_units st (run_calls cur calls st).
Proof.
  intros Hall. induction Hall as [|[g force] ws Hg _ IH]; intros st.
  - apply on_units_refl.
  - unfold run_calls in *. cbn [fold_left].
    eapply on_units_trans; [by apply call_on_units|apply IH].
Qed.

Lemma run_on_units func cur st :
  endswith cur _thread_name = true → on_units st (run cur func st).
Proof.
  revert cur st. induction func as [name calls IH] using Callable_nested_ind.
  intros cur st Hcur. rewrite run_unfold.
  eapply on_units_trans; [|by apply run_calls_on_units].
  exists [], [(cur, name)]. rewrite app_nil_r.
  split_and!; [done|done|done|]. by constructor.
Qed.

(** X21.  Whatever thread calls a function wrapped by [thread], and
    however the wrapped functions call each other, every thread that gets
    started is a daemon whose name ends in the decorator's marker, and
    every wrapped function runs on a thread whose name ends in it.  So
    called from a thread without the marker (the main thread), nothing of
    the function runs on the caller's thread. *)
Theorem thread_runs_on_marked_daemons (cur : string) (w : Wrapped Callable)
    (st : Threads) :
  ∃ more others,
    started (call cur w st).1 = (started st ++ more)%list
    ∧ ran (call cur w st).1 = (ran st ++ others)%list
    ∧ Forall (λ t, daemon t = true
                   ∧ endswith (thread_name t) _thread_name = true) more
    ∧ Forall (λ e, endswith e.1 _thread_name = true) others
    ∧ (endswith cur _thread_name = false → Forall (λ e, e.1 ≠ cur) others).
Proof.
  destruct w as [g force].
  destruct (call_on_units cur g force st (run_on_units g))
    as (more & others & E & R & F & G).
  exists more, others. split_and!; try done.
  intros Hcur. eapply Forall_impl; [exact G|].
  intros e He Heq. simpl in He. rewrite Heq in He. congruence.
Qed.

Lemma thread_runs_on_marked_daemons_witness :
  ∃ more others,
    started (call "MainThread"
               (Thread (Func "outer" [Thread (Func "inner" []) true]) false)
               (mkThreads 0 [] [])).1 = more
    ∧ ran (call "MainThread"
             (Thread (Func "outer" [Thread (Func "inner" []) true]) false)
             (mkThreads 0 [] [])).1 = others
    ∧ Forall (λ e, e.1 ≠ "MainThread") others.
Proof.
  destruct (thread_runs_on_marked_daemons "MainThread"
              (Thread (Func "outer" [Thread (Func "inner" []) true]) false)
              (mkThreads 0 [] []))
    as (more & others & E & R & _ & _ & Hc).
  exists more, others. split_and!; [exact E|exact R|].
  apply Hc. vm_compute. reflexivity.
Defined.

(** *** set_plugins_version *)

(** X22.  [set_plugins_version] needs [LD_PRELOAD] in the environment:
    without it the call fails with [KeyError] before anything is run or
    set.  With it, [git describe] runs in the given directory with the
    environment less [LD_PRELOAD], while the process's own environment is
    left as it is.  When the call returns, the version is set, either to
    [NOT_SET] or to the output of a run that exited with 0, stripped; it
    has no blanks around it. *)
Theorem set_plugins_version_outcome
    (popen : list string → string → gmap string string → GitRun)
    (path : string) (h : Host) :
  environ (set_plugins_version popen path h).1 = environ h
  ∧ (environ h !! "LD_PRELOAD" = None →
     set_plugins_version popen path h = (h, Raise (KeyError "LD_PRELOAD")))
  ∧ ((set_plugins_version popen path h).2 = Ok tt →
     ∃ v,
       __plugins_version__ (set_plugins_version popen path h).1 = Some v
       ∧ strip v = v
       ∧ (v = "NOT_SET"
          ∨ ∃ text,
              popen ["git"; "describe"; "--long"; "--tags"; "--dirty"; "--always"]
                path (delete "LD_PRELOAD" (environ h)) = Exited 0 (Some text)
              ∧ v = strip text)).
Proof.
  unfold set_plugins_version.
  change (shlex_split "git describe --long --tags --dirty --always")
    with ["git"; "describe"; "--long"; "--tags"; "--dirty"; "--always"].
  cbv zeta. destruct (environ h !! "LD_PRELOAD") as [preload|]; [|done].
  destruct (popen _ path _) as [code [text|]| | |tag] eqn:Hp; cbn [fst snd].
  - destruct (Z.eqb_spec code 0) as [->|Hne]; cbn [negb fst snd].
    + split_and!; [done|done|]. intros _. exists (strip text).
      split_and!; [done|apply strip_idemp|]. right. by exists text.
    + split_and!; [done|done|]. intros _. exists "NOT_SET".
      split_and!; [done|done|by left].
  - destruct (Z.eqb_spec code 0) as [->|Hne]; cbn [negb fst snd].
    + by split_and!.
    + split_and!; [done|done|]. intros _. exists "NOT_SET".
      split_and!; [done|done|by left].
  - split_and!; [done|done|]. intros _. exists "NOT_SET".
    split_and!; [done|done|by left].
  - split_and!; [done|done|]. intros _. exists "NOT_SET".
    split_and!; [done|done|by left].
  - by split_and!.
Qed.

Lemma set_plugins_version_outcome_witness :
  set_plugins_version (λ _ _ _, NotFound) "/ql/minqlx-plugins" (mkHost ∅ None)
  = (mkHost ∅ None, Raise (KeyError "LD_PRELOAD")).
Proof.
  apply (proj1 (proj2 (set_plugins_version_outcome (λ _ _ _, NotFound)
                         "/ql/minqlx-plugins" (mkHost ∅ None)))).
  reflexivity.
Defined.

(** *** The preset after initialize_cvars *)

Lemma filter_keeps_all {A} (P : A → Prop) `{∀ x, Decision (P x)} (l : list A) :
  Forall P l → filter P l = l.
Proof.
  induction 1 as [|x l Hx _ IH]; [done|].
  rewrite filter_cons_True by done. by f_equal.
Qed.

Section preset_defaults.
Context `{OsPath}.

(** X23.  Run after [initialize_cvars], as [late_init] does,
    [load_preset_plugins] finds both cvars it reads set: it cannot fail on
    an unset cvar.  It raises [PluginLoadError] if the plugins directory is
    missing and goes through the preset otherwise.  Where neither cvar was
    set and none of the default names is imported, it calls [load_plugin]
    on the six default plugins, in the order of the default and without
    the blanks written after its commas, in [minqlx-plugins]. *)
Theorem initialize_cvars_then_load_preset_plugins (s : Runtime) :
  let s' := (initialize_cvars s).1 in
  let path := default "minqlx-plugins" (cvars (world s) !! "qlx_pluginsPath") in
  let preset := default "plugin_manager, essentials, motd, permission, ban, clan"
                  (cvars (world s) !! "qlx_plugins") in
  (initialize_cvars ≫= λ _, load_preset_plugins) s = load_preset_plugins s'
  ∧ (abspath path ∉ dirs (world s) →
     load_preset_plugins s'
     = (s', Raise (PluginLoadError
                     ("Cannot find the plugins directory '"
                      ++ abspath (abspath path) ++ "'."))))
  ∧ (abspath path ∈ dirs (world s) →
     load_preset_plugins s'
     = for_each
         (strip <$> filter
            (λ p, sys_modules s !! (basename (abspath path) ++ "." ++ p) = None)
            (split comma preset))
         load_plugin s')
  ∧ (abspath path ∈ dirs (world s) →
     cvars (world s) !! "qlx_plugins" = None →
     (∀ p, p ∈ split comma preset →
           sys_modules s !! (basename (abspath path) ++ "." ++ p) = None) →
     load_preset_plugins s'
     = for_each ["plugin_manager"; "essentials"; "motd"; "permission"; "ban"; "clan"]
         load_plugin s').
Proof.
  intros s' path preset.
  assert (s' = with_cvars (λ c, c ∪ default_cvars) s) as Hs'
    by (subst s'; by rewrite initialize_cvars_spec).
  assert (cvars (world s') !! "qlx_pluginsPath" = Some path) as Hpath.
  { rewrite Hs'. unfold with_cvars. cbn [world cvars]. rewrite lookup_union.
    subst path. destruct (cvars (world s) !! "qlx_pluginsPath"); [done|].
    vm_compute. reflexivity. }
  assert (cvars (world s') !! "qlx_plugins" = Some preset) as Hpreset.
  { rewrite Hs'. unfold with_cvars. cbn [world cvars]. rewrite lookup_union.
    subst preset. destruct (cvars (world s) !! "qlx_plugins"); [done|].
    vm_compute. reflexivity. }
  assert (dirs (world s') = dirs (world s)) as Hdirs by (by rewrite Hs').
  assert (sys_modules s' = sys_modules s) as Hsys by (by rewrite Hs').
  assert (abspath path ∈ dirs (world s) →
          load_preset_plugins s'
          = for_each
              (strip <$> filter
                 (λ p, sys_modules s !! (basename (abspath path) ++ "." ++ p) = None)
                 (split comma preset))
              load_plugin s') as Hgo.
  { intros Hd.
    rewrite (load_preset_plugins_for_each path preset)
      by (done || by rewrite Hdirs).
    by rewrite Hsys. }
  split_and!.
  - unfold mbind, M_bind, bind. rewrite initialize_cvars_spec. by rewrite Hs'.
  - intros Hd. unfold load_preset_plugins, get_plugins_path, get_cvar, isdir.
    munfold. cbn beta. rewrite Hpath. cbn beta iota. rewrite Hdirs.
    by rewrite bool_decide_eq_false_2.
  - exact Hgo.
  - intros Hd Hnone Hfree. rewrite Hgo by done.
    rewrite filter_keeps_all by (by apply Forall_forall).
    subst preset. rewrite Hnone. cbn [default].
    assert (strip <$> split comma
                        "plugin_manager, essentials, motd, permission, ban, clan"
            = ["plugin_manager"; "essentials"; "motd"; "permission"; "ban"; "clan"])
      as Hsix by (vm_compute; reflexivity).
    by rewrite Hsix.
Qed.
End preset_defaults.

Lemma initialize_cvars_then_load_preset_plugins_witness :
  @load_preset_plugins (posix_paths_in "/ql") (initialize_cvars sample_unconfigured).1
  = for_each ["plugin_manager"; "essentials"; "motd"; "permission"; "ban"; "clan"]
      (@load_plugin (posix_paths_in "/ql")) (initialize_cvars sample_unconfigured).1.
Proof.
  pose proof (@initialize_cvars_then_load_preset_plugins (posix_paths_in "/ql")
                sample_unconfigured) as Hw.
  cbv zeta in Hw. destruct Hw as (_ & _ & _ & Hsix). apply Hsix.
  - apply (bool_decide_unpack _). vm_compute. exact I.
  - reflexivity.
  - intros p _. change (sys_modules sample_unconfigured) with (∅ : gmap string nat).
    apply lookup_empty.
Defined.

Lemma error_lines_are_the_text_witness : error_lines "" = [""].
Proof.
  apply (proj1 (proj2 (proj2 (proj2 (proj2 (error_lines_are_the_text "")))))).
  reflexivity.
Defined.

Lemma set_cvar_once_first_wins_witness :
  cvars (world (set_cvar_once "qlx_owner" "-1" 0 sample_start).1) !! "qlx_plugins"
  = cvars (world sample_start) !! "qlx_plugins".
Proof.
  pose proof (set_cvar_once_first_wins "qlx_owner" "-1" 0 sample_start) as Hw.
  cbv zeta in Hw. destruct Hw as (_ & Hother & _). by apply Hother.
Defined.

Lemma initialize_cvars_fills_unset_witness :
  cvars (world (initialize_cvars sample_start).1) !! "qlx_plugins" = Some "ban,motd"
  ∧ cvars (world (initialize_cvars sample_start).1) !! "qlx_owner"
    = default_cvars !! "qlx_owner".
Proof.
  pose proof (initialize_cvars_fills_unset sample_start) as Hw.
  cbv zeta in Hw. destruct Hw as (_ & Hset & Hunset & _).
  split; [by apply Hset|by apply Hunset].
Defined.

(** *** Reloading picks up the source *)

Section reload_source.
Context `{OsPath}.

(** X24.  [reload_plugin] of a loaded plugin runs the module's source
    again, into the module object it kept: the object stays the same and
    gets the names the source now defines, over the ones it had.  The
    plugin's class is then taken from there, so the new plugin object,
    registered in place of the old one, is an instance of the class as the
    source now has it, while the old object is left without hooks and
    commands. *)
Theorem reload_plugin_picks_up_the_source
    (plugin path cname : string) (obj m : nat) (self : Plugin) (module : Module)
    (members : gmap string Member) (init : list InitStep) (s : Runtime) :
  cvars (world s) !! "qlx_pluginsPath" = Some path →
  join (abspath path) (plugin ++ ".py") ∈ files (world s) →
  _loaded_plugins s !! plugin = Some obj →
  plugin_heap s !! obj = Some self →
  vetoes (world s) !! plugin = None →
  _modules s !! plugin = Some m →
  module_heap s !! m = Some module →
  mod_name module = basename (abspath path) ++ "." ++ plugin →
  sys_modules s !! mod_name module = Some m →
  sources (world s) !! mod_name module = Some (SrcDefines members) →
  (members ∪ mod_members module) !! plugin = Some (Class cname true init) →
  (init_effect init).2 = None →
  let s' := (reload_plugin plugin s).1 in
  (reload_plugin plugin s).2 = Ok tt
  ∧ module_heap s' !! m
    = Some (mkModule (mod_name module) (members ∪ mod_members module))
  ∧ ∃ obj',
      obj' ≠ obj
      ∧ _loaded_plugins s' = <[plugin := obj']> (_loaded_plugins s)
      ∧ plugin_heap s' !! obj'
        = Some (mkPlugin cname (init_effect init).1.1 (init_effect init).1.2)
      ∧ plugin_heap s' !! obj = Some (mkPlugin (plugin_name self) [] []).
Proof.
  intros Hc Hf Hp Ho Hv Hm Hh Hname Hs Hsrc Hcls Hr s'. subst s'.
  set (s1 := unloaded plugin obj self s).
  set (module' := mkModule (mod_name module) (members ∪ mod_members module)).
  set (s2 := with_module_heap <[m := module']> s1).
  assert (importlib_reload m s1 = (s2, Ok tt)) as Hreload.
  { unfold importlib_reload, deref_module, execute_source. munfold.
    cbn beta. change (module_heap s1) with (module_heap s). rewrite Hh.
    cbn beta iota. change (sys_modules s1) with (sys_modules s).
    rewrite bool_decide_eq_true_2 by done. cbn beta iota.
    change (world s1) with (world s). by rewrite Hsrc. }
  assert (_loaded_plugins s2 !! plugin = None) as Hn2
    by apply lookup_delete_eq.
  assert (import_module (basename (abspath path) ++ "." ++ plugin)
            (with_log (append (loading plugin)) s2)
          = (with_log (append (loading plugin)) s2, Ok m)) as Himp.
  { rewrite import_module_cases.
    change (sys_modules (with_log (append (loading plugin)) s2))
      with (sys_modules s).
    by rewrite <- Hname, Hs. }
  assert (module_heap (with_log (append (loading plugin)) s2) !! m = Some module')
    as Hh2 by apply lookup_insert_eq.
  pose proof (load_plugin_fresh_class plugin path s2 _ m module' cname init
                Hc Hf Hn2 Himp Hh2 Hcls) as Hload.
  cbv zeta in Hload. rewrite Hr in Hload.
  assert (reload_plugin plugin s = load_plugin plugin s2) as ->.
  { unfold reload_plugin, reload_plugin_at. rewrite reload_plugin_body_unfold.
    rewrite unload_quietly_cases, Hp, (unload_plugin_succeeds plugin obj self)
      by done.
    fold s1. rewrite Hload. apply logged_Ok.
    erewrite bind_Ok; last first.
    { change (_modules s1) with (_modules s). rewrite Hm. exact Hreload. }
    rewrite <- Hload. symmetry. by apply (load_plugin_at_fresh 1). }
  rewrite Hload. cbn [fst snd]. split_and!; [done|apply lookup_insert_eq|].
  exists (fresh (dom (plugin_heap s2))).
  assert (plugin_heap s2 !! obj = Some (mkPlugin (plugin_name self) [] []))
    as Ho2 by apply lookup_insert_eq.
  assert (fresh (dom (plugin_heap s2)) ≠ obj) as Hne.
  { intros Heq. pose proof (fresh_not_allocated (plugin_heap s2)) as Hfr.
    rewrite Heq in Hfr. congruence. }
  split_and!; [done| | |].
  - cbn [with_loaded_plugins _loaded_plugins]. subst s2 s1.
    cbn [with_module_heap unloaded _loaded_plugins].
    apply insert_delete_eq.
  - cbn [with_loaded_plugins plugin_heap]. apply lookup_insert_eq.
  - cbn [with_loaded_plugins plugin_heap]. by rewrite lookup_insert_ne.
Qed.
End reload_source.

Lemma reload_plugin_picks_up_the_source_witness :
  (@reload_plugin posix_paths "ban" sample_edited).2 = Ok tt
  ∧ module_heap (@reload_plugin posix_paths "ban" sample_edited).1 !! 0
    = Some (mkModule "minqlx-plugins.ban"
              ({[ "ban" := Class "ban" true [AddCommand sample_command] ]}
               ∪ {[ "ban" := Class "ban" true
                               [AddHook sample_hook; AddCommand sample_command] ]})).
Proof.
  assert (@join posix_paths (@abspath posix_paths "/ql/minqlx-plugins")
            ("ban" ++ ".py") ∈ files (world sample_edited)) as Hf.
  { apply (bool_decide_unpack _). vm_compute. exact I. }
  destruct (@reload_plugin_picks_up_the_source posix_paths "ban"
              "/ql/minqlx-plugins" "ban" 0 0
              (mkPlugin "ban" [sample_hook] [sample_command])
              (mkModule "minqlx-plugins.ban"
                 {[ "ban" := Class "ban" true
                               [AddHook sample_hook; AddCommand sample_command] ]})
              {[ "ban" := Class "ban" true [AddCommand sample_command] ]}
              [AddCommand sample_command] sample_edited)
    as (Hr & Hm & _); try exact Hf; try (vm_compute; reflexivity).
  split; [exact Hr|exact Hm].
Defined.
